(** * tn-mod-manager: the reconciliation engine and the self-updater

    A shallow embedding of [ModManager] and [AutoUpdater] (the TypeScript
    entry point of randygil/tn-mod-manager, in the version that has the
    [prune] switch and the self-updater) and the properties of the
    synchronisation pass, the registry resolver, the jar validator and the
    binary swap.

    Modelling conventions.
    - Strings are sequences of ASCII characters: [toLowerCase] maps A-Z to
      a-z and the class [\s] is tab, line feed, vertical tab, form feed,
      carriage return and space.
    - The mods directory is a finite map from entry names to nodes, on a
      file system that tells names apart by case and separates the segments
      of a path by [/].  The name of a listed entry [name] is reached by the
      path [`${modsDir}/${name}`].  A file name taken from the manifest or
      from the registry is resolved as the file system does ([Path.entryOf]):
      [x.jar], [./x.jar] and [.//x.jar] denote the one entry [x.jar].  A file
      name that leaves the directory, enters a sub-directory or ends in a
      separator denotes no entry of the directory; it is kept under a key of
      its own, apart from the entries and out of every listing, and the
      properties that depend on which file a name denotes are stated for
      names that denote entries.
      The directory is owned by the pass: [Deno.remove] fails exactly when
      the entry is missing.  The executable and its siblings live in a map of
      the same kind keyed by path, where the platform may refuse an
      operation.
    - Asynchronous methods are computations in the monad [M]: they read and
      update the file system, append to a trace of observable events
      (console output, file-system mutations, network requests) and end with
      a value, a thrown error, or the termination of the process.
    - The network is a deterministic environment ([Registry], [Host]). *)

From Stdlib Require Import ZArith String Ascii List Bool Lia.
From Stdlib.Strings Require Import Byte.
From stdpp Require Import gmap strings list fin_maps.
Import ListNotations.
Open Scope string_scope.
Open Scope list_scope.

(** ** JavaScript string primitives *)

Module Js.

Definition isUpper (c : ascii) : bool :=
  let n := nat_of_ascii c in (65 <=? n)%nat && (n <=? 90)%nat.

Definition lowerChar (c : ascii) : ascii :=
  if isUpper c then ascii_of_nat (nat_of_ascii c + 32) else c.

(** [String.prototype.toLowerCase]. *)
Fixpoint toLowerCase (s : string) : string :=
  match s with
  | EmptyString => EmptyString
  | String c s' => String (lowerChar c) (toLowerCase s')
  end.

(** The character class [\s]. *)
Definition isSpace (c : ascii) : bool :=
  let n := nat_of_ascii c in
  ((9 <=? n)%nat && (n <=? 13)%nat) || (n =? 32)%nat.

(** [s.replace(/\s+/g, '-')]: every maximal run of white space becomes
    one hyphen.  [inRun] tells that the previous character was white
    space. *)
Fixpoint hyphenateFrom (inRun : bool) (s : string) : string :=
  match s with
  | EmptyString => EmptyString
  | String c s' =>
      if isSpace c
      then (if inRun then hyphenateFrom true s'
            else String "-" (hyphenateFrom true s'))
      else String c (hyphenateFrom false s')
  end.

Definition replaceSpaces (s : string) : string := hyphenateFrom false s.

(** [s.startsWith(p)]. *)
Fixpoint startsWith (s p : string) : bool :=
  match p, s with
  | EmptyString, _ => true
  | String _ _, EmptyString => false
  | String b p', String a s' => Ascii.eqb a b && startsWith s' p'
  end.

(** [s.includes(sub)]. *)
Fixpoint includes (s sub : string) : bool :=
  startsWith s sub ||
  match s with
  | EmptyString => false
  | String _ s' => includes s' sub
  end.

(** [s.endsWith(suf)]. *)
Fixpoint endsWith (s suf : string) : bool :=
  String.eqb s suf ||
  match s with
  | EmptyString => false
  | String _ s' => endsWith s' suf
  end.

(** [s.replace(/\.jar$/i, '')]: the final [.jar], in any case, is cut. *)
Fixpoint stripJar (s : string) : string :=
  if String.eqb (toLowerCase s) ".jar" then EmptyString
  else match s with
       | EmptyString => EmptyString
       | String c s' => String c (stripJar s')
       end.

(** [s.replace(/^v/, '')]. *)
Definition stripLeadingV (s : string) : string :=
  match s with
  | String "v" s' => s'
  | _ => s
  end.

(** Truthiness of an optional string: [undefined] and [''] are falsy. *)
Definition truthy (o : option string) : bool :=
  match o with
  | Some s => negb (String.eqb s "")
  | None => false
  end.

(** [o || d] for an optional string [o]. *)
Definition orElse (o : option string) (d : string) : string :=
  match o with
  | Some s => if String.eqb s "" then d else s
  | None => d
  end.

(** [xs.find(p)]. *)
Definition find {A} (p : A -> bool) (xs : list A) : option A := List.find p xs.

(** [xs.includes(x)] on an array of strings. *)
Definition arrayIncludes (xs : list string) (x : string) : bool :=
  existsb (String.eqb x) xs.

End Js.

(** ** Paths below the mods directory *)

Module Path.

(** The segments of a path, cut at every [/]. *)
Fixpoint segments (p : string) : list string :=
  match p with
  | EmptyString => [EmptyString]
  | String c p' =>
      if Ascii.eqb c "/" then EmptyString :: segments p'
      else match segments p' with
           | seg :: rest => String c seg :: rest
           | [] => [String c EmptyString]
           end
  end.

(** A segment that stays where it is: the empty segment and [.]. *)
Definition stays (seg : string) : bool :=
  String.eqb seg "" || String.eqb seg ".".

(** A segment that names an entry. *)
Definition isName (seg : string) : bool :=
  negb (stays seg) && negb (String.eqb seg "..").

Fixpoint entryOfSegments (segs : list string) : option string :=
  match segs with
  | [] => None
  | [seg] => if isName seg then Some seg else None
  | seg :: rest => if stays seg then entryOfSegments rest else None
  end.

(** The entry of the mods directory that [`${modsDir}/${fileName}`]
    denotes: the last segment, when it is a name and every segment before it
    stays in the directory.  [None] for a path that leaves the directory,
    enters a sub-directory, ends in a separator or names the directory
    itself. *)
Definition entryOf (fileName : string) : option string :=
  entryOfSegments (segments fileName).

(** The key under which the file at [`${modsDir}/${fileName}`] is kept:
    the entry it denotes, and the file name itself when it denotes none. *)
Definition key (fileName : string) : string :=
  match entryOf fileName with
  | Some entry => entry
  | None => fileName
  end.

(** The names of the entries of a directory: the file names that denote
    the entry of that very name. *)
Definition isEntryName (name : string) : bool :=
  match entryOf name with
  | Some entry => String.eqb entry name
  | None => false
  end.

End Path.

(** ** Data model (the interfaces of the source) *)

Inductive Source := Curseforge | Modrinth | Url.

Record ModConfig := {
  name : string;
  version : option string;
  source : option Source;
  projectId : option string;
  downloadUrl : option string;
  fileName : option string
}.

Record ModpackConfig := {
  modLoader : string;
  gameVersion : string;
  prune : option bool;
  mods : list ModConfig
}.

Record SearchResult := {
  title : string;
  slug : string;
  project_id : string;
  categories : list string
}.

Record VersionFile := { url : string; filename : string }.

Record Version := {
  game_versions : list string;
  loaders : list string;
  version_number : string;
  files : list VersionFile
}.

Record GitHubAsset := {
  asset_name : string;
  browser_download_url : string;
  asset_size : N
}.

Record GitHubRelease := {
  tag_name : string;
  assets : list GitHubAsset
}.

(** The record returned by [getModrinthDownloadUrl]. *)
Record ModrinthInfo := {
  info_url : string;
  info_version : string;
  info_fileName : string
}.

(** ** File system, errors, events *)

Inductive Node :=
| RegularFile (content : list byte)
| Directory (size : nat).

(** [Deno.stat(p).size]. *)
Definition nodeSize (n : Node) : nat :=
  match n with
  | RegularFile c => length c
  | Directory s => s
  end.

Definition isFile (n : Node) : bool :=
  match n with
  | RegularFile _ => true
  | Directory _ => false
  end.

Abbreviation FS := (gmap string Node).

(** Every [throw] site of the source, and the failures of the runtime. *)
Inductive Error :=
| NotFound (path : string)
| IsADirectory (path : string)
| PermissionDenied (path : string)
| NetworkError (what : string)
| TypeError (what : string)
| UrlRequiresDownloadUrl
| CurseForgeNotImplemented (modName : string)
| UnsupportedSource (modName : string)
| NoProjectsFound (modName : string)
| SearchFailed (cause : Error)
| SpecificVersionNotFound (wanted : string)
| NoCompatibleVersion
| ModrinthUrlFailed (modName : string) (cause : Error)
| DownloadStatus
| NoResponseBody
| EmptyJar
| NotAJar
| InvalidJar (cause : Error)
| DownloadModFailed (modName : string) (cause : Error)
| GitHubApiError
| UnsupportedPlatform (os arch : string)
| AssetNotFound (pattern : string)
| UpdateDownloadFailed
| RenameCurrentFailed (cause : Error)
| ApplyUpdateFailed (cause : Error).

(** Console output, one constructor per message of the source. *)
Inductive Msg :=
| CurrentMods (n : nat)
| RequiredMods (n : nat)
| PruneActive
| SafeMode
| RemovingUnlisted (file : string)
| RemovingOldVersion (file : string)
| CouldNotRemove (file : string) (cause : Error)
| Verified (modName : string) (shown : string)
| Downloading (modName : string) (shown : string)
| Installed (file : string)
| ErrorProcessing (modName : string) (cause : Error)
| Downloaded (modName : string)
| SearchingProject (modName : string)
| ProjectFound (ttl : string) (pid : string)
| MaybeIncompatible (ttl : string)
| SpecificVersionFound (label : string)
| SearchingLatest (modName : string)
| LatestFound (label : string)
| CurseForgeNeedsSetup (modName : string)
| DevMode
| CheckingUpdates
| NewVersionAvailable (tag : string)
| UpToDate
| UpdateCheckError (cause : Error)
| DownloadingUpdate (asset : string)
| UpdateSize (bytes : N)
| UpdateSucceeded.

Inductive Event :=
| Log (m : Msg)
| SearchRequest (query : string)
| VersionsRequest (pid : string)
| ReleaseRequest
| Fetch (url : string)
| Create (path : string)
| Write (path : string) (data : list byte)
| Remove (path : string)
| Rename (src dst : string)
| Chmod (path : string)
| Spawn (path : string) (args : list string).

(** How a computation ends. *)
Inductive Res (A : Type) :=
| Val (a : A)
| Throw (e : Error)
| Exit (code : Z).
Arguments Val {A} a.
Arguments Throw {A} e.
Arguments Exit {A} code.

(** ** The monad of effects *)

Definition M (A : Type) : Type := FS -> Res A * FS * list Event.

Definition result {A} (o : Res A * FS * list Event) : Res A := o.1.1.
Definition final {A} (o : Res A * FS * list Event) : FS := o.1.2.
Definition trace {A} (o : Res A * FS * list Event) : list Event := o.2.

Definition ret {A} (a : A) : M A := fun fs => (Val a, fs, []).

Definition throw {A} (e : Error) : M A := fun fs => (Throw e, fs, []).

Definition exit {A} (code : Z) : M A := fun fs => (Exit code, fs, []).

Definition bind {A B} (m : M A) (k : A -> M B) : M B :=
  fun fs =>
    match m fs with
    | (Val a, fs1, t1) =>
        match k a fs1 with
        | (r, fs2, t2) => (r, fs2, t1 ++ t2)
        end
    | (Throw e, fs1, t1) => (Throw e, fs1, t1)
    | (Exit c, fs1, t1) => (Exit c, fs1, t1)
    end.

(** [try { m } catch (e) { h e }]. *)
Definition tryCatch {A} (m : M A) (h : Error -> M A) : M A :=
  fun fs =>
    match m fs with
    | (Throw e, fs1, t1) =>
        match h e fs1 with
        | (r, fs2, t2) => (r, fs2, t1 ++ t2)
        end
    | o => o
    end.

Definition emit (e : Event) : M unit := fun fs => (Val tt, fs, [e]).

Definition log (m : Msg) : M unit := emit (Log m).

Declare Scope m_scope.
Delimit Scope m_scope with m.
Notation "x <- c1 ;; c2" := (bind c1 (fun x => c2))
  (at level 100, c1 at next level, right associativity) : m_scope.
Notation "c1 ;; c2" := (bind c1 (fun _ => c2))
  (at level 100, right associativity) : m_scope.
Open Scope m_scope.

(** [for (const x of xs) { await f(x) }]. *)
Fixpoint forEach {A} (xs : list A) (f : A -> M unit) : M unit :=
  match xs with
  | [] => ret tt
  | x :: xs' => f x ;; forEach xs' f
  end.

(** ** File-system primitives of the mods directory *)

(** [Deno.stat(p)], reduced to the size it is used for. *)
Definition stat (p : string) : M nat :=
  fun fs =>
    match fs !! p with
    | Some n => (Val (nodeSize n), fs, [])
    | None => (Throw (NotFound p), fs, [])
    end.

(** [Deno.remove(p)].  Directories have no children in this model, so
    removing one succeeds like removing a file. *)
Definition remove (p : string) : M unit :=
  fun fs =>
    match fs !! p with
    | Some _ => (Val tt, delete p fs, [Remove p])
    | None => (Throw (NotFound p), fs, [])
    end.

(** [Deno.open(p, { create: true, write: true })]: the file is created
    when missing and is not truncated. *)
Definition openWrite (p : string) : M unit :=
  fun fs =>
    match fs !! p with
    | Some (RegularFile _) => (Val tt, fs, [])
    | Some (Directory _) => (Throw (IsADirectory p), fs, [])
    | None => (Val tt, <[p := RegularFile []]> fs, [Create p])
    end.

(** Writing [data] from offset 0 over the present content. *)
Definition overwrite (data old : list byte) : list byte :=
  data ++ skipn (length data) old.

Definition writeFile (p : string) (data : list byte) : M unit :=
  fun fs =>
    match fs !! p with
    | Some (RegularFile old) =>
        (Val tt, <[p := RegularFile (overwrite data old)]> fs, [Write p data])
    | Some (Directory _) => (Throw (IsADirectory p), fs, [])
    | None => (Throw (NotFound p), fs, [])
    end.

(** [file.read(buffer)] into a zeroed four-byte buffer. *)
Definition readHeader (p : string) : M (list byte) :=
  fun fs =>
    match fs !! p with
    | Some (RegularFile c) => (Val (firstn 4 (c ++ [x00; x00; x00; x00])), fs, [])
    | Some (Directory _) => (Throw (IsADirectory p), fs, [])
    | None => (Throw (NotFound p), fs, [])
    end.

(** [Deno.readDir]: the entries of the directory, by their names. *)
Definition readDir : M (list (string * Node)) :=
  fun fs =>
    (Val (List.filter (fun e => Path.isEntryName (fst e)) (map_to_list fs)), fs, []).

(** ** The network *)

(** What a response stream delivers: the bytes received and whether the
    stream ended normally. *)
Record Body := { received : list byte; complete : bool }.

(** The outcome of [fetch(url)]: a rejected promise or a response with its
    [ok] flag and its [body] (which may be null). *)
Inductive Response :=
| NoResponse
| Http (ok : bool) (body : option Body).

(** The registry and the download hosts, as functions of the request.
    [None] stands for a request that throws ([fetch] or [json()]). *)
Record Registry := {
  search : string -> string -> string -> option (list SearchResult);
  versions : string -> option (list Version);
  fetch : string -> Response
}.

(** [fetch('')] rejects: the empty string is not a URL. *)
Definition fetchUrl (reg : Registry) (u : string) : Response :=
  if String.eqb u "" then NoResponse else fetch reg u.

(** ** ModManager *)

(** [mod.name.toLowerCase().replace(/\s+/g, '-')]. *)
Definition normalizedName (m : ModConfig) : string :=
  Js.replaceSpaces (Js.toLowerCase (name m)).

(** [extractModBaseName]. *)
Definition extractModBaseName (file : string) : string :=
  Js.toLowerCase (Js.stripJar file).

(** [getCurrentMods]: the names of the regular files ending in [.jar].
    [syncMods] runs after [ensureModsDirectory], so the directory exists and
    the [catch] that answers the empty list is not reached. *)
Definition getCurrentMods : M (list string) :=
  entries <- readDir ;;
  ret (map fst (List.filter (fun e => isFile (snd e) && Js.endsWith (fst e) ".jar") entries)).

(** [generateFileName]. *)
Definition generateFileName (m : ModConfig) : string :=
  if Js.truthy (fileName m) then Js.orElse (fileName m) ""
  else
    let sanitizedName := Js.toLowerCase (Js.replaceSpaces (name m)) in
    let ver := Js.orElse (version m) "latest" in
    sanitizedName +:+ "-" +:+ ver +:+ ".jar".

(** [validateJarFile]. *)
Definition jarSignature : list byte := [x50; x4b; x03; x04].

(** The test [buffer[0] !== 0x50 || buffer[1] !== 0x4B || buffer[2] !== 0x03
    || buffer[3] !== 0x04], negated. *)
Definition hasJarSignature (buffer : list byte) : bool :=
  match buffer with
  | [b0; b1; b2; b3] =>
      Byte.eqb b0 x50 && Byte.eqb b1 x4b && Byte.eqb b2 x03 && Byte.eqb b3 x04
  | _ => false
  end.

Definition validateJarFile (filePath : string) : M unit :=
  tryCatch
    (size <- stat filePath ;;
     if (size =? 0)%nat then throw EmptyJar
     else
       buffer <- readHeader filePath ;;
       if hasJarSignature buffer then ret tt else throw NotAJar)
    (fun error => throw (InvalidJar error)).

(** [downloadFile].  The request comes first, then the file is opened
    (created when missing, not truncated), then the body is written; a body
    whose stream breaks leaves what was received.  The progress output is not
    modelled. *)
Definition downloadFile (reg : Registry) (u filePath : string) : M unit :=
  emit (Fetch u) ;;
  match fetchUrl reg u with
  | NoResponse => throw (NetworkError u)
  | Http ok body =>
      if negb ok then throw DownloadStatus
      else
        openWrite filePath ;;
        match body with
        | None => throw NoResponseBody
        | Some b =>
            writeFile filePath (received b) ;;
            if complete b then ret tt else throw (NetworkError u)
        end
  end.

(** [getCurseForgeDownloadUrl]. *)
Definition getCurseForgeDownloadUrl (m : ModConfig) : M string :=
  log (CurseForgeNeedsSetup (name m)) ;;
  throw (CurseForgeNotImplemented (name m)).

(** [searchModrinthProject]. *)
Definition searchModrinthProject (reg : Registry) (cfg : ModpackConfig)
    (modName : string) : M string :=
  tryCatch
    (log (SearchingProject modName) ;;
     emit (SearchRequest modName) ;;
     match search reg modName (modLoader cfg) (gameVersion cfg) with
     | None => throw (NetworkError "search")
     | Some hits =>
         match hits with
         | [] => throw (NoProjectsFound modName)
         | first :: _ =>
             let wanted := Js.toLowerCase modName in
             let exact :=
               Js.find (fun hit =>
                 String.eqb (Js.toLowerCase (title hit)) wanted
                 || String.eqb (Js.toLowerCase (slug hit)) wanted) hits in
             let similar :=
               Js.find (fun hit =>
                 Js.includes (Js.toLowerCase (title hit)) wanted
                 || Js.includes wanted (Js.toLowerCase (title hit))) hits in
             let bestMatch :=
               match exact with
               | Some h => h
               | None => match similar with Some h => h | None => first end
               end in
             log (ProjectFound (title bestMatch) (project_id bestMatch)) ;;
             (if Js.arrayIncludes (categories bestMatch) (modLoader cfg)
              then ret tt
              else log (MaybeIncompatible (title bestMatch))) ;;
             ret (project_id bestMatch)
         end
     end)
    (fun error => throw (SearchFailed error)).

(** The predicates passed to [versions.find] in [getModrinthDownloadUrl]. *)
Definition compatible (cfg : ModpackConfig) (v : Version) : bool :=
  Js.arrayIncludes (game_versions v) (gameVersion cfg)
  && Js.arrayIncludes (loaders v) (modLoader cfg).

Definition exactMatch (cfg : ModpackConfig) (wanted : string) (v : Version) : bool :=
  compatible cfg v && String.eqb (version_number v) wanted.

Definition flexibleMatch (cfg : ModpackConfig) (wanted : string) (v : Version) : bool :=
  compatible cfg v
  && (String.eqb (version_number v) ("v" +:+ wanted)
      || String.eqb (Js.stripLeadingV (version_number v)) wanted).

(** The version selection of [getModrinthDownloadUrl] for a pinned
    version: the exact search, then the flexible one. *)
Definition findPinned (cfg : ModpackConfig) (wanted : string)
    (vs : list Version) : option Version :=
  match Js.find (exactMatch cfg wanted) vs with
  | Some v => Some v
  | None => Js.find (flexibleMatch cfg wanted) vs
  end.

(** [getModrinthDownloadUrl]. *)
Definition getModrinthDownloadUrl (reg : Registry) (cfg : ModpackConfig)
    (m : ModConfig) (showSearchMessage : bool) : M ModrinthInfo :=
  tryCatch
    (pid <- (if Js.truthy (projectId m) then ret (Js.orElse (projectId m) "")
             else searchModrinthProject reg cfg (name m)) ;;
     emit (VersionsRequest pid) ;;
     match versions reg pid with
     | None => throw (NetworkError "versions")
     | Some vs =>
         compatibleVersion <-
           (if Js.truthy (version m) then
              let wanted := Js.orElse (version m) "" in
              match findPinned cfg wanted vs with
              | None => throw (SpecificVersionNotFound wanted)
              | Some v => log (SpecificVersionFound (version_number v)) ;; ret v
              end
            else
              (if showSearchMessage then log (SearchingLatest (name m)) else ret tt) ;;
              match Js.find (compatible cfg) vs with
              | None => throw NoCompatibleVersion
              | Some v =>
                  (if showSearchMessage then log (LatestFound (version_number v))
                   else ret tt) ;;
                  ret v
              end) ;;
         match files compatibleVersion with
         | [] => throw (TypeError "primaryFile is undefined")
         | primaryFile :: _ =>
             ret {| info_url := url primaryFile;
                    info_version := version_number compatibleVersion;
                    info_fileName := filename primaryFile |}
         end
     end)
    (fun error => throw (ModrinthUrlFailed (name m) error)).

(** What step 1 of [processModDownload] computes. *)
Record Target := {
  expectedFileName : string;
  targetUrl : string;
  versionDisplay : string
}.

(** Step 1 of [processModDownload]: the file the entry needs. *)
Definition resolveTarget (reg : Registry) (cfg : ModpackConfig)
    (m : ModConfig) : M Target :=
  match source m with
  | Some Modrinth =>
      let showMessage := negb (Js.truthy (version m)) in
      info <- getModrinthDownloadUrl reg cfg m showMessage ;;
      ret {| expectedFileName := info_fileName info;
             targetUrl := info_url info;
             versionDisplay := info_version info |}
  | Some Curseforge =>
      u <- getCurseForgeDownloadUrl m ;;
      ret {| expectedFileName := Js.orElse (fileName m) (generateFileName m);
             targetUrl := u;
             versionDisplay := Js.orElse (version m) "latest" |}
  | other =>
      if negb (Js.truthy (downloadUrl m))
         && match other with Some Url => true | _ => false end
      then throw UrlRequiresDownloadUrl
      else ret {| expectedFileName := Js.orElse (fileName m) (generateFileName m);
                  targetUrl := Js.orElse (downloadUrl m) "";
                  versionDisplay := Js.orElse (version m) "custom" |}
  end.

(** Step 2 of [processModDownload]: the files of the listing that are
    other variants of this mod. *)
Definition duplicates (m : ModConfig) (expected : string)
    (currentMods : list string) : list string :=
  List.filter (fun current =>
            Js.startsWith (extractModBaseName current) (normalizedName m)
            && negb (String.eqb current expected))
         currentMods.

Definition removeDuplicate (file : string) : M unit :=
  log (RemovingOldVersion file) ;;
  tryCatch (remove file) (fun e => log (CouldNotRemove file e)).

(** Step 3 of [processModDownload]: is the wanted file there, with a
    size above zero?  A failing [stat] is caught and means no. *)
Definition presentNonEmpty (targetPath : string) : M bool :=
  tryCatch
    (stat targetPath ;;
     size <- stat targetPath ;;
     ret (0 <? size)%nat)
    (fun _ => ret false).

(** [processModDownload].  Step 2 compares the listed names with
    [expectedFileName] as strings; step 3 works on the file at
    [`${modsDir}/${expectedFileName}`], kept under [Path.key]. *)
Definition processModDownload (reg : Registry) (cfg : ModpackConfig)
    (m : ModConfig) (currentMods : list string) : M unit :=
  tryCatch
    (t <- resolveTarget reg cfg m ;;
     forEach (duplicates m (expectedFileName t) currentMods) removeDuplicate ;;
     let targetPath := Path.key (expectedFileName t) in
     kept <- presentNonEmpty targetPath ;;
     if kept then
       log (Verified (name m)
              (if Js.truthy (version m) then Js.orElse (version m) ""
               else versionDisplay t))
     else
       log (Downloading (name m) (versionDisplay t)) ;;
       downloadFile reg (targetUrl t) targetPath ;;
       validateJarFile targetPath ;;
       log (Installed (expectedFileName t)))
    (fun error => log (ErrorProcessing (name m) error)).

(** [downloadMod]. *)
Definition downloadMod (reg : Registry) (cfg : ModpackConfig)
    (m : ModConfig) (filePath : string) : M unit :=
  tryCatch
    (u <- match source m with
          | Some Modrinth =>
              info <- getModrinthDownloadUrl reg cfg m true ;; ret (info_url info)
          | Some Curseforge => getCurseForgeDownloadUrl m
          | Some Url =>
              match downloadUrl m with
              | Some u => ret u
              | None => throw (TypeError "downloadUrl is undefined")
              end
          | None => throw (UnsupportedSource (name m))
          end ;;
     downloadFile reg u filePath ;;
     validateJarFile filePath ;;
     log (Downloaded (name m)))
    (fun error =>
       tryCatch (remove filePath) (fun _ => ret tt) ;;
       throw (DownloadModFailed (name m) error)).

(** The pruning block of [syncMods]. *)
Definition isUnlisted (cfg : ModpackConfig) (currentMod : string) : bool :=
  let configModNames := map normalizedName (mods cfg) in
  let modBaseName := extractModBaseName currentMod in
  negb (existsb (fun configName => Js.includes modBaseName configName) configModNames).

Definition pruneEnabled (cfg : ModpackConfig) : bool :=
  match prune cfg with
  | Some false => false
  | _ => true
  end.

Definition pruneUnlisted (cfg : ModpackConfig) (currentMods : list string) : M unit :=
  if pruneEnabled cfg then
    log PruneActive ;;
    forEach currentMods (fun currentMod =>
      if isUnlisted cfg currentMod then
        log (RemovingUnlisted currentMod) ;;
        remove currentMod
      else ret tt)
  else log SafeMode.

(** The download loop of [syncMods]. *)
Definition processAll (reg : Registry) (cfg : ModpackConfig)
    (ms : list ModConfig) (currentMods : list string) : M unit :=
  forEach ms (fun m => processModDownload reg cfg m currentMods).

(** [syncMods]. *)
Definition syncMods (reg : Registry) (cfg : ModpackConfig) : M unit :=
  currentMods <- getCurrentMods ;;
  log (CurrentMods (length currentMods)) ;;
  log (RequiredMods (length (mods cfg))) ;;
  pruneUnlisted cfg currentMods ;;
  processAll reg cfg (mods cfg) currentMods.

(** ** AutoUpdater *)

Definition APP_VERSION : string := "1.0.1".

(** The two functions used from [@std/semver].  [parse] throws on a string
    that is not a semantic version, which is [None] here. *)
Record SemverLib := {
  SemVer : Type;
  parse : string -> option SemVer;
  greaterThan : SemVer -> SemVer -> bool
}.

(** An implementation for versions of the form MAJOR.MINOR.PATCH with an
    optional leading [v]; tags with a pre-release or build part are outside
    its domain. *)
Module CoreSemver.

Definition digit (c : ascii) : option N :=
  let n := nat_of_ascii c in
  if (48 <=? n)%nat && (n <=? 57)%nat then Some (N.of_nat (n - 48)) else None.

(** Reads a number up to the next dot; the rest follows the dot. *)
Fixpoint number (acc : option N) (s : string) : option (N * option string) :=
  match s with
  | EmptyString => match acc with Some n => Some (n, None) | None => None end
  | String "." s' => match acc with Some n => Some (n, Some s') | None => None end
  | String c s' =>
      match digit c, acc with
      | Some d, None => number (Some d) s'
      | Some d, Some 0%N => None
      | Some d, Some n => number (Some (10 * n + d)%N) s'
      | None, _ => None
      end
  end.

Definition parse (s : string) : option (N * N * N) :=
  let s := match s with String "v" s' => s' | _ => s end in
  match number None s with
  | Some (major, Some s1) =>
      match number None s1 with
      | Some (minor, Some s2) =>
          match number None s2 with
          | Some (patch, None) => Some (major, minor, patch)
          | _ => None
          end
      | _ => None
      end
  | _ => None
  end.

Definition greaterThan (a b : N * N * N) : bool :=
  let '(a1, a2, a3) := a in
  let '(b1, b2, b3) := b in
  (b1 <? a1)%N
  || ((a1 =? b1)%N && ((b2 <? a2)%N || ((a2 =? b2)%N && (b3 <? a3)%N))).

Definition lib : SemverLib :=
  Build_SemverLib (N * N * N) parse greaterThan.

End CoreSemver.

(** The operations on the executable that the platform may refuse. *)
Inductive Syscall :=
| SysRemove (path : string)
| SysRename (src dst : string)
| SysOpen (path : string)
| SysChmod (path : string).

(** The answer of the release feed. *)
Inductive FeedResponse :=
| FeedUnreachable
| FeedStatus
| FeedRelease (r : GitHubRelease).

(** The process and its surroundings: [Deno.execPath()], [Deno.build],
    [Deno.args], the release feed, the asset host, the operations the
    platform refuses, and the exit code of the restarted child. *)
Record Host := {
  execPath : string;
  os : string;
  arch : string;
  args : list string;
  latestRelease : FeedResponse;
  download : string -> Response;
  denied : Syscall -> bool;
  childStatus : Z
}.

Definition hostRemove (h : Host) (p : string) : M unit :=
  if denied h (SysRemove p) then throw (PermissionDenied p) else remove p.

(** [Deno.rename(src, dst)]: the entry moves and replaces a file at
    [dst]. *)
Definition hostRename (h : Host) (src dst : string) : M unit :=
  fun fs =>
    if denied h (SysRename src dst) then (Throw (PermissionDenied src), fs, [])
    else
      match fs !! src, fs !! dst with
      | None, _ => (Throw (NotFound src), fs, [])
      | Some _, Some (Directory _) => (Throw (IsADirectory dst), fs, [])
      | Some n, _ => (Val tt, <[dst := n]> (delete src fs), [Rename src dst])
      end.

Definition hostOpenWrite (h : Host) (p : string) : M unit :=
  if denied h (SysOpen p) then throw (PermissionDenied p) else openWrite p.

Definition hostChmod (h : Host) (p : string) : M unit :=
  fun fs =>
    if denied h (SysChmod p) then (Throw (PermissionDenied p), fs, [])
    else
      match fs !! p with
      | Some _ => (Val tt, fs, [Chmod p])
      | None => (Throw (NotFound p), fs, [])
      end.

(** [new Deno.Command(p, ...).spawn()]. *)
Definition spawn (p : string) (argv : list string) : M unit :=
  fun fs =>
    match fs !! p with
    | Some (RegularFile _) => (Val tt, fs, [Spawn p argv])
    | Some (Directory _) => (Throw (PermissionDenied p), fs, [])
    | None => (Throw (NotFound p), fs, [])
    end.

Definition oldPathOf (h : Host) : string := execPath h +:+ ".old".
Definition tempPathOf (h : Host) : string := execPath h +:+ ".new".

(** The constructor: [Deno.execPath().includes('deno')]. *)
Definition isDev (h : Host) : bool := Js.includes (execPath h) "deno".

(** [cleanupOldVersions]. *)
Definition cleanupOldVersions (h : Host) : M unit :=
  tryCatch
    (tryCatch (hostRemove h (oldPathOf h)) (fun _ => ret tt))
    (fun _ => ret tt).

(** [getLatestRelease]. *)
Definition getLatestRelease (h : Host) : M GitHubRelease :=
  emit ReleaseRequest ;;
  match latestRelease h with
  | FeedUnreachable => throw (NetworkError "releases/latest")
  | FeedStatus => throw GitHubApiError
  | FeedRelease r => ret r
  end.

(** [getAssetForPlatform]. *)
Definition getAssetForPlatform (h : Host) (available : list GitHubAsset) : M GitHubAsset :=
  assetNamePattern <-
    (if String.eqb (os h) "windows" && String.eqb (arch h) "x86_64"
     then ret "mod-manager-windows-x64.exe"
     else if String.eqb (os h) "linux" && String.eqb (arch h) "x86_64"
     then ret "mod-manager-linux-x64"
     else if String.eqb (os h) "darwin" && String.eqb (arch h) "aarch64"
     then ret "mod-manager-macos-arm64"
     else throw (UnsupportedPlatform (os h) (arch h))) ;;
  match Js.find (fun a => String.eqb (asset_name a) assetNamePattern) available with
  | Some a => ret a
  | None => throw (AssetNotFound assetNamePattern)
  end.

(** Steps 2 and 3 of [performUpdate]: the running executable is renamed
    to the backup path and the downloaded file takes its place. *)
Definition swapExecutable (h : Host) : M unit :=
  let execPath := execPath h in
  let oldPath := oldPathOf h in
  let tempPath := tempPathOf h in
  tryCatch (hostRename h execPath oldPath)
    (fun error =>
       hostRemove h tempPath ;;
       throw (RenameCurrentFailed error)) ;;
  tryCatch (hostRename h tempPath execPath)
    (fun error =>
       hostRename h oldPath execPath ;;
       throw (ApplyUpdateFailed error)).

(** [performUpdate]. *)
Definition performUpdate (h : Host) (release : GitHubRelease) : M unit :=
  asset <- getAssetForPlatform h (assets release) ;;
  let execPath := execPath h in
  let oldPath := oldPathOf h in
  log (DownloadingUpdate (asset_name asset)) ;;
  log (UpdateSize (asset_size asset)) ;;
  let tempPath := tempPathOf h in
  emit (Fetch (browser_download_url asset)) ;;
  match download h (browser_download_url asset) with
  | NoResponse => throw (NetworkError (browser_download_url asset))
  | Http ok body =>
      if negb ok then throw UpdateDownloadFailed
      else
        hostOpenWrite h tempPath ;;
        match body with
        | None => ret tt
        | Some b =>
            writeFile tempPath (received b) ;;
            if complete b then ret tt
            else throw (NetworkError (browser_download_url asset))
        end ;;
        (if String.eqb (os h) "windows" then ret tt else hostChmod h tempPath) ;;
        swapExecutable h ;;
        log UpdateSucceeded ;;
        spawn execPath (args h) ;;
        exit (childStatus h)
  end.

(** [parse(s)] of the semver library, throwing on failure. *)
Definition parseVersion (sv : SemverLib) (s : string) : M (SemVer sv) :=
  match parse sv s with
  | Some v => ret v
  | None => throw (TypeError s)
  end.

(** The [try] block of [check]. *)
Definition updateSequence (sv : SemverLib) (h : Host) : M unit :=
  log CheckingUpdates ;;
  latest <- getLatestRelease h ;;
  currentVer <- parseVersion sv APP_VERSION ;;
  latestVer <- parseVersion sv (tag_name latest) ;;
  if greaterThan sv latestVer currentVer then
    log (NewVersionAvailable (tag_name latest)) ;;
    performUpdate h latest
  else log UpToDate.

(** [check]. *)
Definition check (sv : SemverLib) (h : Host) : M unit :=
  cleanupOldVersions h ;;
  if isDev h then log DevMode
  else tryCatch (updateSequence sv h) (fun error => log (UpdateCheckError error)).

(** ** Vocabulary of the properties *)

(** The effect of one event on the file system: every mutation of the
    source is recorded by an event that determines it. *)
Definition applyEvent (fs : FS) (e : Event) : FS :=
  match e with
  | Remove p => delete p fs
  | Create p => <[p := RegularFile []]> fs
  | Write p d =>
      match fs !! p with
      | Some (RegularFile old) => <[p := RegularFile (overwrite d old)]> fs
      | _ => fs
      end
  | Rename s d =>
      match fs !! s with
      | Some n => <[d := n]> (delete s fs)
      | None => fs
      end
  | _ => fs
  end.

Definition replay (t : list Event) (fs : FS) : FS := fold_left applyEvent t fs.

(** How a computation ended, without its value. *)
Inductive Kind := Returned | Thrown | Exited.

Definition kindOf {A} (r : Res A) : Kind :=
  match r with
  | Val _ => Returned
  | Throw _ => Thrown
  | Exit _ => Exited
  end.

(** A relation between the state before, the events, the state after and
    the way of ending, that composes along sequences and handlers. *)
Class Composable (R : FS -> list Event -> FS -> Kind -> Prop) : Prop := {
  comp_nil : forall fs k, k <> Exited -> R fs [] fs k;
  comp_app : forall a b c t1 t2 k1 k2,
    R a t1 b k1 -> k1 <> Exited -> R b t2 c k2 -> R a (t1 ++ t2) c k2
}.

(** [m] relates every start state to its events, its end state and its
    way of ending by [R]. *)
Definition sat {A} (R : FS -> list Event -> FS -> Kind -> Prop) (m : M A) : Prop :=
  forall fs, R fs (trace (m fs)) (final (m fs)) (kindOf (result (m fs))).

(** The end state is the start state with the events replayed. *)
Definition replays (fs : FS) (t : list Event) (fs' : FS) (k : Kind) : Prop :=
  fs' = replay t fs.

(** Every event satisfies [P]. *)
Definition typed (P : Event -> Prop) (fs : FS) (t : list Event) (fs' : FS) (k : Kind) : Prop :=
  Forall P t.

(** The process is not terminated. *)
Definition noExit (fs : FS) (t : list Event) (fs' : FS) (k : Kind) : Prop :=
  k <> Exited.

(** [m] neither reads nor changes the file system. *)
Definition pureM {A} (m : M A) : Prop :=
  exists r t, forall fs, m fs = (r, fs, t).

(** Does the event change the entry [p]? *)
Definition touches (p : string) (e : Event) : Prop :=
  match e with
  | Remove q | Create q | Write q _ => q = p
  | Rename s d => s = p \/ d = p
  | _ => False
  end.

(** The listing of [getCurrentMods] as a function of the directory. *)
Definition listing (fs : FS) : list string :=
  map fst (List.filter (fun e => isFile (snd e) && Js.endsWith (fst e) ".jar")
             (List.filter (fun e => Path.isEntryName (fst e)) (map_to_list fs))).

(** [Deno.stat] succeeds with a size above zero. *)
Definition nonEmpty (o : option Node) : Prop :=
  exists n, o = Some n /\ (0 < nodeSize n)%nat.

(** The comparison of version labels that tolerates an optional leading
    [v] on either side. *)
Definition sameUpToV (a b : string) : bool :=
  String.eqb (Js.stripLeadingV a) (Js.stripLeadingV b).

(** The labels a pin accepts in [getModrinthDownloadUrl]: the pin itself
    and the pin with a [v] in front. *)
Definition acceptsLabel (wanted label : string) : bool :=
  String.eqb label wanted || String.eqb label ("v" +:+ wanted).

(** The first step of [getModrinthDownloadUrl]: the identifier given in
    the entry, or else the one found by name. *)
Definition projectIdOf (reg : Registry) (cfg : ModpackConfig) (m : ModConfig) : M string :=
  if Js.truthy (projectId m) then ret (Js.orElse (projectId m) "")
  else searchModrinthProject reg cfg (name m).

(** A registry that knows one project with one compatible version. *)
Definition oneVersionRegistry (pid label file : string) : Registry :=
  {| search := fun _ _ _ => Some [];
     versions := fun p =>
       if String.eqb p pid
       then Some [ {| game_versions := ["1.20.1"]; loaders := ["fabric"];
                      version_number := label;
                      files := [ {| url := "https://cdn.example/" +:+ file;
                                    filename := file |} ] |} ]
       else None;
     fetch := fun _ => NoResponse |}.

Definition fabricPack (prn : option bool) (ms : list ModConfig) : ModpackConfig :=
  {| modLoader := "fabric"; gameVersion := "1.20.1"; prune := prn; mods := ms |}.

Definition pinnedMod (nm pid pin : string) : ModConfig :=
  {| name := nm; version := Some pin; source := Some Modrinth;
     projectId := Some pid; downloadUrl := None; fileName := None |}.

(** The events of an update in progress: the asset request, the writes to
    the temporary file, the renames and the restart. *)
Definition isUpdateAction (e : Event) : bool :=
  match e with
  | Fetch _ | Create _ | Write _ _ | Rename _ _ | Chmod _ | Spawn _ _ => true
  | _ => false
  end.

(** [check] ends by logging the warning of its [catch] and returning: the
    process goes on with the running binary. *)
Definition degradesToContinue (o : Res unit * FS * list Event) : Prop :=
  result o = Val tt /\ exists t e, trace o = t ++ [Log (UpdateCheckError e)].

(** A Linux installation at /opt/mod-manager whose release feed announces
    [tag] with one asset per platform. *)
Definition releaseOf (tag : string) : GitHubRelease :=
  {| tag_name := tag;
     assets :=
       [ {| asset_name := "mod-manager-windows-x64.exe";
            browser_download_url := "https://github.example/windows"; asset_size := 4 |};
         {| asset_name := "mod-manager-linux-x64";
            browser_download_url := "https://github.example/linux"; asset_size := 4 |} ] |}.

Definition linuxHost (tag : string) (refuse : Syscall -> bool) : Host :=
  {| execPath := "/opt/mod-manager";
     os := "linux";
     arch := "x86_64";
     args := ["--sync"];
     latestRelease := FeedRelease (releaseOf tag);
     download := fun _ => Http true (Some {| received := [x7f; x45; x4c; x46]; complete := true |});
     denied := refuse;
     childStatus := 0 |}.

Definition installed : FS := {["/opt/mod-manager" := RegularFile [x01; x02]]}.

(** The platform refuses every rename onto the executable's path. *)
Definition refuseRenameOnto (target : string) (c : Syscall) : bool :=
  match c with
  | SysRename _ dst => String.eqb dst target
  | _ => false
  end.

(** The condition the swap must never hide: the executable has been moved
    to the backup path and nothing stands at its own path. *)
Definition rollbackFailed (h : Host) (o : Res unit * FS * list Event) : Prop :=
  In (Rename (execPath h) (oldPathOf h)) (trace o)
  /\ final o !! execPath h = None
  /\ is_Some (final o !! oldPathOf h).

(** An entry with a direct download address. *)
Definition directMod (nm u file : string) : ModConfig :=
  {| name := nm; version := None; source := Some Url; projectId := None;
     downloadUrl := Some u; fileName := Some file |}.

(** The first bytes of a jar, and of an error page. *)
Definition jarBytes : list byte := [x50; x4b; x03; x04; x14; x00].
Definition pageBytes : list byte := [x3c; x68; x74; x6d; x6c; x3e].

(** A host that answers every request with the given bytes. *)
Definition constantHost (data : list byte) : Registry :=
  {| search := fun _ _ _ => Some [];
     versions := fun _ => None;
     fetch := fun _ => Http true (Some {| received := data; complete := true |}) |}.

(** The messages by the part of the pass that prints them. *)
Definition isPruningMsg (m : Msg) : bool :=
  match m with
  | PruneActive | SafeMode | RemovingUnlisted _ => true
  | _ => false
  end.

Definition isResolvingMsg (m : Msg) : bool :=
  match m with
  | SearchingProject _ | ProjectFound _ _ | MaybeIncompatible _
  | SpecificVersionFound _ | SearchingLatest _ | LatestFound _
  | CurseForgeNeedsSetup _ => true
  | _ => false
  end.

Definition isInstallingMsg (m : Msg) : bool :=
  match m with
  | RemovingOldVersion _ | CouldNotRemove _ _ | Downloading _ _ => true
  | _ => false
  end.

Definition isOutcomeMsg (m : Msg) : bool :=
  match m with
  | Verified _ _ | Installed _ | ErrorProcessing _ _ => true
  | _ => false
  end.

(** The message that closes the processing of one entry. *)
Definition isOutcome (e : Event) : bool :=
  match e with
  | Log m => isOutcomeMsg m
  | _ => false
  end.

Definition outcomes (t : list Event) : list Event := List.filter isOutcome t.

(** The outcome [e] belongs to the entry [m]. *)
Definition outcomeOf (m : ModConfig) (e : Event) : Prop :=
  (exists shown, e = Log (Verified (name m) shown))
  \/ (exists file, e = Log (Installed file))
  \/ (exists err, e = Log (ErrorProcessing (name m) err)).

(** The events of the registry resolver. *)
Definition queryEvent (e : Event) : Prop :=
  match e with
  | Log m => isResolvingMsg m = true
  | SearchRequest _ | VersionsRequest _ => True
  | _ => False
  end.

(** The events of a download to the path [x]. *)
Definition downloadEvent (x : string) (e : Event) : Prop :=
  match e with
  | Fetch _ => True
  | Create p | Write p _ => p = x
  | _ => False
  end.

(** The events of the processing of the entry [m] before its outcome:
    removals hit files of the listing whose base name starts with the
    entry's name. *)
Definition stepEvent (m : ModConfig) (currentMods : list string) (e : Event) : Prop :=
  match e with
  | Log msg => isResolvingMsg msg = true \/ isInstallingMsg msg = true
  | SearchRequest _ | VersionsRequest _ | Fetch _ | Create _ | Write _ _ => True
  | Remove p =>
      In p currentMods
      /\ Js.startsWith (extractModBaseName p) (normalizedName m) = true
  | _ => False
  end.

Definition entryEvent (m : ModConfig) (currentMods : list string) (e : Event) : Prop :=
  stepEvent m currentMods e \/ isOutcome e = true.

(** The events of the pruning block: removals hit unlisted files of the
    listing. *)
Definition pruneEvent (cfg : ModpackConfig) (currentMods : list string) (e : Event) : Prop :=
  match e with
  | Log m => isPruningMsg m = true
  | Remove p => In p currentMods /\ isUnlisted cfg p = true
  | _ => False
  end.

(** A deletion of the pruning pass, and an action of the processing of an
    entry, as they can be told apart in a trace of [syncMods]: the pruning
    pass removes unlisted files, entries remove listed ones. *)
Definition isPruneRemoval (cfg : ModpackConfig) (e : Event) : bool :=
  match e with
  | Log (RemovingUnlisted _) => true
  | Remove p => isUnlisted cfg p
  | _ => false
  end.

Definition isEntryAction (cfg : ModpackConfig) (e : Event) : bool :=
  match e with
  | Log m => isResolvingMsg m || isInstallingMsg m || isOutcomeMsg m
  | SearchRequest _ | VersionsRequest _ | Fetch _ | Create _ | Write _ _ => true
  | Remove p => negb (isUnlisted cfg p)
  | _ => false
  end.

(** The order the specification states: every deletion of the pruning
    pass comes after every action on an entry. *)
Definition pruneAfterEntries (cfg : ModpackConfig) (t : list Event) : Prop :=
  forall i j e1 e2,
    t !! i = Some e1 -> t !! j = Some e2 ->
    isPruneRemoval cfg e1 = true -> isEntryAction cfg e2 = true -> (j < i)%nat.

(** The order of the code: every deletion of the pruning pass comes before
    every action on an entry. *)
Definition pruneBeforeEntries (cfg : ModpackConfig) (t : list Event) : Prop :=
  forall i j e1 e2,
    t !! i = Some e1 -> t !! j = Some e2 ->
    isPruneRemoval cfg e1 = true -> isEntryAction cfg e2 = true -> (i < j)%nat.

(** The scenario of the specification: the entry Sodium, found by name,
    whose first compatible version is 0.5.8; the directory holds the older
    jar, an unrelated jar and a text file. *)
Definition sodium : ModConfig :=
  {| name := "Sodium"; version := None; source := Some Modrinth;
     projectId := None; downloadUrl := None; fileName := None |}.

Definition sodiumRegistry : Registry :=
  {| search := fun q _ _ =>
       if String.eqb q "Sodium"
       then Some [ {| title := "Sodium"; slug := "sodium"; project_id := "AANobbMI";
                      categories := ["fabric"] |} ]
       else Some [];
     versions := fun pid =>
       if String.eqb pid "AANobbMI"
       then Some [ {| game_versions := ["1.20.1"]; loaders := ["fabric"];
                      version_number := "0.5.8";
                      files := [ {| url := "https://cdn.example/sodium-0.5.8";
                                    filename := "sodium-fabric-0.5.8+mc1.20.1.jar" |} ] |} ]
       else None;
     fetch := fun _ => Http true (Some {| received := jarBytes; complete := true |}) |}.

Definition sodiumDirectory : FS :=
  <["notes.txt" := RegularFile [x68; x69]]>
    (<["other.jar" := RegularFile jarBytes]>
       {["sodium-fabric-0.5.7.jar" := RegularFile jarBytes]}).

(** [m] stops with an error after events of [S] only, or returns after
    events of [S] followed by one event of [O]; it never terminates the
    process. *)
Definition ends {A} (S O : Event -> Prop) (m : M A) : Prop :=
  forall fs,
    match result (m fs) with
    | Val _ => exists pre e, trace (m fs) = pre ++ [e] /\ Forall S pre /\ O e
    | Throw _ => Forall S (trace (m fs))
    | Exit _ => False
    end.

(** The outcome of an entry that did not fail. *)
Definition successOf (m : ModConfig) (e : Event) : Prop :=
  (exists shown, e = Log (Verified (name m) shown)) \/ (exists file, e = Log (Installed file)).

(** The events of a whole pass over the listing [currentMods]. *)
Definition syncEvent (cfg : ModpackConfig) (currentMods : list string) (e : Event) : Prop :=
  (exists n, e = Log (CurrentMods n) \/ e = Log (RequiredMods n))
  \/ pruneEvent cfg currentMods e
  \/ (exists m, In m (mods cfg) /\ entryEvent m currentMods e).

(** A manifest with three entries: an unknown registry identifier, Sodium,
    and a direct download. *)
Definition unknownMod : ModConfig :=
  {| name := "Lithium"; version := None; source := Some Modrinth;
     projectId := Some "no-such-project"; downloadUrl := None; fileName := None |}.

Definition threeEntries : list ModConfig :=
  [unknownMod; sodium; directMod "Custom Mod" "https://example.com/mod.jar" "custom-mod-1.0.0.jar"].

(** What the resolver answers for an entry; it does not depend on the
    directory. *)
Definition targetOf (reg : Registry) (cfg : ModpackConfig) (m : ModConfig) : option Target :=
  match result (resolveTarget reg cfg m ∅) with
  | Val t => Some t
  | _ => None
  end.

(** The directory without the names of [l]. *)
Definition removeAll (l : list string) (fs : FS) : FS :=
  fold_left (fun f p => delete p f) l fs.

(** The key of the file an entry resolves to. *)
Definition targetEntry (t : Target) : string := Path.key (expectedFileName t).

(** The download branch of [processModDownload], for a resolved entry. *)
Definition installTarget (reg : Registry) (m : ModConfig) (t : Target) : M unit :=
  log (Downloading (name m) (versionDisplay t)) ;;
  downloadFile reg (targetUrl t) (targetEntry t) ;;
  validateJarFile (targetEntry t) ;;
  log (Installed (expectedFileName t)).

(** The message of a verified entry. *)
Definition verifiedMsg (m : ModConfig) (t : Target) : Msg :=
  Verified (name m)
    (if Js.truthy (version m) then Js.orElse (version m) "" else versionDisplay t).

(** The test of step 3 of [processModDownload] as a function of the
    directory. *)
Definition keeps (fs : FS) (x : string) : bool :=
  match fs !! x with
  | Some n => (0 <? nodeSize n)%nat
  | None => false
  end.

(** The events of a download or of a deletion. *)
Definition isMutation (e : Event) : bool :=
  match e with
  | Fetch _ | Create _ | Write _ _ | Remove _ | Rename _ _ => true
  | _ => false
  end.

(** The logged failure of an entry. *)
Definition isFailure (e : Event) : bool :=
  match e with
  | Log (ErrorProcessing _ _) => true
  | _ => false
  end.

(** An entry of the manifest resolves to the file name [f]. *)
Definition resolvesTo (reg : Registry) (cfg : ModpackConfig) (f : string) : Prop :=
  exists m t, In m (mods cfg) /\ targetOf reg cfg m = Some t /\ expectedFileName t = f.

(** An entry of the manifest resolves to a file name that denotes the
    entry [f] of the directory. *)
Definition writesTo (reg : Registry) (cfg : ModpackConfig) (f : string) : Prop :=
  exists m t, In m (mods cfg) /\ targetOf reg cfg m = Some t /\ targetEntry t = f.

(** Every resolved file name denotes an entry of the mods directory. *)
Definition targetsInDirectory (reg : Registry) (cfg : ModpackConfig) : Prop :=
  forall m t, In m (mods cfg) -> targetOf reg cfg m = Some t ->
    Path.entryOf (expectedFileName t) <> None.

(** Every resolved file name is the name of the entry it denotes: it
    holds no separator. *)
Definition plainTargets (reg : Registry) (cfg : ModpackConfig) : Prop :=
  forall m t, In m (mods cfg) -> targetOf reg cfg m = Some t ->
    Path.entryOf (expectedFileName t) = Some (expectedFileName t).

(** The host answers the address with a complete body that begins with
    the jar signature. *)
Definition servesJar (reg : Registry) (u : string) : Prop :=
  exists b, fetchUrl reg u = Http true (Some b) /\ complete b = true
            /\ firstn 4 (received b) = jarSignature.

(** The processing of an entry returned after logging the error [e] under
    the entry's name. *)
Definition endsWithError (m : ModConfig) (e : Error) (o : Res unit * FS * list Event) : Prop :=
  result o = Val tt /\ last (trace o) = Some (Log (ErrorProcessing (name m) e)).

(** The processing of an entry returned after the message that the file
    is verified or installed, and the file is there with a size above
    zero. *)
Definition endsInPlace (m : ModConfig) (t : Target) (o : Res unit * FS * list Event) : Prop :=
  result o = Val tt
  /\ (last (trace o) = Some (Log (verifiedMsg m t))
      \/ last (trace o) = Some (Log (Installed (expectedFileName t))))
  /\ nonEmpty (final o !! targetEntry t).

(** No entry of [ms] counts the file [f] among the other variants of its
    mod. *)
Definition notAVariant (reg : Registry) (cfg : ModpackConfig) (ms : list ModConfig)
    (cur : list string) (f : string) : Prop :=
  forall m t, In m ms -> targetOf reg cfg m = Some t ->
    ~ In f (duplicates m (expectedFileName t) cur).

(** A pass that downloads nothing and deletes nothing. *)
Definition quietPass (t : list Event) : Prop :=
  Forall (fun e => isMutation e = false) t.

(** The second of two passes in a row performs no download and no
    deletion. *)
Definition secondPassIsQuiet (reg : Registry) (cfg : ModpackConfig) (fs : FS) : Prop :=
  quietPass (trace (syncMods reg cfg (final (syncMods reg cfg fs)))).

(** No entry failed in the trace. *)
Definition noFailure (t : list Event) : Prop :=
  Forall (fun e => isFailure e = false) t.

(** A resolved file whose base name starts with the name of an entry is
    the file of that entry. *)
Definition ownFiles (reg : Registry) (cfg : ModpackConfig) : Prop :=
  forall m m' t,
    In m (mods cfg) -> In m' (mods cfg) ->
    targetOf reg cfg m = Some t ->
    Js.startsWith (extractModBaseName (expectedFileName t)) (normalizedName m') = true ->
    exists t', targetOf reg cfg m' = Some t' /\ expectedFileName t' = expectedFileName t.

(** Under pruning, the base name of every resolved file contains the name
    of some entry. *)
Definition listedFiles (reg : Registry) (cfg : ModpackConfig) : Prop :=
  pruneEnabled cfg = true ->
  forall m t, In m (mods cfg) -> targetOf reg cfg m = Some t ->
    isUnlisted cfg (expectedFileName t) = false.

(** The directory holds what the manifest asks for and nothing the pass
    would remove. *)
Definition converged (reg : Registry) (cfg : ModpackConfig) (fs : FS) : Prop :=
  (forall m, In m (mods cfg) ->
     exists t, targetOf reg cfg m = Some t /\ nonEmpty (fs !! expectedFileName t))
  /\ (forall m t, In m (mods cfg) -> targetOf reg cfg m = Some t ->
        duplicates m (expectedFileName t) (listing fs) = [])
  /\ (pruneEnabled cfg = true -> forall f, In f (listing fs) -> isUnlisted cfg f = false).

(** What holds in the download loop after the entries [processed], on the
    listing [cur] and from the pruned directory [pruned]: the files of the
    processed entries are in place, and every entry of the directory is a
    resolved file or an entry of the pruned directory that no processed entry
    counts among its other variants. *)
Definition loopInvariant (reg : Registry) (cfg : ModpackConfig) (cur : list string)
    (pruned : FS) (processed : list ModConfig) (fs : FS) : Prop :=
  (forall m, In m processed ->
     exists t, targetOf reg cfg m = Some t /\ nonEmpty (fs !! expectedFileName t))
  /\ (forall f, is_Some (fs !! f) ->
        resolvesTo reg cfg f
        \/ (fs !! f = pruned !! f
            /\ forall m t, In m processed -> targetOf reg cfg m = Some t ->
                 ~ In f (duplicates m (expectedFileName t) cur))).

(** A manifest whose entry is named otherwise than its file, and one with
    two entries of which one name starts with the other. *)
Definition modMenu : ModConfig :=
  directMod "Mod Menu" "https://example.com/modmenu.jar" "modmenu-7.2.2.jar".

Definition sodiumAndExtra : list ModConfig :=
  [directMod "Sodium" "https://example.com/sodium.jar" "sodium-0.5.8.jar";
   directMod "Sodium Extra" "https://example.com/extra.jar" "sodium-extra-0.5.4.jar"].

(** ** Start-up: the manifest, its external source and the entry point

    The working directory holds the manifest [tn.mods.json] and the mods
    directory.  The manifest is represented by what [JSON.parse] makes of its
    text: nothing for a text that is not JSON, or the object with the fields
    the program reads.  [modLoader] and [gameVersion] are taken to be strings;
    [mods] may be missing.  [this.config] is passed as a value: [loadConfig]
    and [processExternalSource] return the configuration they leave in it. *)

(** [externalSrc]. *)
Record ExternalSrc := {
  src_type : string;
  src_url : option string;
  src_repo : option string;
  src_branch : option string;
  src_file : option string
}.

(** The object parsed from the manifest. *)
Record LocalConfig := {
  local_modLoader : string;
  local_gameVersion : string;
  local_prune : option bool;
  local_mods : option (list ModConfig);
  local_externalSrc : option ExternalSrc
}.

(** The object parsed from the answer of the external source: every field
    may be missing; [ext_prune] is [Some None] for a [null]; [ext_mods] is
    [None] for a missing or falsy [mods]. *)
Record ExternalConfig := {
  ext_modLoader : option string;
  ext_gameVersion : option string;
  ext_prune : option (option bool);
  ext_mods : option (list ModConfig)
}.

(** The answer to [fetch(configUrl)]: a rejected promise, or a response
    with its [ok] flag and what [response.json()] gives ([None] when it
    throws). *)
Inductive ConfigResponse :=
| ConfigUnreachable
| ConfigHttp (ok : bool) (json : option ExternalConfig).

Inductive ConfigFile :=
| NoConfigFile
| ConfigText (parsed : option LocalConfig).

(** The working directory: the manifest and the mods directory, which may
    not exist. *)
Record Disk := {
  configFile : ConfigFile;
  modsDir : option FS
}.

Inductive BootError :=
| ConfigNotFound
| ConfigSyntaxError
| ConfigTypeError
| GithubRequiresRepo
| DirectRequiresUrl
| UnsupportedExternalType (type : string)
| ConfigFetchFailed
| ConfigHttpError
| ConfigNotJson
| ExternalWithoutMods
| ModsDirMissing
| SyncError (e : Error).

Inductive BootMsg :=
| Starting
| ExternalDetected (type : string)
| DownloadingConfig (configUrl : string)
| ExternalApplied
| ExternalError (e : BootError)
| UsingLocal
| ConfigLoaded (loader game : string)
| ModsConfigured (n : nat)
| CreatingExample
| EditAndRerun
| ModsDirCreated
| SyncCompleted
| Fatal (e : BootError).

Inductive BootEvent :=
| BootLog (m : BootMsg)
| ConfigRequest (configUrl : string)
| WriteConfig (c : LocalConfig)
| Mkdir
| Sync (e : Event).

Inductive BootRes (A : Type) :=
| BootVal (a : A)
| BootThrow (e : BootError)
| BootExit (code : Z).
Arguments BootVal {A} a.
Arguments BootThrow {A} e.
Arguments BootExit {A} code.

(** Computations over the working directory. *)
Definition B (A : Type) : Type := Disk -> BootRes A * Disk * list BootEvent.

Definition bootResult {A} (o : BootRes A * Disk * list BootEvent) : BootRes A := o.1.1.
Definition bootFinal {A} (o : BootRes A * Disk * list BootEvent) : Disk := o.1.2.
Definition bootTrace {A} (o : BootRes A * Disk * list BootEvent) : list BootEvent := o.2.

Definition bootRet {A} (a : A) : B A := fun d => (BootVal a, d, []).

Definition bootThrow {A} (e : BootError) : B A := fun d => (BootThrow e, d, []).

Definition bootExit {A} (code : Z) : B A := fun d => (BootExit code, d, []).

Definition bootBind {A C} (m : B A) (k : A -> B C) : B C :=
  fun d =>
    match m d with
    | (BootVal a, d1, t1) =>
        match k a d1 with
        | (r, d2, t2) => (r, d2, t1 ++ t2)
        end
    | (BootThrow e, d1, t1) => (BootThrow e, d1, t1)
    | (BootExit c, d1, t1) => (BootExit c, d1, t1)
    end.

Definition bootCatch {A} (m : B A) (h : BootError -> B A) : B A :=
  fun d =>
    match m d with
    | (BootThrow e, d1, t1) =>
        match h e d1 with
        | (r, d2, t2) => (r, d2, t1 ++ t2)
        end
    | o => o
    end.

Definition bootEmit (e : BootEvent) : B unit := fun d => (BootVal tt, d, [e]).

Definition bootLog (m : BootMsg) : B unit := bootEmit (BootLog m).

Declare Scope boot_scope.
Delimit Scope boot_scope with boot.
Notation "x <- c1 ;; c2" := (bootBind c1 (fun x => c2))
  (at level 100, c1 at next level, right associativity) : boot_scope.
Notation "c1 ;; c2" := (bootBind c1 (fun _ => c2))
  (at level 100, right associativity) : boot_scope.

(** [Deno.readTextFile(this.configFile)] followed by [JSON.parse]. *)
Definition readConfig : B LocalConfig :=
  fun d =>
    match configFile d with
    | NoConfigFile => (BootThrow ConfigNotFound, d, [])
    | ConfigText None => (BootThrow ConfigSyntaxError, d, [])
    | ConfigText (Some c) => (BootVal c, d, [])
    end.

(** [{ ...this.config, ...externalConfig, externalSrc: this.config.externalSrc }]:
    the fields of the external object replace those of the manifest, except
    the external source itself. *)
Definition mergeExternal (c : LocalConfig) (x : ExternalConfig) : LocalConfig :=
  {| local_modLoader := default (local_modLoader c) (ext_modLoader x);
     local_gameVersion := default (local_gameVersion c) (ext_gameVersion x);
     local_prune := default (local_prune c) (ext_prune x);
     local_mods := match ext_mods x with Some ms => Some ms | None => local_mods c end;
     local_externalSrc := local_externalSrc c |}.

(** The address of the external manifest. *)
Definition externalUrl (src : ExternalSrc) : B string :=
  let branch := default "main" (src_branch src) in
  let file := default "tn.mods.json" (src_file src) in
  if String.eqb (src_type src) "github" then
    if negb (Js.truthy (src_repo src)) then bootThrow GithubRequiresRepo
    else bootRet ("https://raw.githubusercontent.com/" +:+ Js.orElse (src_repo src) ""
                    +:+ "/" +:+ branch +:+ "/" +:+ file)
  else if String.eqb (src_type src) "direct" then
    if negb (Js.truthy (src_url src)) then bootThrow DirectRequiresUrl
    else bootRet (Js.orElse (src_url src) "")
  else bootThrow (UnsupportedExternalType (src_type src)).

(** [processExternalSource]. *)
Definition processExternalSource (net : string -> ConfigResponse)
    (c : LocalConfig) (src : ExternalSrc) : B LocalConfig :=
  (bootLog (ExternalDetected (src_type src)) ;;
   configUrl <- externalUrl src ;;
   bootCatch
     (bootLog (DownloadingConfig configUrl) ;;
      bootEmit (ConfigRequest configUrl) ;;
      match net configUrl with
      | ConfigUnreachable => bootThrow ConfigFetchFailed
      | ConfigHttp ok json =>
          if negb ok then bootThrow ConfigHttpError
          else
            match json with
            | None => bootThrow ConfigNotJson
            | Some externalConfig =>
                match ext_mods externalConfig with
                | None => bootThrow ExternalWithoutMods
                | Some _ =>
                    bootLog ExternalApplied ;;
                    bootRet (mergeExternal c externalConfig)
                end
            end
      end)
     (fun error =>
        bootLog (ExternalError error) ;;
        bootLog UsingLocal ;;
        bootRet c))%boot.

(** The example manifest of [createExampleConfig]. *)
Definition exampleConfig : LocalConfig :=
  {| local_modLoader := "fabric";
     local_gameVersion := "1.20.1";
     local_prune := None;
     local_mods := Some
       [ {| name := "Fabric API"; version := None; source := Some Modrinth;
            projectId := Some "P7dR8mSH"; downloadUrl := None; fileName := None |};
         {| name := "JEI"; version := Some "15.2.0.27"; source := Some Modrinth;
            projectId := Some "u6dRKJwZ"; downloadUrl := None; fileName := None |};
         {| name := "Sodium"; version := None; source := Some Modrinth;
            projectId := None; downloadUrl := None; fileName := None |};
         {| name := "Custom Mod"; version := Some "1.0.0"; source := Some Url;
            projectId := None; downloadUrl := Some "https://example.com/mod.jar";
            fileName := Some "custom-mod-1.0.0.jar" |} ];
     local_externalSrc := None |}.

(** [createExampleConfig]. *)
Definition createExampleConfig : B unit :=
  fun d =>
    (BootVal tt,
     {| configFile := ConfigText (Some exampleConfig); modsDir := modsDir d |},
     [WriteConfig exampleConfig]).

(** [loadConfig]. *)
Definition loadConfig (net : string -> ConfigResponse) : B LocalConfig :=
  (bootCatch
     (parsed <- readConfig ;;
      c <- match local_externalSrc parsed with
           | Some src => processExternalSource net parsed src
           | None => bootRet parsed
           end ;;
      bootLog (ConfigLoaded (local_modLoader c) (local_gameVersion c)) ;;
      match local_mods c with
      | None => bootThrow ConfigTypeError
      | Some ms => bootLog (ModsConfigured (length ms)) ;; bootRet c
      end)
     (fun error =>
        match error with
        | ConfigNotFound =>
            bootLog CreatingExample ;;
            createExampleConfig ;;
            bootLog EditAndRerun ;;
            bootExit 0
        | _ => bootThrow error
        end))%boot.

(** [ensureModsDirectory]. *)
Definition ensureModsDirectory : B unit :=
  fun d =>
    match modsDir d with
    | Some _ => (BootVal tt, d, [])
    | None =>
        (BootVal tt, {| configFile := configFile d; modsDir := Some ∅ |},
         [Mkdir; BootLog ModsDirCreated])
    end.

(** The configuration [syncMods] reads from [this.config]. *)
Definition modpackOf (c : LocalConfig) : ModpackConfig :=
  {| modLoader := local_modLoader c;
     gameVersion := local_gameVersion c;
     prune := local_prune c;
     mods := default [] (local_mods c) |}.

(** A computation on the mods directory, run in the working directory.
    [init] runs [syncMods] after [ensureModsDirectory]: the branch of the
    missing directory is not reached. *)
Definition inModsDir (m : M unit) : B unit :=
  fun d =>
    match modsDir d with
    | None => (BootThrow ModsDirMissing, d, [])
    | Some fs =>
        match m fs with
        | (r, fs', t) =>
            (match r with
             | Val a => BootVal a
             | Throw e => BootThrow (SyncError e)
             | Exit c => BootExit c
             end,
             {| configFile := configFile d; modsDir := Some fs' |},
             map Sync t)
        end
    end.

(** [init]. *)
Definition init (reg : Registry) (net : string -> ConfigResponse) : B unit :=
  (bootLog Starting ;;
   bootCatch
     (c <- loadConfig net ;;
      ensureModsDirectory ;;
      inModsDir (syncMods reg (modpackOf c)) ;;
      bootLog SyncCompleted)
     (fun error =>
        bootLog (Fatal error) ;;
        bootExit 1))%boot.

(** ** The entry point *)

(** The installation directory of the executable and the working
    directory. *)
Record World := {
  installation : FS;
  workdir : Disk
}.

Inductive MainError :=
| UpdateFailure (e : Error)
| BootFailure (e : BootError).

Inductive MainEvent :=
| Update (e : Event)
| Boot (e : BootEvent)
| PressEnter
| ErrorLogged (e : MainError).

(** How the process ends: [main] returns after the key press, the process
    is terminated with an exit code, or the promise of [main] is rejected and
    the [catch] attached to it logs the error. *)
Inductive Ending :=
| Completed
| Terminated (code : Z)
| Rejected.

(** [main], with the [catch] attached to its call. *)
Definition main (sv : SemverLib) (h : Host) (reg : Registry)
    (net : string -> ConfigResponse) (w : World) : Ending * World * list MainEvent :=
  match check sv h (installation w) with
  | (Exit code, fs', t) =>
      (Terminated code, {| installation := fs'; workdir := workdir w |}, map Update t)
  | (Throw e, fs', t) =>
      (Rejected, {| installation := fs'; workdir := workdir w |},
       map Update t ++ [ErrorLogged (UpdateFailure e)])
  | (Val _, fs', t) =>
      match init reg net (workdir w) with
      | (BootExit code, d', t') =>
          (Terminated code, {| installation := fs'; workdir := d' |},
           map Update t ++ map Boot t')
      | (BootThrow e, d', t') =>
          (Rejected, {| installation := fs'; workdir := d' |},
           map Update t ++ map Boot t' ++ [ErrorLogged (BootFailure e)])
      | (BootVal _, d', t') =>
          (Completed, {| installation := fs'; workdir := d' |},
           map Update t ++ map Boot t' ++ [PressEnter])
      end
  end.

(** ** Vocabulary of the further properties *)

(** The two tests of [searchModrinthProject] on a hit. *)
Definition exactHit (modName : string) (hit : SearchResult) : bool :=
  String.eqb (Js.toLowerCase (title hit)) (Js.toLowerCase modName)
  || String.eqb (Js.toLowerCase (slug hit)) (Js.toLowerCase modName).

Definition similarHit (modName : string) (hit : SearchResult) : bool :=
  Js.includes (Js.toLowerCase (title hit)) (Js.toLowerCase modName)
  || Js.includes (Js.toLowerCase modName) (Js.toLowerCase (title hit)).

(** A registry whose search answers the given hits and nothing else. *)
Definition searchOnly (hits : list SearchResult) : Registry :=
  {| search := fun _ _ _ => Some hits;
     versions := fun _ => None;
     fetch := fun _ => NoResponse |}.

Definition hit (ttl slg pid : string) : SearchResult :=
  {| title := ttl; slug := slg; project_id := pid; categories := ["fabric"] |}.

(** A registry with one project whose versions are given. *)
Definition versionsOnly (pid : string) (vs : list Version) : Registry :=
  {| search := fun _ _ _ => Some [];
     versions := fun p => if String.eqb p pid then Some vs else None;
     fetch := fun _ => NoResponse |}.

Definition release (label game loader file : string) : Version :=
  {| game_versions := [game]; loaders := [loader]; version_number := label;
     files := [ {| url := "https://cdn.example/" +:+ file; filename := file |} ] |}.

Definition unpinnedMod (nm pid : string) : ModConfig :=
  {| name := nm; version := None; source := Some Modrinth;
     projectId := Some pid; downloadUrl := None; fileName := None |}.

(** The requests to the registry. *)
Definition isRegistryRequest (e : Event) : bool :=
  match e with
  | SearchRequest _ | VersionsRequest _ => true
  | _ => false
  end.

(** The requests of any kind. *)
Definition isRequest (e : Event) : bool :=
  match e with
  | SearchRequest _ | VersionsRequest _ | ReleaseRequest | Fetch _ => true
  | _ => false
  end.

(** The events of an entry that is not resolved through the registry: no
    registry request, and no download from another address than the
    entry's own. *)
Definition directEvent (m : ModConfig) (e : Event) : Prop :=
  match e with
  | SearchRequest _ | VersionsRequest _ => False
  | Fetch u => u = Js.orElse (downloadUrl m) ""
  | _ => True
  end.

Definition curseMod (nm : string) : ModConfig :=
  {| name := nm; version := None; source := Some Curseforge; projectId := None;
     downloadUrl := Some "https://example.com/mod.jar"; fileName := None |}.

(** The address [downloadMod] downloads from. *)
Definition downloadModUrl (reg : Registry) (cfg : ModpackConfig) (m : ModConfig) : M string :=
  match source m with
  | Some Modrinth =>
      info <- getModrinthDownloadUrl reg cfg m true ;; ret (info_url info)
  | Some Curseforge => getCurseForgeDownloadUrl m
  | Some Url =>
      match downloadUrl m with
      | Some u => ret u
      | None => throw (TypeError "downloadUrl is undefined")
      end
  | None => throw (UnsupportedSource (name m))
  end.

(** The [try] block of [downloadMod]. *)
Definition downloadModBody (reg : Registry) (cfg : ModpackConfig) (m : ModConfig)
    (filePath : string) : M unit :=
  u <- downloadModUrl reg cfg m ;;
  downloadFile reg u filePath ;;
  validateJarFile filePath ;;
  log (Downloaded (name m)).

(** From a directory that satisfies [P], [m] ends in one that satisfies
    [Q], however it ends. *)
Definition leads {A} (P : FS -> Prop) (m : M A) (Q : FS -> Prop) : Prop :=
  forall fs, P fs -> Q (final (m fs)).

(** The binary [n] is the running executable; it is the executable or its
    backup. *)
Definition atExec (h : Host) (n : Node) (fs : FS) : Prop :=
  fs !! execPath h = Some n.

Definition notLost (h : Host) (n : Node) (fs : FS) : Prop :=
  fs !! execPath h = Some n \/ fs !! oldPathOf h = Some n.

(** A platform that refuses nothing. *)
Definition permissive (h : Host) : Prop := forall c, denied h c = false.

(** What the download stage of [performUpdate] leaves in the temporary
    file when nothing was there: the bytes received, or nothing for an answer
    without a body. *)
Definition staged (body : option Body) : list byte :=
  match body with
  | Some b => received b
  | None => []
  end.

(** What an earlier, interrupted update left in the temporary file. *)
Definition leftover (h : Host) (fs : FS) : list byte :=
  match fs !! tempPathOf h with
  | Some (RegularFile c) => c
  | _ => []
  end.

(** A development installation: the executable is the runtime itself. *)
Definition devHost (tag : string) : Host :=
  {| execPath := "/usr/bin/deno";
     os := "linux";
     arch := "x86_64";
     args := ["run"; "main.ts"];
     latestRelease := FeedRelease (releaseOf tag);
     download := fun _ => Http true (Some {| received := [x7f; x45; x4c; x46]; complete := true |});
     denied := fun _ => false;
     childStatus := 0 |}.

(** The three platforms for which a release holds an asset. *)
Definition supportedPlatform (h : Host) : Prop :=
  (os h = "windows" /\ arch h = "x86_64")
  \/ (os h = "linux" /\ arch h = "x86_64")
  \/ (os h = "darwin" /\ arch h = "aarch64").

(** The events of start-up that reach outside the manifest: a request for
    the external manifest, the creation of the mods directory, and the events
    of the synchronisation pass. *)
Definition isBootAction (e : BootEvent) : bool :=
  match e with
  | ConfigRequest _ | Mkdir | Sync _ => true
  | _ => false
  end.

(** The external source is one of the two kinds, with the field the kind
    requires. *)
Definition wellFormedSource (src : ExternalSrc) : bool :=
  (String.eqb (src_type src) "github" && Js.truthy (src_repo src))
  || (String.eqb (src_type src) "direct" && Js.truthy (src_url src)).

(** The external manifest cannot be used: no answer, a status that is not
    ok, a body that is not JSON, or an object without [mods]. *)
Definition unusableAnswer (r : ConfigResponse) : bool :=
  match r with
  | ConfigUnreachable => true
  | ConfigHttp false _ => true
  | ConfigHttp true None => true
  | ConfigHttp true (Some x) => match ext_mods x with None => true | Some _ => false end
  end.

(** The address asked for a well-formed source. *)
Definition addressOf (src : ExternalSrc) : string :=
  if String.eqb (src_type src) "github"
  then "https://raw.githubusercontent.com/" +:+ Js.orElse (src_repo src) ""
         +:+ "/" +:+ default "main" (src_branch src)
         +:+ "/" +:+ default "tn.mods.json" (src_file src)
  else Js.orElse (src_url src) "".

(** A manifest with an external source on GitHub, and an external
    manifest. *)
Definition githubSource (repo : string) : ExternalSrc :=
  {| src_type := "github"; src_url := None; src_repo := Some repo;
     src_branch := None; src_file := None |}.

Definition localManifest (src : option ExternalSrc) (ms : option (list ModConfig)) : LocalConfig :=
  {| local_modLoader := "fabric"; local_gameVersion := "1.20.1"; local_prune := Some false;
     local_mods := ms; local_externalSrc := src |}.

Definition externalManifest (ms : list ModConfig) : ExternalConfig :=
  {| ext_modLoader := None; ext_gameVersion := Some "1.21"; ext_prune := None;
     ext_mods := Some ms |}.

Definition withManifest (c : LocalConfig) : Disk :=
  {| configFile := ConfigText (Some c); modsDir := None |}.

(** The events of [loadConfig] with a manifest in place: console output
    and the request for the external manifest. *)
Definition isLoadEvent (e : BootEvent) : bool :=
  match e with
  | BootLog _ | ConfigRequest _ => true
  | _ => false
  end.

Definition isBootLog (e : BootEvent) : bool :=
  match e with
  | BootLog _ => true
  | _ => false
  end.

Definition mainEnding (o : Ending * World * list MainEvent) : Ending := o.1.1.
Definition mainWorld (o : Ending * World * list MainEvent) : World := o.1.2.
Definition mainEvents (o : Ending * World * list MainEvent) : list MainEvent := o.2.

Definition isUpdaterEvent (e : MainEvent) : bool :=
  match e with
  | Update _ => true
  | _ => false
  end.

(** * Properties *)

(** ** Reasoning about computations *)

Lemma run_eta {A} (o : Res A * FS * list Event) : o = (result o, final o, trace o).
Proof. by destruct o as [[??]?]. Qed.

Section Combinators.
Context (R : FS -> list Event -> FS -> Kind -> Prop) `{!Composable R}.

Lemma sat_ret {A} (a : A) : sat R (ret a).
Proof. intros fs. by apply comp_nil. Qed.

Lemma sat_throw {A} (e : Error) : sat R (@throw A e).
Proof. intros fs. by apply comp_nil. Qed.

Lemma sat_bind {A B} (m : M A) (k : A -> M B) :
  sat R m -> (forall a, sat R (k a)) -> sat R (bind m k).
Proof.
  intros Hm Hk fs. specialize (Hm fs). unfold bind.
  destruct (m fs) as [[[a|e|c] fs1] t1]; cbn in *; try done.
  specialize (Hk a fs1). destruct (k a fs1) as [[r fs2] t2]; cbn in *.
  by eapply comp_app.
Qed.

Lemma sat_tryCatch {A} (m : M A) (h : Error -> M A) :
  sat R m -> (forall e, sat R (h e)) -> sat R (tryCatch m h).
Proof.
  intros Hm Hh fs. specialize (Hm fs). unfold tryCatch.
  destruct (m fs) as [[[a|e|c] fs1] t1]; cbn in *; try done.
  specialize (Hh e fs1). destruct (h e fs1) as [[r fs2] t2]; cbn in *.
  by eapply comp_app.
Qed.

Lemma sat_forEach {A} (xs : list A) (f : A -> M unit) :
  (forall x, In x xs -> sat R (f x)) -> sat R (forEach xs f).
Proof.
  induction xs as [|x xs IH]; intros Hf; cbn [forEach].
  - apply sat_ret.
  - apply sat_bind; [apply Hf; by left|]. intros _. apply IH.
    intros y Hy. apply Hf. by right.
Qed.

End Combinators.

#[global] Instance replays_composable : Composable replays.
Proof.
  split; unfold replays.
  - done.
  - intros a b c t1 t2 k1 k2 -> _ ->. unfold replay. by rewrite fold_left_app.
Qed.

#[global] Instance typed_composable (P : Event -> Prop) : Composable (typed P).
Proof.
  split; unfold typed.
  - intros; constructor.
  - intros a b c t1 t2 k1 k2 H1 _ H2. by apply Forall_app.
Qed.

#[global] Instance noExit_composable : Composable noExit.
Proof. split; unfold noExit; done. Qed.

Lemma typed_mono {A} (P Q : Event -> Prop) (m : M A) :
  (forall e, P e -> Q e) -> sat (typed P) m -> sat (typed Q) m.
Proof. intros HPQ Hm fs. eapply Forall_impl; [apply Hm | done]. Qed.

(** Running a sequence whose first part is known. *)
Lemma bind_val {A B} (m : M A) (k : A -> M B) (fs fs1 : FS) (a : A) (t1 : list Event) :
  m fs = (Val a, fs1, t1) ->
  bind m k fs = (result (k a fs1), final (k a fs1), t1 ++ trace (k a fs1)).
Proof. intros H. unfold bind. rewrite H. by destruct (k a fs1) as [[??]?]. Qed.

Lemma bind_throw {A B} (m : M A) (k : A -> M B) (fs fs1 : FS) (e : Error) (t1 : list Event) :
  m fs = (Throw e, fs1, t1) -> bind m k fs = (Throw e, fs1, t1).
Proof. intros H. unfold bind. by rewrite H. Qed.

Lemma bind_exit {A B} (m : M A) (k : A -> M B) (fs fs1 : FS) (c : Z) (t1 : list Event) :
  m fs = (Exit c, fs1, t1) -> bind m k fs = (Exit c, fs1, t1).
Proof. intros H. unfold bind. by rewrite H. Qed.

Lemma tryCatch_val {A} (m : M A) (h : Error -> M A) (fs fs1 : FS) (a : A) (t1 : list Event) :
  m fs = (Val a, fs1, t1) -> tryCatch m h fs = (Val a, fs1, t1).
Proof. intros H. unfold tryCatch. by rewrite H. Qed.

Lemma tryCatch_throw {A} (m : M A) (h : Error -> M A) (fs fs1 : FS) (e : Error) (t1 : list Event) :
  m fs = (Throw e, fs1, t1) ->
  tryCatch m h fs = (result (h e fs1), final (h e fs1), t1 ++ trace (h e fs1)).
Proof. intros H. unfold tryCatch. rewrite H. by destruct (h e fs1) as [[??]?]. Qed.

Lemma bind3_val {B} (m1 m2 m3 : M unit) (k : M B) (fs fs' : FS) (t : list Event) :
  (m1 ;; m2 ;; m3) fs = (Val tt, fs', t) ->
  (m1 ;; m2 ;; m3 ;; k) fs = (result (k fs'), final (k fs'), t ++ trace (k fs')).
Proof.
  unfold bind.
  destruct (m1 fs) as [[[[]|e|c] fs1] t1]; [|intros [=]..].
  destruct (m2 fs1) as [[[[]|e|c] fs2] t2]; [|intros [=]..].
  destruct (m3 fs2) as [[[[]|e|c] fs3] t3]; intros [= <- <-].
  destruct (k fs3) as [[r fs4] t4]; cbn. by rewrite !app_assoc.
Qed.

(** Computations that do not depend on the file system. *)
Lemma pure_ret {A} (a : A) : pureM (ret a).
Proof. by exists (Val a), []. Qed.

Lemma pure_throw {A} (e : Error) : pureM (@throw A e).
Proof. by exists (Throw e), []. Qed.

Lemma pure_emit (e : Event) : pureM (emit e).
Proof. by exists (Val tt), [e]. Qed.

Lemma pure_bind {A B} (m : M A) (k : A -> M B) :
  pureM m -> (forall a, pureM (k a)) -> pureM (bind m k).
Proof.
  intros (r & t & Hm) Hk. destruct r as [a|e|c].
  - destruct (Hk a) as (r2 & t2 & Hka). exists r2, (t ++ t2). intros fs.
    unfold bind. by rewrite Hm, Hka.
  - exists (Throw e), t. intros fs. unfold bind. by rewrite Hm.
  - exists (Exit c), t. intros fs. unfold bind. by rewrite Hm.
Qed.

Lemma pure_tryCatch {A} (m : M A) (h : Error -> M A) :
  pureM m -> (forall e, pureM (h e)) -> pureM (tryCatch m h).
Proof.
  intros (r & t & Hm) Hh. destruct r as [a|e|c].
  - exists (Val a), t. intros fs. unfold tryCatch. by rewrite Hm.
  - destruct (Hh e) as (r2 & t2 & Hhe). exists r2, (t ++ t2). intros fs.
    unfold tryCatch. by rewrite Hm, Hhe.
  - exists (Exit c), t. intros fs. unfold tryCatch. by rewrite Hm.
Qed.

Ltac pure_go :=
  repeat first
    [ progress intros
    | apply pure_ret
    | apply pure_throw
    | apply pure_emit
    | apply pure_bind
    | apply pure_tryCatch
    | progress case_match ].


(** ** Strings *)

Lemma append_cancel_l (s a b : string) : s +:+ a = s +:+ b -> a = b.
Proof. induction s as [|c s IH]; cbn; [done|]. intros [= H]. by apply IH. Qed.

Lemma append_self (s a : string) : s +:+ a = s -> a = "".
Proof. induction s as [|c s IH]; cbn; [done|]. intros [= H]. by apply IH. Qed.

Lemma oldPath_ne_exec (h : Host) : oldPathOf h <> execPath h.
Proof. unfold oldPathOf. intros H. by apply append_self in H. Qed.

Lemma tempPath_ne_exec (h : Host) : tempPathOf h <> execPath h.
Proof. unfold tempPathOf. intros H. by apply append_self in H. Qed.

Lemma tempPath_ne_old (h : Host) : tempPathOf h <> oldPathOf h.
Proof. unfold tempPathOf, oldPathOf. intros H. by apply append_cancel_l in H. Qed.

Lemma startsWith_refl (s : string) : Js.startsWith s s = true.
Proof. induction s as [|c s IH]; cbn; [done|]. rewrite Ascii.eqb_refl. exact IH. Qed.

Lemma startsWith_includes (s p : string) :
  Js.startsWith s p = true -> Js.includes s p = true.
Proof. destruct s; cbn; intros ->; reflexivity. Qed.

Lemma endsWith_refl (s : string) : Js.endsWith s s = true.
Proof. destruct s as [|c s]; [reflexivity|]. cbn [Js.endsWith]. by rewrite String.eqb_refl. Qed.

(** ** The artifact validator *)

Lemma byte_eqb_true (a b : byte) : Byte.eqb a b = true <-> a = b.
Proof. split; [apply byte_dec_bl | apply byte_dec_lb]. Qed.

Lemma hasJarSignature_spec (buffer : list byte) :
  hasJarSignature buffer = true <-> buffer = jarSignature.
Proof.
  unfold hasJarSignature, jarSignature.
  destruct buffer as [|b0 [|b1 [|b2 [|b3 [|b4 rest]]]]]; try (split; [discriminate | congruence]).
  rewrite !andb_true_iff, !byte_eqb_true. split.
  - intros [[[-> ->] ->] ->]; reflexivity.
  - intros [= -> -> -> ->]; auto.
Qed.

(** The zero padding of the buffer never completes a signature: a file
    shorter than four bytes is rejected. *)
Lemma header_signature (content : list byte) :
  hasJarSignature (firstn 4 (content ++ [x00; x00; x00; x00])) = true
  <-> firstn 4 content = jarSignature.
Proof.
  destruct content as [|b0 [|b1 [|b2 [|b3 rest]]]]; cbn [firstn app].
  - split; [cbn; discriminate | discriminate].
  - split; [|discriminate]. cbn. rewrite !andb_false_r. discriminate.
  - split; [|discriminate]. cbn. rewrite !andb_false_r. discriminate.
  - split; [|discriminate]. cbn. rewrite !andb_false_r. discriminate.
  - apply hasJarSignature_spec.
Qed.

Lemma validateJarFile_run (filePath : string) (fs : FS) :
  validateJarFile filePath fs =
    (match fs !! filePath with
     | None => Throw (InvalidJar (NotFound filePath))
     | Some (Directory 0) => Throw (InvalidJar EmptyJar)
     | Some (Directory (S _)) => Throw (InvalidJar (IsADirectory filePath))
     | Some (RegularFile []) => Throw (InvalidJar EmptyJar)
     | Some (RegularFile content) =>
         if hasJarSignature (firstn 4 (content ++ [x00; x00; x00; x00]))
         then Val tt else Throw (InvalidJar NotAJar)
     end, fs, []).
Proof.
  unfold validateJarFile, tryCatch, bind, stat, readHeader, throw, ret.
  destruct (fs !! filePath) as [[[|b content]|[|n]]|] eqn:E;
    cbn -[hasJarSignature firstn app]; rewrite ?E;
    cbn -[hasJarSignature firstn app]; try reflexivity.
  destruct (hasJarSignature _); reflexivity.
Qed.

(** The validator changes nothing and emits nothing, whatever the path. *)
Lemma validateJarFile_no_mutation (filePath : string) (fs : FS) :
  final (validateJarFile filePath fs) = fs /\ trace (validateJarFile filePath fs) = [].
Proof. rewrite validateJarFile_run. split; reflexivity. Qed.

(** A path with no entry is rejected. *)
Lemma validateJarFile_missing (filePath : string) (fs : FS) :
  fs !! filePath = None ->
  result (validateJarFile filePath fs) = Throw (InvalidJar (NotFound filePath)).
Proof. intros H. rewrite validateJarFile_run, H. reflexivity. Qed.

(** C9.  Given the path of a file, [validateJarFile] fails if and only if
    the file is empty or its first four bytes are not 50 4B 03 04, it
    succeeds otherwise, and it performs no mutation: the directory after the
    call is the directory before it and no file-system event is emitted. *)
Theorem validateJarFile_contract (filePath : string) (fs : FS) (content : list byte) :
  fs !! filePath = Some (RegularFile content) ->
  ((exists e, result (validateJarFile filePath fs) = Throw e)
     <-> (content = [] \/ firstn 4 content <> jarSignature))
  /\ (result (validateJarFile filePath fs) = Val tt
     <-> (content <> [] /\ firstn 4 content = jarSignature))
  /\ final (validateJarFile filePath fs) = fs
  /\ trace (validateJarFile filePath fs) = [].
Proof.
  intros Hfile. rewrite validateJarFile_run, Hfile.
  destruct content as [|b content].
  - cbn [result final trace fst snd].
    split; [|split; [|split; reflexivity]].
    + split; [intros _; by left | intros _; eauto].
    + split; [intros [=] | intros [[] _]; reflexivity].
  - pose proof (header_signature (b :: content)) as Hsig.
    destruct (hasJarSignature _) eqn:Hh; cbn [result final trace fst snd].
    + assert (Hs : firstn 4 (b :: content) = jarSignature) by (by apply Hsig).
      split; [|split; [|split; reflexivity]].
      * split; [intros [e [=]] | intros [[=]|Hn]; by destruct Hn].
      * split; [intros _; split; [discriminate | exact Hs] | reflexivity].
    + assert (Hs : firstn 4 (b :: content) <> jarSignature).
      { intros Hs. apply Hsig in Hs. discriminate. }
      split; [|split; [|split; reflexivity]].
      * split; [intros _; by right | intros _; eauto].
      * split; [intros [=] | intros [_ Heq]; by destruct Hs].
Qed.

Lemma validateJarFile_contract_witness :
  let fs : FS := {["sodium.jar" := RegularFile [x50; x4b; x03; x04; x14]]} in
  result (validateJarFile "sodium.jar" fs) = Val tt
  /\ final (validateJarFile "sodium.jar" fs) = fs.
Proof.
  intros fs.
  destruct (validateJarFile_contract "sodium.jar" fs [x50; x4b; x03; x04; x14])
    as (_ & Hok & Hfs & _).
  - reflexivity.
  - split; [apply Hok; split; [discriminate | reflexivity] | exact Hfs].
Defined.

(** ** The self-updater *)

Lemma cleanupOldVersions_run (h : Host) (fs : FS) :
  cleanupOldVersions h fs = (Val tt, fs, [])
  \/ cleanupOldVersions h fs = (Val tt, delete (oldPathOf h) fs, [Remove (oldPathOf h)]).
Proof.
  unfold cleanupOldVersions, tryCatch, hostRemove, remove, throw, ret.
  destruct (denied h (SysRemove (oldPathOf h))); [by left|].
  destruct (fs !! oldPathOf h); [by right | by left].
Qed.

Lemma cleanupOldVersions_quiet (h : Host) (fs : FS) :
  result (cleanupOldVersions h fs) = Val tt
  /\ Forall (fun e => isUpdateAction e = false) (trace (cleanupOldVersions h fs)).
Proof.
  destruct (cleanupOldVersions_run h fs) as [-> | ->]; split; try reflexivity.
  - constructor.
  - repeat constructor.
Qed.

(** [check] is [cleanupOldVersions] followed by the guarded update
    sequence. *)
Lemma check_run (sv : SemverLib) (h : Host) (fs : FS) :
  isDev h = false ->
  check sv h fs =
    (match result (updateSequence sv h (final (cleanupOldVersions h fs))) with
     | Throw e => Val tt
     | r => r
     end,
     final (updateSequence sv h (final (cleanupOldVersions h fs))),
     trace (cleanupOldVersions h fs)
       ++ trace (updateSequence sv h (final (cleanupOldVersions h fs)))
       ++ match result (updateSequence sv h (final (cleanupOldVersions h fs))) with
          | Throw e => [Log (UpdateCheckError e)]
          | _ => []
          end).
Proof.
  intros Hdev. unfold check, bind. rewrite Hdev.
  pose proof (cleanupOldVersions_quiet h fs) as [Hr _].
  destruct (cleanupOldVersions h fs) as [[rc fc] tc]. cbn in Hr. subst rc.
  cbn [final trace fst snd]. unfold tryCatch.
  destruct (updateSequence sv h fc) as [[[[]|e|code] fu] tu];
    cbn [result final trace fst snd log emit]; by rewrite ?app_nil_r.
Qed.

Lemma updateSequence_not_newer (sv : SemverLib) (h : Host) (fs : FS)
    (r : GitHubRelease) (cv lv : SemVer sv) :
  latestRelease h = FeedRelease r ->
  parse sv APP_VERSION = Some cv ->
  parse sv (tag_name r) = Some lv ->
  greaterThan sv lv cv = false ->
  updateSequence sv h fs = (Val tt, fs, [Log CheckingUpdates; ReleaseRequest; Log UpToDate]).
Proof.
  intros Hfeed Hcv Hlv Hgt.
  unfold updateSequence, getLatestRelease, parseVersion, bind, log, emit, ret.
  rewrite Hfeed. cbn. rewrite Hcv. cbn. rewrite Hlv. cbn. rewrite Hgt. reflexivity.
Qed.

(** C8.  When the tag of the release feed parses as a version that is not
    strictly greater than the current one, [check] reports that the version
    is up to date and returns: its last message is the up-to-date message and
    its trace holds no asset request, no write, no rename and no restart. *)
Theorem check_no_downgrade (sv : SemverLib) (h : Host) (fs : FS)
    (r : GitHubRelease) (cv lv : SemVer sv) :
  isDev h = false ->
  latestRelease h = FeedRelease r ->
  parse sv APP_VERSION = Some cv ->
  parse sv (tag_name r) = Some lv ->
  greaterThan sv lv cv = false ->
  result (check sv h fs) = Val tt
  /\ last (trace (check sv h fs)) = Some (Log UpToDate)
  /\ Forall (fun e => isUpdateAction e = false) (trace (check sv h fs))
  /\ final (check sv h fs) = final (cleanupOldVersions h fs).
Proof.
  intros Hdev Hfeed Hcv Hlv Hgt.
  rewrite (check_run sv h fs Hdev).
  rewrite (updateSequence_not_newer sv h _ r cv lv) by done.
  cbn [result final trace fst snd]. rewrite app_nil_r.
  split; [reflexivity|]. split; [|split; [|reflexivity]].
  - rewrite last_app. reflexivity.
  - apply Forall_app. split; [apply cleanupOldVersions_quiet | repeat constructor].
Qed.

(** The remote tag 1.0.0 against the current version 1.0.1. *)
Lemma check_no_downgrade_witness :
  result (check CoreSemver.lib (linuxHost "1.0.0" (fun _ => false)) installed) = Val tt
  /\ Forall (fun e => isUpdateAction e = false)
       (trace (check CoreSemver.lib (linuxHost "1.0.0" (fun _ => false)) installed)).
Proof.
  destruct (check_no_downgrade CoreSemver.lib (linuxHost "1.0.0" (fun _ => false)) installed
              (releaseOf "1.0.0") (1, 0, 1)%N (1, 0, 0)%N)
    as (Hr & _ & Hq & _); try reflexivity.
  split; assumption.
Defined.

Example check_same_version :
  trace (check CoreSemver.lib (linuxHost "v1.0.1" (fun _ => false)) installed)
  = [Log CheckingUpdates; ReleaseRequest; Log UpToDate].
Proof. reflexivity. Qed.

(** The swap when the platform refuses both the second rename and the
    restoration: the error of the restoration is what propagates. *)
Lemma swapExecutable_rollback_failed (h : Host) (fs : FS) (binary : Node) :
  denied h (SysRename (execPath h) (oldPathOf h)) = false ->
  denied h (SysRename (tempPathOf h) (execPath h)) = true ->
  denied h (SysRename (oldPathOf h) (execPath h)) = true ->
  fs !! execPath h = Some binary ->
  (forall n, fs !! oldPathOf h <> Some (Directory n)) ->
  swapExecutable h fs =
    (Throw (PermissionDenied (oldPathOf h)),
     <[oldPathOf h := binary]> (delete (execPath h) fs),
     [Rename (execPath h) (oldPathOf h)]).
Proof.
  intros H1 H2 H3 Hexec Hold. unfold swapExecutable.
  assert (Hfirst : hostRename h (execPath h) (oldPathOf h) fs =
            (Val tt, <[oldPathOf h := binary]> (delete (execPath h) fs),
             [Rename (execPath h) (oldPathOf h)])).
  { unfold hostRename. rewrite H1, Hexec.
    destruct (fs !! oldPathOf h) as [[c|n]|] eqn:E; try reflexivity.
    by destruct (Hold n). }
  rewrite (bind_val _ _ _ _ _ _ (tryCatch_val _ _ _ _ _ _ Hfirst)).
  set (fs1 := <[oldPathOf h := binary]> (delete (execPath h) fs)).
  assert (Hsecond : hostRename h (tempPathOf h) (execPath h) fs1 =
            (Throw (PermissionDenied (tempPathOf h)), fs1, [])).
  { unfold hostRename. by rewrite H2. }
  rewrite (tryCatch_throw _ _ _ _ _ _ Hsecond).
  assert (Hthird : hostRename h (oldPathOf h) (execPath h) fs1 =
            (Throw (PermissionDenied (oldPathOf h)), fs1, [])).
  { unfold hostRename. by rewrite H3. }
  rewrite (bind_throw _ _ _ _ _ _ Hthird). reflexivity.
Qed.

Lemma getAssetForPlatform_pure (h : Host) (available : list GitHubAsset) (fs : FS) :
  final (getAssetForPlatform h available fs) = fs
  /\ trace (getAssetForPlatform h available fs) = [].
Proof.
  unfold getAssetForPlatform, bind, ret, throw.
  repeat (case_match; simplify_eq; cbn); done.
Qed.

(** The download stage of [performUpdate] writes to the temporary path
    only. *)
Lemma stage_temp_file (h : Host) (body : option Body) (u : string) (fs : FS) :
  (forall b, body = Some b -> complete b = true) ->
  denied h (SysOpen (tempPathOf h)) = false ->
  denied h (SysChmod (tempPathOf h)) = false ->
  (forall n, fs !! tempPathOf h <> Some (Directory n)) ->
  exists fs' t,
    (hostOpenWrite h (tempPathOf h) ;;
     match body with
     | None => ret tt
     | Some b =>
         writeFile (tempPathOf h) (received b) ;;
         if complete b then ret tt else throw (NetworkError u)
     end ;;
     (if String.eqb (os h) "windows" then ret tt else hostChmod h (tempPathOf h))) fs
    = (Val tt, fs', t)
    /\ (forall p, p <> tempPathOf h -> fs' !! p = fs !! p)
    /\ Forall (fun e => isUpdateAction e = true) t.
Proof.
  intros Hbody Hopen Hchmod Hdir.
  unfold hostOpenWrite, hostChmod, openWrite, writeFile, bind, ret, throw.
  rewrite Hopen, Hchmod.
  destruct (fs !! tempPathOf h) as [[c|n]|] eqn:Et; [| by destruct (Hdir n) |].
  - destruct body as [b|].
    + rewrite Et, (Hbody b eq_refl).
      destruct (String.eqb (os h) "windows"); cbn; rewrite ?lookup_insert_eq;
        (eexists _, _; split; [reflexivity|]; split;
         [intros p Hp; by rewrite lookup_insert_ne | repeat constructor]).
    + destruct (String.eqb (os h) "windows"); cbn; rewrite ?Et;
        (eexists _, _; split; [reflexivity|]; split; [done | repeat constructor]).
  - destruct body as [b|].
    + rewrite lookup_insert_eq, (Hbody b eq_refl).
      destruct (String.eqb (os h) "windows"); cbn; rewrite ?lookup_insert_eq;
        (eexists _, _; split; [reflexivity|]; split;
         [intros p Hp; by rewrite !lookup_insert_ne | repeat constructor]).
    + destruct (String.eqb (os h) "windows"); cbn; rewrite ?lookup_insert_eq;
        (eexists _, _; split; [reflexivity|]; split;
         [intros p Hp; by rewrite !lookup_insert_ne | repeat constructor]).
Qed.

Lemma performUpdate_rollback_failed (h : Host) (r : GitHubRelease) (fs : FS)
    (a : GitHubAsset) (body : option Body) (binary : Node) :
  result (getAssetForPlatform h (assets r) fs) = Val a ->
  download h (browser_download_url a) = Http true body ->
  (forall b, body = Some b -> complete b = true) ->
  denied h (SysOpen (tempPathOf h)) = false ->
  denied h (SysChmod (tempPathOf h)) = false ->
  denied h (SysRename (execPath h) (oldPathOf h)) = false ->
  denied h (SysRename (tempPathOf h) (execPath h)) = true ->
  denied h (SysRename (oldPathOf h) (execPath h)) = true ->
  fs !! execPath h = Some binary ->
  (forall n, fs !! oldPathOf h <> Some (Directory n)) ->
  (forall n, fs !! tempPathOf h <> Some (Directory n)) ->
  result (performUpdate h r fs) = Throw (PermissionDenied (oldPathOf h))
  /\ final (performUpdate h r fs) !! execPath h = None
  /\ final (performUpdate h r fs) !! oldPathOf h = Some binary
  /\ In (Rename (execPath h) (oldPathOf h)) (trace (performUpdate h r fs)).
Proof.
  intros Hasset Hdl Hbody Hopen Hchmod H1 H2 H3 Hexec Hold Htemp.
  assert (Ha : getAssetForPlatform h (assets r) fs = (Val a, fs, [])).
  { rewrite (run_eta (getAssetForPlatform h (assets r) fs)), Hasset.
    by destruct (getAssetForPlatform_pure h (assets r) fs) as [-> ->]. }
  unfold performUpdate. rewrite (bind_val _ _ _ _ _ _ Ha).
  unfold log, emit. rewrite !(bind_val _ _ fs fs tt _ eq_refl).
  rewrite Hdl. cbn [negb].
  destruct (stage_temp_file h body (browser_download_url a) fs Hbody Hopen Hchmod Htemp)
    as (fs' & t & Hstage & Hframe & _).
  rewrite (bind3_val _ _ _ _ _ _ _ Hstage).
  assert (Hswap : swapExecutable h fs' =
            (Throw (PermissionDenied (oldPathOf h)),
             <[oldPathOf h := binary]> (delete (execPath h) fs'),
             [Rename (execPath h) (oldPathOf h)])).
  { apply swapExecutable_rollback_failed; try done.
    - rewrite Hframe; [done | symmetry; apply tempPath_ne_exec].
    - intros n. rewrite Hframe; [apply Hold | symmetry; apply tempPath_ne_old]. }
  rewrite (bind_throw _ _ _ _ _ _ Hswap).
  cbn [result final trace fst snd].
  rewrite lookup_insert_ne by apply oldPath_ne_exec.
  rewrite lookup_delete_eq, lookup_insert_eq.
  repeat split; try reflexivity.
  rewrite !in_app_iff. cbn [In]. auto 20.
Qed.

Lemma updateSequence_newer (sv : SemverLib) (h : Host) (fs : FS)
    (r : GitHubRelease) (cv lv : SemVer sv) :
  latestRelease h = FeedRelease r ->
  parse sv APP_VERSION = Some cv ->
  parse sv (tag_name r) = Some lv ->
  greaterThan sv lv cv = true ->
  updateSequence sv h fs =
    (result (performUpdate h r fs), final (performUpdate h r fs),
     [Log CheckingUpdates; ReleaseRequest; Log (NewVersionAvailable (tag_name r))]
       ++ trace (performUpdate h r fs)).
Proof.
  intros Hfeed Hcv Hlv Hgt.
  unfold updateSequence, getLatestRelease, parseVersion, bind, log, emit, ret.
  rewrite Hfeed. cbn. rewrite Hcv. cbn. rewrite Hlv. cbn. rewrite Hgt.
  by destruct (performUpdate h r fs) as [[??]?].
Qed.

(** Whatever the update sequence throws, [check] logs it with the warning
    of its [catch] and returns. *)
Lemma check_degrades (sv : SemverLib) (h : Host) (fs : FS) (e : Error) :
  isDev h = false ->
  result (updateSequence sv h (final (cleanupOldVersions h fs))) = Throw e ->
  degradesToContinue (check sv h fs)
  /\ last (trace (check sv h fs)) = Some (Log (UpdateCheckError e)).
Proof.
  intros Hdev Hthrow. rewrite (check_run sv h fs Hdev), Hthrow.
  unfold degradesToContinue. cbn [result final trace fst snd].
  rewrite app_assoc. split; [split; [reflexivity | eauto] | apply last_snoc].
Qed.

Lemma check_never_throws (sv : SemverLib) (h : Host) (fs : FS) (e : Error) :
  result (check sv h fs) <> Throw e.
Proof.
  destruct (isDev h) eqn:Hdev.
  - unfold check, bind. rewrite Hdev.
    pose proof (cleanupOldVersions_quiet h fs) as [Hr _].
    destruct (cleanupOldVersions h fs) as [[rc fc] tc]. cbn in Hr. subst rc. done.
  - rewrite (check_run sv h fs Hdev). cbn [result fst].
    by destruct (result (updateSequence sv h _)).
Qed.

(** C1, as the code has it.  Every error of the update sequence, whatever
    its kind, is caught by [check], logged with the one warning of its
    [catch], and the process goes on; [check] never throws.  When the
    platform refuses both the second rename and the restoration, the error of
    the restoration is the one that propagates, it is handled in that same
    way, and the executable is left at the backup path with nothing at its
    own path: the code has no distinct report for this state. *)
Theorem check_handles_every_update_error (sv : SemverLib) (h : Host) (fs : FS) :
  isDev h = false ->
  (forall e, result (check sv h fs) <> Throw e)
  /\ (forall e,
        result (updateSequence sv h (final (cleanupOldVersions h fs))) = Throw e ->
        degradesToContinue (check sv h fs)
        /\ last (trace (check sv h fs)) = Some (Log (UpdateCheckError e)))
  /\ (forall (r : GitHubRelease) (cv lv : SemVer sv) (a : GitHubAsset)
             (body : option Body) (binary : Node),
        latestRelease h = FeedRelease r ->
        parse sv APP_VERSION = Some cv ->
        parse sv (tag_name r) = Some lv ->
        greaterThan sv lv cv = true ->
        (forall fs0, result (getAssetForPlatform h (assets r) fs0) = Val a) ->
        download h (browser_download_url a) = Http true body ->
        (forall b, body = Some b -> complete b = true) ->
        denied h (SysOpen (tempPathOf h)) = false ->
        denied h (SysChmod (tempPathOf h)) = false ->
        denied h (SysRename (execPath h) (oldPathOf h)) = false ->
        denied h (SysRename (tempPathOf h) (execPath h)) = true ->
        denied h (SysRename (oldPathOf h) (execPath h)) = true ->
        fs !! execPath h = Some binary ->
        (forall n, fs !! oldPathOf h <> Some (Directory n)) ->
        (forall n, fs !! tempPathOf h <> Some (Directory n)) ->
        rollbackFailed h (check sv h fs)
        /\ degradesToContinue (check sv h fs)
        /\ last (trace (check sv h fs))
           = Some (Log (UpdateCheckError (PermissionDenied (oldPathOf h))))).
Proof.
  intros Hdev. split; [intros e; apply check_never_throws|].
  split; [intros e; by apply check_degrades|].
  intros r cv lv a body binary Hfeed Hcv Hlv Hgt Hasset Hdl Hbody
    Hopen Hchmod H1 H2 H3 Hexec Hold Htemp.
  set (fc := final (cleanupOldVersions h fs)).
  assert (Hfc : forall p, p <> oldPathOf h -> fc !! p = fs !! p).
  { intros p Hp. subst fc.
    destruct (cleanupOldVersions_run h fs) as [-> | ->]; cbn [final fst snd]; [done|].
    by rewrite lookup_delete_ne. }
  assert (Hfc_old : forall n, fc !! oldPathOf h <> Some (Directory n)).
  { intros n. subst fc.
    destruct (cleanupOldVersions_run h fs) as [-> | ->]; cbn [final fst snd]; [apply Hold|].
    by rewrite lookup_delete_eq. }
  destruct (performUpdate_rollback_failed h r fc a body binary) as (Hres & Hne & Hbackup & Hin);
    try done.
  { rewrite Hfc; [done | symmetry; apply oldPath_ne_exec]. }
  { intros n. rewrite Hfc; [apply Htemp | apply tempPath_ne_old]. }
  assert (Hseq := updateSequence_newer sv h fc r cv lv Hfeed Hcv Hlv Hgt).
  assert (Hthrow : result (updateSequence sv h fc) = Throw (PermissionDenied (oldPathOf h)))
    by (by rewrite Hseq).
  destruct (check_degrades sv h fs _ Hdev Hthrow) as [Hdeg Hlast].
  split; [|by split].
  rewrite (check_run sv h fs Hdev). fold fc. rewrite Hseq.
  unfold rollbackFailed. cbn [result final trace fst snd].
  split; [|split; [done | by rewrite Hbackup]].
  rewrite !in_app_iff. right. left. right. exact Hin.
Qed.

Lemma check_handles_every_update_error_witness :
  rollbackFailed (linuxHost "v1.1.0" (refuseRenameOnto "/opt/mod-manager"))
    (check CoreSemver.lib (linuxHost "v1.1.0" (refuseRenameOnto "/opt/mod-manager")) installed)
  /\ degradesToContinue
       (check CoreSemver.lib (linuxHost "v1.1.0" (refuseRenameOnto "/opt/mod-manager")) installed).
Proof.
  destruct (check_handles_every_update_error CoreSemver.lib
              (linuxHost "v1.1.0" (refuseRenameOnto "/opt/mod-manager")) installed eq_refl)
    as (_ & _ & Hscenario).
  destruct (Hscenario (releaseOf "v1.1.0") (1, 0, 1)%N (1, 1, 0)%N
              {| asset_name := "mod-manager-linux-x64";
                 browser_download_url := "https://github.example/linux";
                 asset_size := 4 |}
              (Some {| received := [x7f; x45; x4c; x46]; complete := true |})
              (RegularFile [x01; x02]))
    as (Hrb & Hdeg & _); try reflexivity.
  - intros b [= <-]. reflexivity.
  - intros n. vm_compute. discriminate.
  - intros n. vm_compute. discriminate.
  - split; assumption.
Defined.

(** C1, as stated, fails: with both renames onto the executable's path
    refused, the system is left without an executable and [check] ends like
    for any other error, with the generic warning and a normal return. *)
Lemma rollback_failure_is_not_distinct :
  let h := linuxHost "v1.1.0" (refuseRenameOnto "/opt/mod-manager") in
  let o := check CoreSemver.lib h installed in
  rollbackFailed h o
  /\ degradesToContinue o
  /\ result o = Val tt
  /\ last (trace o) = Some (Log (UpdateCheckError (PermissionDenied "/opt/mod-manager.old")))
  /\ final o !! "/opt/mod-manager" = None.
Proof.
  intros h o. split; [|split; [|split; [|split]]]; try (vm_compute; reflexivity).
  - split; [|split].
    + vm_compute. auto 20.
    + vm_compute. reflexivity.
    + vm_compute. eauto.
  - split; [vm_compute; reflexivity|].
    exists (removelast (trace o)), (PermissionDenied "/opt/mod-manager.old").
    vm_compute. reflexivity.
Qed.

(** ** A download that fails validation *)

(** C3 at a failing input: the host answers the download of an entry with
    an error page.  [processModDownload] reports the invalid jar for the
    entry and leaves the page at the expected path. *)
Theorem processModDownload_leaves_invalid_file :
  let m := directMod "Sodium" "https://example.com/sodium.jar" "sodium.jar" in
  let o := processModDownload (constantHost pageBytes) (fabricPack (Some false) [m]) m [] ∅ in
  trace o =
    [Log (Downloading "Sodium" "custom"); Fetch "https://example.com/sodium.jar";
     Create "sodium.jar"; Write "sodium.jar" pageBytes;
     Log (ErrorProcessing "Sodium" (InvalidJar NotAJar))]
  /\ final o !! "sodium.jar" = Some (RegularFile pageBytes).
Proof. split; vm_compute; reflexivity. Qed.

(** The sibling [downloadMod] removes the file on the same input. *)
Example downloadMod_removes_invalid_file :
  let m := directMod "Sodium" "https://example.com/sodium.jar" "sodium.jar" in
  let o := downloadMod (constantHost pageBytes) (fabricPack (Some false) [m]) m "sodium.jar" ∅ in
  result o = Throw (DownloadModFailed "Sodium" (InvalidJar NotAJar))
  /\ final o !! "sodium.jar" = None.
Proof. split; vm_compute; reflexivity. Qed.

(** On the next pass the file left behind is taken for the installed
    mod. *)
Example invalid_file_is_verified_next :
  let m := directMod "Sodium" "https://example.com/sodium.jar" "sodium.jar" in
  let cfg := fabricPack (Some false) [m] in
  let fs1 := final (syncMods (constantHost pageBytes) cfg ∅) in
  trace (syncMods (constantHost pageBytes) cfg fs1) =
    [Log (CurrentMods 1); Log (RequiredMods 1); Log SafeMode;
     Log (Verified "Sodium" "custom")].
Proof. vm_compute. reflexivity. Qed.

(** ** Effects of the synchronisation pass *)

Lemma typed_emit (P : Event -> Prop) (e : Event) : P e -> sat (typed P) (emit e).
Proof. intros He fs. by repeat constructor. Qed.

Lemma typed_log (P : Event -> Prop) (m : Msg) : P (Log m) -> sat (typed P) (log m).
Proof. apply typed_emit. Qed.

(** Unfolds the primitives and decides the three relations on them. *)
Ltac prim_solve :=
  let fs := fresh "fs" in
  unfold sat; intros fs;
  unfold emit, log, stat, remove, openWrite, writeFile, readHeader, readDir, ret, throw;
  repeat case_match; simplify_eq;
  cbn [trace final result kindOf fst snd];
  unfold replays, typed, noExit, replay; cbn [fold_left applyEvent];
  repeat match goal with
         | H : ?fs !! ?p = _ |- context [?fs !! ?p] => rewrite H
         end;
  first [ done | by repeat constructor | by repeat (constructor; cbn) ].

(** Decomposes a computation along its combinators; [leaf] closes the
    goals about primitives and functions already treated. *)
Ltac sat_go leaf :=
  repeat first
    [ progress intros
    | match goal with |- Composable _ => exact _ end
    | solve [leaf]
    | apply sat_ret
    | apply sat_throw
    | apply sat_bind
    | apply sat_tryCatch
    | apply sat_forEach
    | progress case_match ].

Create HintDb replays discriminated.
Create HintDb noexit discriminated.

Lemma emit_replays (e : Event) : (forall fs, applyEvent fs e = fs) -> sat replays (emit e).
Proof. intros He fs. unfold replays, replay. cbn. by rewrite He. Qed.

Lemma log_replays (m : Msg) : sat replays (log m).
Proof. by apply emit_replays. Qed.

Lemma stat_replays (p : string) : sat replays (stat p).
Proof. prim_solve. Qed.

Lemma remove_replays (p : string) : sat replays (remove p).
Proof. prim_solve. Qed.

Lemma openWrite_replays (p : string) : sat replays (openWrite p).
Proof. prim_solve. Qed.

Lemma writeFile_replays (p : string) (d : list byte) : sat replays (writeFile p d).
Proof. prim_solve. Qed.

Lemma readHeader_replays (p : string) : sat replays (readHeader p).
Proof. prim_solve. Qed.

Lemma readDir_replays : sat replays readDir.
Proof. prim_solve. Qed.

#[global] Hint Resolve log_replays stat_replays remove_replays openWrite_replays
  writeFile_replays readHeader_replays readDir_replays : replays.
#[global] Hint Extern 1 (sat replays (emit _)) =>
  (apply emit_replays; intros; reflexivity) : replays.

Lemma validateJarFile_replays (p : string) : sat replays (validateJarFile p).
Proof. unfold validateJarFile. sat_go ltac:(eauto with replays). Qed.

Lemma downloadFile_replays (reg : Registry) (u p : string) : sat replays (downloadFile reg u p).
Proof. unfold downloadFile. sat_go ltac:(eauto with replays). Qed.

Lemma resolveTarget_replays (reg : Registry) (cfg : ModpackConfig) (m : ModConfig) :
  sat replays (resolveTarget reg cfg m).
Proof.
  unfold resolveTarget, getModrinthDownloadUrl, searchModrinthProject, getCurseForgeDownloadUrl.
  sat_go ltac:(eauto with replays).
Qed.

#[global] Hint Resolve validateJarFile_replays downloadFile_replays resolveTarget_replays : replays.

Lemma processModDownload_replays (reg : Registry) (cfg : ModpackConfig) (m : ModConfig)
    (currentMods : list string) :
  sat replays (processModDownload reg cfg m currentMods).
Proof.
  unfold processModDownload, removeDuplicate, presentNonEmpty.
  sat_go ltac:(eauto with replays).
Qed.

#[global] Hint Resolve processModDownload_replays : replays.

Lemma syncMods_replays (reg : Registry) (cfg : ModpackConfig) : sat replays (syncMods reg cfg).
Proof.
  unfold syncMods, getCurrentMods, pruneUnlisted, processAll.
  sat_go ltac:(eauto with replays).
Qed.

(** Nothing in the pass terminates the process. *)
Lemma validateJarFile_noExit (p : string) : sat noExit (validateJarFile p).
Proof. unfold validateJarFile. sat_go prim_solve. Qed.

Lemma downloadFile_noExit (reg : Registry) (u p : string) : sat noExit (downloadFile reg u p).
Proof. unfold downloadFile. sat_go prim_solve. Qed.

Lemma resolveTarget_noExit (reg : Registry) (cfg : ModpackConfig) (m : ModConfig) :
  sat noExit (resolveTarget reg cfg m).
Proof.
  unfold resolveTarget, getModrinthDownloadUrl, searchModrinthProject, getCurseForgeDownloadUrl.
  sat_go prim_solve.
Qed.

#[global] Hint Resolve validateJarFile_noExit downloadFile_noExit resolveTarget_noExit : noexit.

Lemma processModDownload_noExit (reg : Registry) (cfg : ModpackConfig) (m : ModConfig)
    (currentMods : list string) :
  sat noExit (processModDownload reg cfg m currentMods).
Proof.
  unfold processModDownload, removeDuplicate, presentNonEmpty.
  sat_go ltac:(first [prim_solve | eauto with noexit]).
Qed.

(** The events of each part. *)
Lemma resolveTarget_typed (reg : Registry) (cfg : ModpackConfig) (m : ModConfig) :
  sat (typed queryEvent) (resolveTarget reg cfg m).
Proof.
  unfold resolveTarget, getModrinthDownloadUrl, searchModrinthProject, getCurseForgeDownloadUrl.
  sat_go prim_solve.
Qed.

Lemma validateJarFile_typed (P : Event -> Prop) (p : string) : sat (typed P) (validateJarFile p).
Proof. intros fs. unfold typed. rewrite validateJarFile_run. constructor. Qed.

Lemma downloadFile_typed (reg : Registry) (u x : string) :
  sat (typed (downloadEvent x)) (downloadFile reg u x).
Proof. unfold downloadFile. sat_go prim_solve. Qed.

Lemma presentNonEmpty_typed (P : Event -> Prop) (x : string) : sat (typed P) (presentNonEmpty x).
Proof. unfold presentNonEmpty. sat_go prim_solve. Qed.

Lemma removeDuplicate_typed (P : Event -> Prop) (file : string) :
  P (Log (RemovingOldVersion file)) ->
  (forall e, P (Log (CouldNotRemove file e))) ->
  P (Remove file) ->
  sat (typed P) (removeDuplicate file).
Proof.
  intros H1 H2 H3. unfold removeDuplicate.
  sat_go ltac:(first [by apply typed_log | prim_solve]).
Qed.

Lemma duplicates_In (m : ModConfig) (expected : string) (currentMods : list string) (x : string) :
  In x (duplicates m expected currentMods)
  <-> In x currentMods
      /\ Js.startsWith (extractModBaseName x) (normalizedName m) = true
      /\ x <> expected.
Proof.
  unfold duplicates. rewrite filter_In, andb_true_iff, negb_true_iff, String.eqb_neq. tauto.
Qed.

Lemma queryEvent_step (m : ModConfig) (currentMods : list string) (e : Event) :
  queryEvent e -> stepEvent m currentMods e.
Proof. destruct e; cbn; tauto. Qed.

Lemma downloadEvent_step (m : ModConfig) (currentMods : list string) (x : string) (e : Event) :
  downloadEvent x e -> stepEvent m currentMods e.
Proof. destruct e; cbn; tauto. Qed.

Lemma processModDownload_typed (reg : Registry) (cfg : ModpackConfig) (m : ModConfig)
    (currentMods : list string) :
  sat (typed (entryEvent m currentMods)) (processModDownload reg cfg m currentMods).
Proof.
  unfold processModDownload. apply sat_tryCatch; [exact _| |].
  - apply sat_bind; [exact _| |].
    { eapply typed_mono; [|apply resolveTarget_typed].
      intros e He. left. by apply queryEvent_step. }
    intros t. apply sat_bind; [exact _| |].
    { apply sat_forEach; [exact _|]. intros x Hx. apply duplicates_In in Hx as (Hin & Hsw & _).
      apply removeDuplicate_typed; left; cbn; auto. }
    intros _. apply sat_bind; [exact _ | apply presentNonEmpty_typed |].
    intros [|].
    + apply typed_log. by right.
    + apply sat_bind; [exact _ | apply typed_log; left; cbn; auto |]. intros _.
      apply sat_bind; [exact _| |].
      { eapply typed_mono; [|apply downloadFile_typed].
        intros e He. left. by eapply downloadEvent_step. }
      intros _. apply sat_bind; [exact _ | apply validateJarFile_typed |].
      intros _. apply typed_log. by right.
  - intros e. apply typed_log. by right.
Qed.

Lemma pruneUnlisted_typed (cfg : ModpackConfig) (currentMods : list string) :
  sat (typed (pruneEvent cfg currentMods)) (pruneUnlisted cfg currentMods).
Proof.
  unfold pruneUnlisted. destruct (pruneEnabled cfg); [|by apply typed_log].
  apply sat_bind; [exact _ | by apply typed_log |]. intros _.
  apply sat_forEach; [exact _|]. intros x Hx.
  destruct (isUnlisted cfg x) eqn:Hu; [|apply sat_ret; exact _].
  apply sat_bind; [exact _ | by apply typed_log |]. intros _.
  intros fs. unfold remove. case_match; cbn; unfold typed; by repeat constructor.
Qed.

Lemma processAll_typed (reg : Registry) (cfg : ModpackConfig) (ms : list ModConfig)
    (currentMods : list string) :
  sat (typed (fun e => exists m, In m ms /\ entryEvent m currentMods e))
      (processAll reg cfg ms currentMods).
Proof.
  unfold processAll. apply sat_forEach; [exact _|]. intros m Hm.
  eapply typed_mono; [|apply processModDownload_typed]. intros e He. eauto.
Qed.

Lemma pruneUnlisted_noExit (cfg : ModpackConfig) (currentMods : list string) :
  sat noExit (pruneUnlisted cfg currentMods).
Proof. unfold pruneUnlisted. sat_go prim_solve. Qed.

Lemma processAll_noExit (reg : Registry) (cfg : ModpackConfig) (ms : list ModConfig)
    (currentMods : list string) :
  sat noExit (processAll reg cfg ms currentMods).
Proof. unfold processAll. sat_go ltac:(apply processModDownload_noExit). Qed.

(** [getCurrentMods] returns the listing and does nothing else. *)
Lemma getCurrentMods_run (fs : FS) : getCurrentMods fs = (Val (listing fs), fs, []).
Proof. reflexivity. Qed.

(** [syncMods] is the header, the pruning block and the download loop, on
    the listing taken at the start. *)
Lemma syncMods_run (reg : Registry) (cfg : ModpackConfig) (fs : FS) :
  let p := pruneUnlisted cfg (listing fs) fs in
  syncMods reg cfg fs =
    match result p with
    | Val _ =>
        let a := processAll reg cfg (mods cfg) (listing fs) (final p) in
        (result a, final a,
         [Log (CurrentMods (length (listing fs))); Log (RequiredMods (length (mods cfg)))]
           ++ trace p ++ trace a)
    | Throw e =>
        (Throw e, final p,
         [Log (CurrentMods (length (listing fs))); Log (RequiredMods (length (mods cfg)))]
           ++ trace p)
    | Exit c =>
        (Exit c, final p,
         [Log (CurrentMods (length (listing fs))); Log (RequiredMods (length (mods cfg)))]
           ++ trace p)
    end.
Proof.
  intros p. unfold syncMods. rewrite (bind_val _ _ _ _ _ _ (getCurrentMods_run fs)).
  unfold log, emit. rewrite !(bind_val _ _ fs fs tt _ eq_refl).
  subst p. unfold bind.
  destruct (pruneUnlisted cfg (listing fs) fs) as [[[[]|e|c] fp] tp]; cbn; try reflexivity.
  by destruct (processAll reg cfg (mods cfg) (listing fs) fp) as [[r fa] ta].
Qed.

(** ** The registry resolver: pinned versions *)

Lemma stripLeadingV_cons (c : ascii) (s : string) :
  Js.stripLeadingV (String c s) = if Ascii.eqb c "v" then s else String c s.
Proof. destruct c as [[] [] [] [] [] [] [] []]; reflexivity. Qed.

Lemma find_none_iff {A} (p : A -> bool) (xs : list A) :
  Js.find p xs = None <-> (forall x, In x xs -> p x = false).
Proof.
  unfold Js.find. split; [apply find_none|].
  induction xs as [|x xs IH]; intros H; cbn; [done|].
  rewrite (H x) by (by left). apply IH. intros y Hy. apply H. by right.
Qed.

Lemma find_some_spec {A} (p : A -> bool) (xs : list A) (x : A) :
  Js.find p xs = Some x -> In x xs /\ p x = true.
Proof. apply find_some. Qed.

(** The two searches together accept exactly the pin and the pin with a
    [v] in front: the flexible search strips a [v] from the registry's
    label only. *)
Lemma exact_or_flexible (cfg : ModpackConfig) (wanted : string) (v : Version) :
  exactMatch cfg wanted v || flexibleMatch cfg wanted v
  = compatible cfg v && acceptsLabel wanted (version_number v).
Proof.
  unfold exactMatch, flexibleMatch, acceptsLabel.
  destruct (compatible cfg v); cbn [andb orb]; [|reflexivity].
  destruct (String.eqb_spec (version_number v) wanted) as [->|Hne]; cbn [orb]; [reflexivity|].
  destruct (String.eqb_spec (version_number v) ("v" +:+ wanted)) as [Hv|Hnv]; cbn [orb]; [reflexivity|].
  apply String.eqb_neq. intros Hs. destruct (version_number v) as [|c s].
  - by cbn in Hs.
  - rewrite stripLeadingV_cons in Hs.
    destruct (Ascii.eqb_spec c "v") as [->|Hc]; [|done].
    apply Hnv. cbn. by rewrite Hs.
Qed.

Lemma findPinned_none (cfg : ModpackConfig) (wanted : string) (vs : list Version) :
  findPinned cfg wanted vs = None
  <-> (forall v, In v vs -> compatible cfg v = true ->
         acceptsLabel wanted (version_number v) = false).
Proof.
  unfold findPinned. split.
  - intros H v Hin Hc.
    destruct (Js.find (exactMatch cfg wanted) vs) eqn:He; [done|].
    pose proof (proj1 (find_none_iff _ _) He v Hin) as H1.
    pose proof (proj1 (find_none_iff _ _) H v Hin) as H2.
    pose proof (exact_or_flexible cfg wanted v) as Heq.
    rewrite H1, H2, Hc in Heq. cbn in Heq. done.
  - intros H.
    assert (Hboth : forall v, In v vs ->
              exactMatch cfg wanted v = false /\ flexibleMatch cfg wanted v = false).
    { intros v Hin. apply orb_false_iff. rewrite exact_or_flexible.
      destruct (compatible cfg v) eqn:Hc; [|reflexivity]. cbn. by apply H. }
    rewrite (proj2 (find_none_iff (exactMatch cfg wanted) vs)) by (intros v Hv; by apply Hboth).
    apply find_none_iff. intros v Hv. by apply Hboth.
Qed.

Lemma findPinned_some (cfg : ModpackConfig) (wanted : string) (vs : list Version) (v : Version) :
  findPinned cfg wanted vs = Some v ->
  In v vs /\ compatible cfg v = true /\ acceptsLabel wanted (version_number v) = true.
Proof.
  unfold findPinned. intros H.
  assert (Hm : In v vs /\ (exactMatch cfg wanted v || flexibleMatch cfg wanted v) = true).
  { destruct (Js.find (exactMatch cfg wanted) vs) eqn:He.
    - injection H as ->. apply find_some_spec in He as [? ->]. by split.
    - apply find_some_spec in H as [? ->]. split; [done | apply orb_true_r]. }
  destruct Hm as [Hin Hm]. rewrite exact_or_flexible in Hm.
  apply andb_true_iff in Hm as [? ?]. done.
Qed.

(** A version labelled exactly like the pin wins over a [v]-prefixed one,
    wherever it stands in the list. *)
Lemma findPinned_prefers_exact (cfg : ModpackConfig) (wanted : string)
    (vs : list Version) (v : Version) :
  In v vs -> compatible cfg v = true -> version_number v = wanted ->
  exists v', findPinned cfg wanted vs = Some v' /\ version_number v' = wanted.
Proof.
  intros Hin Hc Hl. unfold findPinned.
  destruct (Js.find (exactMatch cfg wanted) vs) as [v'|] eqn:He.
  - exists v'. split; [done|]. apply find_some_spec in He as [_ He].
    unfold exactMatch in He. apply andb_true_iff in He as [_ He].
    by apply String.eqb_eq.
  - pose proof (proj1 (find_none_iff _ _) He v Hin) as Hf.
    unfold exactMatch in Hf. rewrite Hc, Hl, String.eqb_refl in Hf. done.
Qed.

Lemma projectIdOf_pure (reg : Registry) (cfg : ModpackConfig) (m : ModConfig) :
  pureM (projectIdOf reg cfg m).
Proof. unfold projectIdOf, searchModrinthProject, log. pure_go. Qed.

(** [getModrinthDownloadUrl] for a pinned version, once the project is
    known. *)
Lemma getModrinthDownloadUrl_pinned (reg : Registry) (cfg : ModpackConfig)
    (m : ModConfig) (show : bool) (fs : FS) (pid wanted : string) (vs : list Version) :
  result (projectIdOf reg cfg m fs) = Val pid ->
  version m = Some wanted -> wanted <> "" ->
  versions reg pid = Some vs ->
  getModrinthDownloadUrl reg cfg m show fs =
    match findPinned cfg wanted vs with
    | None =>
        (Throw (ModrinthUrlFailed (name m) (SpecificVersionNotFound wanted)), fs,
         trace (projectIdOf reg cfg m fs) ++ [VersionsRequest pid])
    | Some v =>
        (match files v with
         | [] => Throw (ModrinthUrlFailed (name m) (TypeError "primaryFile is undefined"))
         | primaryFile :: _ =>
             Val {| info_url := url primaryFile;
                    info_version := version_number v;
                    info_fileName := filename primaryFile |}
         end, fs,
         trace (projectIdOf reg cfg m fs)
           ++ [VersionsRequest pid; Log (SpecificVersionFound (version_number v))])
    end.
Proof.
  intros Hpid Hver Hwne Hvs. apply String.eqb_neq in Hwne.
  assert (Hrun : projectIdOf reg cfg m fs = (Val pid, fs, trace (projectIdOf reg cfg m fs))).
  { destruct (projectIdOf_pure reg cfg m) as (r & t & Hp). rewrite Hp in Hpid |- *.
    cbn in Hpid |- *. by subst. }
  unfold projectIdOf in Hrun at 1.
  unfold getModrinthDownloadUrl, tryCatch. rewrite (bind_val _ _ _ _ _ _ Hrun).
  unfold bind, emit, log, ret, throw, Js.truthy, Js.orElse.
  rewrite Hver, Hwne. cbn [negb]. rewrite Hvs.
  destruct (findPinned cfg wanted vs) as [v|]; cbn; [|by rewrite app_nil_r].
  destruct (files v); cbn; by rewrite ?app_nil_r, <- ?app_assoc.
Qed.

(** C6, as the code has it.  For an entry with a pinned version whose
    project is known (given in the entry or found by name), the resolver
    fails with "specific version not found" exactly when no compatible
    version is labelled with the pin or with the pin preceded by [v]; a
    resolved version carries one of these two labels.  The optional [v] is
    tolerated on the registry's side only. *)
Theorem pinned_version_resolution (reg : Registry) (cfg : ModpackConfig)
    (m : ModConfig) (show : bool) (fs : FS) (pid wanted : string) (vs : list Version) :
  result (projectIdOf reg cfg m fs) = Val pid ->
  version m = Some wanted -> wanted <> "" ->
  versions reg pid = Some vs ->
  (result (getModrinthDownloadUrl reg cfg m show fs)
     = Throw (ModrinthUrlFailed (name m) (SpecificVersionNotFound wanted))
   <-> (forall v, In v vs -> compatible cfg v = true ->
          acceptsLabel wanted (version_number v) = false))
  /\ (forall info, result (getModrinthDownloadUrl reg cfg m show fs) = Val info ->
        acceptsLabel wanted (info_version info) = true).
Proof.
  intros Hpid Hver Hwne Hvs.
  rewrite (getModrinthDownloadUrl_pinned reg cfg m show fs pid wanted vs) by done.
  destruct (findPinned cfg wanted vs) as [v|] eqn:Hf; cbn [result fst].
  - apply findPinned_some in Hf as (Hin & Hc & Hl). split.
    + split.
      * destruct (files v); intros [=].
      * intros H. rewrite (H v Hin Hc) in Hl. discriminate.
    + intros info. destruct (files v); intros [= <-]. exact Hl.
  - split; [|intros info [=]].
    split; [intros _; by apply findPinned_none | reflexivity].
Qed.

(** A pin of 1.5.0 resolves against a compatible version labelled v1.5.0. *)
Lemma pinned_version_resolution_witness :
  result (getModrinthDownloadUrl (oneVersionRegistry "AANobbMI" "v1.5.0" "sodium-1.5.0.jar")
            (fabricPack None []) (pinnedMod "Sodium" "AANobbMI" "1.5.0") false ∅)
  <> Throw (ModrinthUrlFailed "Sodium" (SpecificVersionNotFound "1.5.0"))
  /\ acceptsLabel "1.5.0" "v1.5.0" = true.
Proof.
  destruct (pinned_version_resolution
              (oneVersionRegistry "AANobbMI" "v1.5.0" "sodium-1.5.0.jar")
              (fabricPack None []) (pinnedMod "Sodium" "AANobbMI" "1.5.0") false ∅
              "AANobbMI" "1.5.0"
              [ {| game_versions := ["1.20.1"]; loaders := ["fabric"];
                   version_number := "v1.5.0";
                   files := [ {| url := "https://cdn.example/sodium-1.5.0.jar";
                                 filename := "sodium-1.5.0.jar" |} ] |} ])
    as [Hfail Hok]; try reflexivity; try discriminate.
  split; [|reflexivity].
  intros Hthrow. pose proof (proj1 Hfail Hthrow _ (or_introl eq_refl) eq_refl) as Hno.
  discriminate Hno.
Defined.

Example pin_resolves_against_v_label :
  result (getModrinthDownloadUrl (oneVersionRegistry "AANobbMI" "v1.5.0" "sodium-1.5.0.jar")
            (fabricPack None []) (pinnedMod "Sodium" "AANobbMI" "1.5.0") false ∅)
  = Val {| info_url := "https://cdn.example/sodium-1.5.0.jar";
           info_version := "v1.5.0";
           info_fileName := "sodium-1.5.0.jar" |}.
Proof. reflexivity. Qed.

(** C6, as stated, fails: a pin of v1.5.0 does not resolve against a
    compatible version labelled 1.5.0, although the two labels are equal up
    to the leading [v]. *)
Lemma pin_with_v_does_not_resolve :
  sameUpToV "1.5.0" "v1.5.0" = true
  /\ result (getModrinthDownloadUrl (oneVersionRegistry "AANobbMI" "1.5.0" "sodium-1.5.0.jar")
               (fabricPack None []) (pinnedMod "Sodium" "AANobbMI" "v1.5.0") false ∅)
     = Throw (ModrinthUrlFailed "Sodium" (SpecificVersionNotFound "v1.5.0")).
Proof. split; reflexivity. Qed.

(** ** The order of pruning and downloading *)

Lemma entry_is_listed (cfg : ModpackConfig) (m : ModConfig) (p : string) :
  In m (mods cfg) ->
  Js.startsWith (extractModBaseName p) (normalizedName m) = true ->
  isUnlisted cfg p = false.
Proof.
  intros Hm Hsw. unfold isUnlisted. apply negb_false_iff, existsb_exists.
  exists (normalizedName m). split; [by apply in_map | by apply startsWith_includes].
Qed.

Lemma split_order (P Q : Event -> bool) (l1 l2 : list Event) :
  Forall (fun e => Q e = false) l1 ->
  Forall (fun e => P e = false) l2 ->
  forall i j e1 e2,
    (l1 ++ l2) !! i = Some e1 -> (l1 ++ l2) !! j = Some e2 ->
    P e1 = true -> Q e2 = true -> (i < j)%nat.
Proof.
  intros H1 H2 i j e1 e2 Hi Hj HP HQ.
  destruct (decide (i < length l1)%nat) as [Hlt|Hge].
  - destruct (decide (j < length l1)%nat) as [Hjlt|Hjge]; [|lia].
    rewrite lookup_app_l in Hj by done.
    rewrite Forall_lookup in H1. specialize (H1 _ _ Hj). congruence.
  - rewrite lookup_app_r in Hi by lia.
    rewrite Forall_lookup in H2. specialize (H2 _ _ Hi). congruence.
Qed.

Lemma pruneEvent_not_entry (cfg : ModpackConfig) (cur : list string) (e : Event) :
  pruneEvent cfg cur e -> isEntryAction cfg e = false.
Proof.
  destruct e as [msg| | | | | | |p| | |]; cbn; try done.
  - by destruct msg.
  - by intros [_ ->].
Qed.

Lemma entryEvent_not_prune (cfg : ModpackConfig) (cur : list string) (m : ModConfig) (e : Event) :
  In m (mods cfg) -> entryEvent m cur e -> isPruneRemoval cfg e = false.
Proof.
  intros Hm [He|He].
  - destruct e as [msg| | | | | | |p| | |]; cbn in *; try done.
    + destruct msg; cbn in *; try done; by destruct He.
    + destruct He as [_ Hsw]. by eapply entry_is_listed.
  - destruct e as [msg| | | | | | | | | |]; cbn in *; try done. by destruct msg.
Qed.

(** C2, as the code has it.  In every trace of [syncMods] each deletion of
    the pruning pass comes before each action on an entry: the pruning block
    runs on the listing first, the download loop afterwards. *)
Theorem prune_before_entries (reg : Registry) (cfg : ModpackConfig) (fs : FS) :
  pruneBeforeEntries cfg (trace (syncMods reg cfg fs)).
Proof.
  unfold pruneBeforeEntries. rewrite syncMods_run.
  pose proof (pruneUnlisted_typed cfg (listing fs) fs) as Hp. unfold typed in Hp.
  pose proof (processAll_typed reg cfg (mods cfg) (listing fs)
                (final (pruneUnlisted cfg (listing fs) fs))) as Ha. unfold typed in Ha.
  set (hdr := [Log (CurrentMods (length (listing fs))); Log (RequiredMods (length (mods cfg)))]).
  assert (Hhdr : Forall (fun e => isEntryAction cfg e = false) hdr) by (by repeat constructor).
  assert (Hp' : Forall (fun e => isEntryAction cfg e = false)
                  (trace (pruneUnlisted cfg (listing fs) fs))).
  { eapply Forall_impl; [exact Hp|]. intros e. apply pruneEvent_not_entry. }
  assert (Ha' : Forall (fun e => isPruneRemoval cfg e = false)
                  (trace (processAll reg cfg (mods cfg) (listing fs)
                            (final (pruneUnlisted cfg (listing fs) fs))))).
  { eapply Forall_impl; [exact Ha|]. intros e (m & Hm & He). by eapply entryEvent_not_prune. }
  destruct (result (pruneUnlisted cfg (listing fs) fs));
    cbn [trace snd]; intros i j e1 e2 Hi Hj H1 H2.
  - rewrite app_assoc in Hi, Hj.
    eapply (split_order (isPruneRemoval cfg) (isEntryAction cfg)); [| |exact Hi|exact Hj|..]; try done.
    by apply Forall_app.
  - exfalso. assert (Hall : Forall (fun e => isEntryAction cfg e = false)
                              (hdr ++ trace (pruneUnlisted cfg (listing fs) fs)))
      by (by apply Forall_app).
    rewrite Forall_lookup in Hall. specialize (Hall _ _ Hj). congruence.
  - exfalso. assert (Hall : Forall (fun e => isEntryAction cfg e = false)
                              (hdr ++ trace (pruneUnlisted cfg (listing fs) fs)))
      by (by apply Forall_app).
    rewrite Forall_lookup in Hall. specialize (Hall _ _ Hj). congruence.
Qed.

Example sodium_scenario_trace :
  trace (syncMods sodiumRegistry (fabricPack None [sodium]) sodiumDirectory) =
    [Log (CurrentMods 2); Log (RequiredMods 1); Log PruneActive;
     Log (RemovingUnlisted "other.jar"); Remove "other.jar";
     Log (SearchingProject "Sodium"); SearchRequest "Sodium";
     Log (ProjectFound "Sodium" "AANobbMI"); VersionsRequest "AANobbMI";
     Log (SearchingLatest "Sodium"); Log (LatestFound "0.5.8");
     Log (RemovingOldVersion "sodium-fabric-0.5.7.jar"); Remove "sodium-fabric-0.5.7.jar";
     Log (Downloading "Sodium" "0.5.8"); Fetch "https://cdn.example/sodium-0.5.8";
     Create "sodium-fabric-0.5.8+mc1.20.1.jar";
     Write "sodium-fabric-0.5.8+mc1.20.1.jar" jarBytes;
     Log (Installed "sodium-fabric-0.5.8+mc1.20.1.jar")].
Proof. vm_compute. reflexivity. Qed.

Lemma prune_before_entries_witness :
  trace (syncMods sodiumRegistry (fabricPack None [sodium]) sodiumDirectory) !! 4%nat
    = Some (Remove "other.jar")
  /\ trace (syncMods sodiumRegistry (fabricPack None [sodium]) sodiumDirectory) !! 17%nat
     = Some (Log (Installed "sodium-fabric-0.5.8+mc1.20.1.jar"))
  /\ (4 < 17)%nat.
Proof.
  split; [vm_compute; reflexivity|]. split; [vm_compute; reflexivity|].
  apply (prune_before_entries sodiumRegistry (fabricPack None [sodium]) sodiumDirectory
           4%nat 17%nat (Remove "other.jar")
           (Log (Installed "sodium-fabric-0.5.8+mc1.20.1.jar")));
    vm_compute; reflexivity.
Defined.

(** C2, as stated, fails: in the scenario the unrelated jar is removed
    (event 4) before the entry is resolved, cleaned and installed (events 5
    to 17). *)
Lemma prune_is_not_after_entries :
  ~ pruneAfterEntries (fabricPack None [sodium])
      (trace (syncMods sodiumRegistry (fabricPack None [sodium]) sodiumDirectory)).
Proof.
  intros H. rewrite sodium_scenario_trace in H.
  specialize (H 4%nat 17%nat (Remove "other.jar")
                (Log (Installed "sodium-fabric-0.5.8+mc1.20.1.jar"))
                eq_refl eq_refl eq_refl eq_refl).
  lia.
Qed.

(** ** One outcome per entry *)

Lemma ends_bind {A B} (S O : Event -> Prop) (m : M A) (k : A -> M B) :
  sat (typed S) m -> sat noExit m -> (forall a, ends S O (k a)) -> ends S O (bind m k).
Proof.
  intros Ht Hn Hk fs. specialize (Ht fs). specialize (Hn fs).
  unfold typed, noExit in *. unfold bind.
  destruct (m fs) as [[[a|e|c] fs1] t1]; cbn in *; [| done | done].
  specialize (Hk a fs1).
  destruct (k a fs1) as [[[b|e|c] fs2] t2]; cbn in *; [| by apply Forall_app | done].
  destruct Hk as (pre & e & -> & Hpre & He).
  exists (t1 ++ pre), e. rewrite app_assoc. split; [done|]. split; [by apply Forall_app | done].
Qed.

Lemma ends_log (S O : Event -> Prop) (msg : Msg) : O (Log msg) -> ends S O (log msg).
Proof. intros H fs. cbn. exists [], (Log msg). by repeat split. Qed.

Lemma removeDuplicates_typed (m : ModConfig) (expected : string) (currentMods : list string) :
  sat (typed (stepEvent m currentMods))
      (forEach (duplicates m expected currentMods) removeDuplicate).
Proof.
  apply sat_forEach; [exact _|]. intros x Hx. apply duplicates_In in Hx as (Hin & Hsw & _).
  apply removeDuplicate_typed; cbn; auto.
Qed.

Lemma removeDuplicates_noExit (l : list string) : sat noExit (forEach l removeDuplicate).
Proof. unfold removeDuplicate. sat_go prim_solve. Qed.

Lemma presentNonEmpty_noExit (x : string) : sat noExit (presentNonEmpty x).
Proof. unfold presentNonEmpty. sat_go prim_solve. Qed.

Lemma log_noExit (msg : Msg) : sat noExit (log msg).
Proof. prim_solve. Qed.

Lemma stepEvent_not_outcome (m : ModConfig) (cur : list string) (e : Event) :
  stepEvent m cur e -> isOutcome e = false.
Proof.
  destruct e as [msg| | | | | | | | | |]; cbn; try done.
  destruct msg; cbn; try done; by intros [|].
Qed.

Lemma outcomes_steps (m : ModConfig) (cur : list string) (t : list Event) :
  Forall (stepEvent m cur) t -> outcomes t = [].
Proof.
  induction 1 as [|e t He _ IH]; [done|]. unfold outcomes in *. cbn.
  by rewrite (stepEvent_not_outcome _ _ _ He).
Qed.

(** The body of the [try] of [processModDownload]. *)
Lemma processModDownload_body_ends (reg : Registry) (cfg : ModpackConfig) (m : ModConfig)
    (cur : list string) :
  ends (stepEvent m cur) (successOf m)
    (t <- resolveTarget reg cfg m ;;
     forEach (duplicates m (expectedFileName t) cur) removeDuplicate ;;
     kept <- presentNonEmpty (Path.key (expectedFileName t)) ;;
     if kept then
       log (Verified (name m)
              (if Js.truthy (version m) then Js.orElse (version m) ""
               else versionDisplay t))
     else
       log (Downloading (name m) (versionDisplay t)) ;;
       downloadFile reg (targetUrl t) (Path.key (expectedFileName t)) ;;
       validateJarFile (Path.key (expectedFileName t)) ;;
       log (Installed (expectedFileName t))).
Proof.
  apply ends_bind; [| apply resolveTarget_noExit |].
  { eapply typed_mono; [|apply resolveTarget_typed]. intros e. apply queryEvent_step. }
  intros t. apply ends_bind; [apply removeDuplicates_typed | apply removeDuplicates_noExit |].
  intros _. apply ends_bind; [apply presentNonEmpty_typed | apply presentNonEmpty_noExit |].
  intros [|].
  - apply ends_log. left. eauto.
  - apply ends_bind; [apply typed_log; cbn; auto | apply log_noExit |]. intros _.
    apply ends_bind; [| apply downloadFile_noExit |].
    { eapply typed_mono; [|apply downloadFile_typed]. intros e. apply downloadEvent_step. }
    intros _. apply ends_bind; [apply validateJarFile_typed | apply validateJarFile_noExit |].
    intros _. apply ends_log. right. eauto.
Qed.

(** Whatever happens to an entry, [processModDownload] returns, and its
    trace holds exactly one outcome, which is the entry's. *)
Lemma processModDownload_outcome (reg : Registry) (cfg : ModpackConfig) (m : ModConfig)
    (cur : list string) (fs : FS) :
  result (processModDownload reg cfg m cur fs) = Val tt
  /\ exists e, outcomes (trace (processModDownload reg cfg m cur fs)) = [e] /\ outcomeOf m e.
Proof.
  pose proof (processModDownload_body_ends reg cfg m cur fs) as Hb.
  unfold processModDownload, tryCatch.
  match goal with
  | H : match result (?body fs) with _ => _ end |- _ =>
      destruct (body fs) as [[[[]|err|c] fs1] t1]; cbn in H |- *
  end.
  - destruct Hb as (pre & e & -> & Hpre & He). split; [done|].
    exists e. unfold outcomes. rewrite List.filter_app.
    fold (outcomes pre). rewrite (outcomes_steps _ _ _ Hpre).
    destruct He as [[s ->]|[f ->]]; cbn; (split; [done|]); unfold outcomeOf; eauto.
  - split; [done|]. exists (Log (ErrorProcessing (name m) err)).
    unfold outcomes. rewrite List.filter_app.
    fold (outcomes t1). rewrite (outcomes_steps _ _ _ Hb). cbn.
    split; [done|]. unfold outcomeOf. eauto.
  - done.
Qed.

Lemma processAll_outcomes (reg : Registry) (cfg : ModpackConfig) (ms : list ModConfig)
    (cur : list string) (fs : FS) :
  result (processAll reg cfg ms cur fs) = Val tt
  /\ Forall2 outcomeOf ms (outcomes (trace (processAll reg cfg ms cur fs))).
Proof.
  revert fs. induction ms as [|m ms IH]; intros fs.
  - split; [done | constructor].
  - unfold processAll. cbn [forEach].
    destruct (processModDownload_outcome reg cfg m cur fs) as (Hr & e & Ho & He).
    rewrite (bind_val _ _ fs (final (processModDownload reg cfg m cur fs)) tt
               (trace (processModDownload reg cfg m cur fs))).
    2:{ rewrite (run_eta (processModDownload reg cfg m cur fs)), Hr. done. }
    cbn [result trace fst snd]. fold (processAll reg cfg ms cur).
    destruct (IH (final (processModDownload reg cfg m cur fs))) as [IHr IHo].
    split; [done|].
    unfold outcomes in *. rewrite List.filter_app, Ho. cbn. by constructor.
Qed.

(** ** The listing and the pruning block *)

Lemma listing_In (fs : FS) (x : string) :
  In x (listing fs)
  <-> exists c, fs !! x = Some (RegularFile c) /\ Js.endsWith x ".jar" = true
                /\ Path.isEntryName x = true.
Proof.
  unfold listing. rewrite in_map_iff. split.
  - intros ([y n] & <- & Hf). apply filter_In in Hf as [Hin Hp].
    apply filter_In in Hin as [Hin Hname]. cbn in *.
    apply list_elem_of_In, elem_of_map_to_list in Hin.
    apply andb_true_iff in Hp as [Hfile Hjar].
    destruct n as [c|s]; [|done]. eauto.
  - intros (c & Hl & Hjar & Hname). exists (x, RegularFile c). split; [done|].
    apply filter_In. split.
    + apply filter_In. split; [|done]. by apply list_elem_of_In, elem_of_map_to_list.
    + cbn. by rewrite Hjar.
Qed.

Lemma NoDup_fst_filter {A B} (f : A * B -> bool) (l : list (A * B)) :
  NoDup (map fst l) -> NoDup (map fst (List.filter f l)).
Proof.
  induction l as [|a l IH]; cbn; [done|].
  rewrite NoDup_cons. intros [Hnin Hnd].
  destruct (f a); cbn; [|by apply IH].
  apply NoDup_cons. split; [|by apply IH].
  intros Hin. apply Hnin. apply list_elem_of_In in Hin. apply list_elem_of_In.
  apply in_map_iff in Hin as (b & Hb & Hin). apply in_map_iff.
  exists b. split; [done|]. by apply filter_In in Hin as [? _].
Qed.

Lemma listing_NoDup (fs : FS) : NoDup (listing fs).
Proof. unfold listing. do 2 apply NoDup_fst_filter. apply (NoDup_fst_map_to_list fs). Qed.

(** The loop of the pruning block over names that are all present and
    distinct: it returns, and deletes exactly the unlisted names. *)
Lemma pruneLoop_run (cfg : ModpackConfig) (l : list string) (fs : FS) :
  NoDup l ->
  (forall x, In x l -> is_Some (fs !! x)) ->
  let o := forEach l (fun currentMod =>
             if isUnlisted cfg currentMod then
               log (RemovingUnlisted currentMod) ;; remove currentMod
             else ret tt) fs in
  result o = Val tt
  /\ (forall p, In p l -> isUnlisted cfg p = true ->
        final o !! p = None /\ In (Remove p) (trace o))
  /\ (forall p, ~ (In p l /\ isUnlisted cfg p = true) -> final o !! p = fs !! p).
Proof.
  revert fs. induction l as [|x l IH]; intros fs Hnd Hpres; cbn [forEach].
  - cbn. split; [done|]. split; [intros p []|done].
  - apply NoDup_cons in Hnd as [Hx Hnd].
    assert (Hxl : ~ In x l) by (intros H; by apply Hx, list_elem_of_In).
    destruct (isUnlisted cfg x) eqn:Hu.
    + destruct (Hpres x (or_introl eq_refl)) as [n Hn].
      assert (Hstep : (log (RemovingUnlisted x) ;; remove x) fs =
                (Val tt, delete x fs, [Log (RemovingUnlisted x); Remove x])).
      { unfold bind, log, emit, remove. by rewrite Hn. }
      rewrite (bind_val _ _ _ _ _ _ Hstep). cbn [result final trace fst snd].
      destruct (IH (delete x fs) Hnd) as (Hr & Hdel & Hkeep).
      { intros y Hy. rewrite lookup_delete_ne by (intros ->; done). apply Hpres. by right. }
      split; [done|]. split.
      * intros p [<-|Hp] Hup.
        -- split; [|cbn; auto].
           rewrite Hkeep by (intros [? _]; done). apply lookup_delete_eq.
        -- destruct (Hdel p Hp Hup) as [? ?]. split; [done|]. cbn. auto.
      * intros p Hp. destruct (decide (p = x)) as [->|Hne].
        -- exfalso. apply Hp. split; [by left | done].
        -- rewrite Hkeep by (intros [? ?]; apply Hp; split; [by right | done]).
           by rewrite lookup_delete_ne.
    + rewrite (bind_val _ _ fs fs tt [] eq_refl). cbn [result final trace fst snd app].
      destruct (IH fs Hnd) as (Hr & Hdel & Hkeep).
      { intros y Hy. apply Hpres. by right. }
      split; [done|]. split.
      * intros p [<-|Hp] Hup; [congruence|]. by apply Hdel.
      * intros p Hp. apply Hkeep. intros [? ?]. apply Hp. split; [by right | done].
Qed.

(** The pruning block on the listing of the directory. *)
Lemma pruneUnlisted_run (cfg : ModpackConfig) (fs : FS) :
  let o := pruneUnlisted cfg (listing fs) fs in
  result o = Val tt
  /\ (forall p, pruneEnabled cfg = true -> In p (listing fs) -> isUnlisted cfg p = true ->
        final o !! p = None /\ In (Remove p) (trace o))
  /\ (forall p, ~ (pruneEnabled cfg = true /\ In p (listing fs) /\ isUnlisted cfg p = true) ->
        final o !! p = fs !! p).
Proof.
  unfold pruneUnlisted. destruct (pruneEnabled cfg) eqn:Hp.
  - rewrite (bind_val _ _ fs fs tt [Log PruneActive] eq_refl).
    cbn [result final trace fst snd].
    destruct (pruneLoop_run cfg (listing fs) fs (listing_NoDup fs)) as (Hr & Hdel & Hkeep).
    { intros x Hx. apply listing_In in Hx as (c & -> & _). eauto. }
    split; [done|]. split.
    + intros p _ Hin Hu. destruct (Hdel p Hin Hu) as [? ?]. split; [done|]. cbn. auto.
    + intros p Hn. apply Hkeep. tauto.
  - cbn. split; [done|]. split; [done|]. done.
Qed.

(** ** The whole pass *)

Lemma syncMods_typed (reg : Registry) (cfg : ModpackConfig) (fs : FS) :
  Forall (syncEvent cfg (listing fs)) (trace (syncMods reg cfg fs)).
Proof.
  rewrite syncMods_run.
  pose proof (pruneUnlisted_typed cfg (listing fs) fs) as Hp. unfold typed in Hp.
  pose proof (processAll_typed reg cfg (mods cfg) (listing fs)
                (final (pruneUnlisted cfg (listing fs) fs))) as Ha. unfold typed in Ha.
  assert (Hhdr : Forall (syncEvent cfg (listing fs))
            [Log (CurrentMods (length (listing fs))); Log (RequiredMods (length (mods cfg)))]).
  { constructor; [left; eauto|]. constructor; [left; eauto | constructor]. }
  assert (Hp' : Forall (syncEvent cfg (listing fs)) (trace (pruneUnlisted cfg (listing fs) fs))).
  { eapply Forall_impl; [exact Hp|]. intros e He. right. by left. }
  destruct (result (pruneUnlisted cfg (listing fs) fs)); cbn [trace snd];
    repeat (apply Forall_app; split); try done.
  eapply Forall_impl; [exact Ha|]. intros e He. right. by right.
Qed.

Lemma syncEvent_not_outcome_prefix (cfg : ModpackConfig) (cur : list string) (t : list Event) :
  Forall (pruneEvent cfg cur) t -> outcomes t = [].
Proof.
  induction 1 as [|e t He _ IH]; [done|]. unfold outcomes in *. cbn.
  destruct e as [msg| | | | | | | | | |]; cbn in *; try done. by destruct msg.
Qed.

(** An entry whose resolution fails leaves the directory as it found it. *)
Lemma failed_resolution_changes_nothing (reg : Registry) (cfg : ModpackConfig)
    (m : ModConfig) (cur : list string) (fs : FS) (e : Error) :
  result (resolveTarget reg cfg m fs) = Throw e ->
  final (processModDownload reg cfg m cur fs) = fs
  /\ trace (processModDownload reg cfg m cur fs)
     = trace (resolveTarget reg cfg m fs) ++ [Log (ErrorProcessing (name m) e)].
Proof.
  intros He.
  pose proof (resolveTarget_replays reg cfg m fs) as Hrep.
  pose proof (resolveTarget_typed reg cfg m fs) as Hty. unfold replays, typed in *.
  assert (Hsame : final (resolveTarget reg cfg m fs) = fs).
  { rewrite Hrep. clear Hrep. revert Hty. generalize (trace (resolveTarget reg cfg m fs)).
    intros t. revert fs He. induction t as [|ev t IH]; intros fs He Hty; [done|].
    apply Forall_cons in Hty as [Hev Hty]. cbn.
    assert (applyEvent fs ev = fs) as -> by (destruct ev; cbn in *; done).
    by apply (IH fs). }
  unfold processModDownload.
  erewrite tryCatch_throw.
  2:{ apply bind_throw. rewrite (run_eta (resolveTarget reg cfg m fs)), He, Hsame. done. }
  cbn. done.
Qed.

Lemma outcomes_queries (t : list Event) : Forall queryEvent t -> outcomes t = [].
Proof.
  induction 1 as [|ev t Hev _ IH]; [done|]. unfold outcomes in *. cbn.
  destruct ev as [msg| | | | | | | | | |]; cbn in *; try done.
  by destruct msg.
Qed.

(** The entries after a failed resolution are processed as if the failed
    entry were not in the manifest. *)
Lemma failed_entry_is_skipped (reg : Registry) (cfg : ModpackConfig) (m : ModConfig)
    (ms : list ModConfig) (cur : list string) (fs : FS) (e : Error) :
  result (resolveTarget reg cfg m fs) = Throw e ->
  final (processAll reg cfg (m :: ms) cur fs) = final (processAll reg cfg ms cur fs)
  /\ outcomes (trace (processAll reg cfg (m :: ms) cur fs))
     = Log (ErrorProcessing (name m) e) :: outcomes (trace (processAll reg cfg ms cur fs)).
Proof.
  intros He.
  destruct (failed_resolution_changes_nothing reg cfg m cur fs e He) as [Hf Ht].
  destruct (processModDownload_outcome reg cfg m cur fs) as [Hr _].
  unfold processAll. cbn [forEach].
  rewrite (bind_val _ _ fs fs tt (trace (processModDownload reg cfg m cur fs))).
  2:{ rewrite (run_eta (processModDownload reg cfg m cur fs)), Hr, Hf. done. }
  cbn [final trace fst snd]. split; [done|].
  unfold outcomes. rewrite Ht, !List.filter_app. cbn [List.filter isOutcome isOutcomeMsg app].
  pose proof (outcomes_queries _ (resolveTarget_typed reg cfg m fs)) as Hq.
  unfold outcomes in Hq.
  by rewrite Hq.
Qed.

(** The first entry names an unknown project: its error is logged, the
    second entry is verified and the third is installed. *)
Example isolation_scenario :
  let fs : FS := {["sodium-fabric-0.5.8+mc1.20.1.jar" := RegularFile jarBytes]} in
  outcomes (trace (syncMods sodiumRegistry (fabricPack None threeEntries) fs)) =
    [Log (ErrorProcessing "Lithium"
            (ModrinthUrlFailed "Lithium" (NetworkError "versions")));
     Log (Verified "Sodium" "0.5.8");
     Log (Installed "custom-mod-1.0.0.jar")].
Proof. vm_compute. reflexivity. Qed.

Lemma syncEvent_removal (cfg : ModpackConfig) (cur : list string) (q : string) :
  syncEvent cfg cur (Remove q) -> In q cur.
Proof.
  intros [(n & [?|?])|[[? _]|(m & _ & [[? _]|?])]]; done.
Qed.

Lemma syncEvent_no_rename (cfg : ModpackConfig) (cur : list string) (s d : string) :
  ~ syncEvent cfg cur (Rename s d).
Proof.
  intros [(n & [?|?])|[?|(m & _ & [?|?])]]; done.
Qed.

(** Replaying events that neither remove nor move [p] keeps [p] in the
    directory. *)
Lemma replay_keeps (p : string) (t : list Event) (fs : FS) :
  Forall (fun e => e <> Remove p /\ forall s d, e <> Rename s d) t ->
  is_Some (fs !! p) -> is_Some (replay t fs !! p).
Proof.
  revert fs. induction t as [|e t IH]; intros fs Ht Hp; [done|].
  apply Forall_cons in Ht as [[Hrm Hrn] Ht]. cbn. apply IH; [done|].
  destruct e as [| | | | |q|q d|q| | |]; cbn; try done.
  - destruct (decide (q = p)) as [->|Hne]; [by rewrite lookup_insert_eq | by rewrite lookup_insert_ne].
  - destruct (fs !! q) as [[old|]|]; try done.
    destruct (decide (q = p)) as [->|Hne]; [by rewrite lookup_insert_eq | by rewrite lookup_insert_ne].
  - rewrite lookup_delete_ne; [done | congruence].
  - by destruct (Hrn src dst).
Qed.

Lemma removals_from_listing (reg : Registry) (cfg : ModpackConfig) (fs : FS) (q : string) :
  In (Remove q) (trace (syncMods reg cfg fs)) -> In q (listing fs).
Proof.
  intros Hin. pose proof (syncMods_typed reg cfg fs) as Hty.
  rewrite List.Forall_forall in Hty. by eapply syncEvent_removal, Hty.
Qed.

Lemma sync_keeps_unremoved (reg : Registry) (cfg : ModpackConfig) (fs : FS) (p : string) :
  ~ In (Remove p) (trace (syncMods reg cfg fs)) ->
  is_Some (fs !! p) -> is_Some (final (syncMods reg cfg fs) !! p).
Proof.
  intros Hno Hp. rewrite (syncMods_replays reg cfg fs). apply replay_keeps; [|done].
  pose proof (syncMods_typed reg cfg fs) as Hty.
  apply List.Forall_forall. intros e He. split.
  - intros ->. done.
  - intros s d ->. rewrite List.Forall_forall in Hty. by eapply syncEvent_no_rename, Hty.
Qed.

(** C10.  Every removal of a pass, with pruning on or off, hits a name of
    the listing taken at its start, that is a regular file whose name ends in
    [.jar]; so an entry of the directory whose name does not end in [.jar] is
    never removed and is still there when the pass ends. *)
Theorem only_listed_jars_are_deleted (reg : Registry) (cfg : ModpackConfig) (fs : FS) :
  (forall q, In (Remove q) (trace (syncMods reg cfg fs)) ->
     exists c, fs !! q = Some (RegularFile c) /\ Js.endsWith q ".jar" = true)
  /\ (forall p, Js.endsWith p ".jar" = false ->
        ~ In (Remove p) (trace (syncMods reg cfg fs))
        /\ (is_Some (fs !! p) -> is_Some (final (syncMods reg cfg fs) !! p))).
Proof.
  assert (Hrm : forall q, In (Remove q) (trace (syncMods reg cfg fs)) ->
            exists c, fs !! q = Some (RegularFile c) /\ Js.endsWith q ".jar" = true).
  { intros q Hq. apply (removals_from_listing reg cfg), listing_In in Hq as (c & Hc & Hjar & _).
    eauto. }
  split; [exact Hrm|]. intros p Hp.
  assert (Hno : ~ In (Remove p) (trace (syncMods reg cfg fs))).
  { intros Hin. destruct (Hrm p Hin) as (c & _ & Hjar). congruence. }
  split; [exact Hno | by apply sync_keeps_unremoved].
Qed.

Lemma only_listed_jars_are_deleted_witness :
  ~ In (Remove "notes.txt")
      (trace (syncMods sodiumRegistry (fabricPack None [sodium]) sodiumDirectory))
  /\ is_Some (final (syncMods sodiumRegistry (fabricPack None [sodium]) sodiumDirectory)
                !! "notes.txt").
Proof.
  destruct (only_listed_jars_are_deleted sodiumRegistry (fabricPack None [sodium]) sodiumDirectory)
    as [_ Hkeep].
  destruct (Hkeep "notes.txt") as [Hno Hsome]; [reflexivity|].
  split; [exact Hno|]. apply Hsome. vm_compute. eauto.
Defined.

(** ** The effect of one entry on the directory *)

Lemma resolveTarget_pure (reg : Registry) (cfg : ModpackConfig) (m : ModConfig) :
  pureM (resolveTarget reg cfg m).
Proof.
  unfold resolveTarget, getModrinthDownloadUrl, searchModrinthProject,
    getCurseForgeDownloadUrl, log.
  pure_go.
Qed.

Lemma resolveTarget_run (reg : Registry) (cfg : ModpackConfig) (m : ModConfig) (fs : FS) :
  resolveTarget reg cfg m fs =
    (result (resolveTarget reg cfg m ∅), fs, trace (resolveTarget reg cfg m ∅)).
Proof.
  destruct (resolveTarget_pure reg cfg m) as (r & t & H). by rewrite !H.
Qed.

Lemma removeAll_notin (l : list string) (fs : FS) (p : string) :
  ~ In p l -> removeAll l fs !! p = fs !! p.
Proof.
  revert fs. induction l as [|x l IH]; intros fs Hnin; [done|]. cbn.
  rewrite IH by (intros ?; apply Hnin; by right).
  apply lookup_delete_ne. intros ->. apply Hnin. by left.
Qed.

Lemma removeAll_In (l : list string) (fs : FS) (p : string) :
  In p l -> removeAll l fs !! p = None.
Proof.
  revert fs. induction l as [|x l IH]; intros fs; [done|]. cbn.
  destruct (in_dec string_dec p l) as [Hin|Hnin]; [intros _; by apply IH|].
  intros [->|?]; [|done].
  fold (removeAll l (delete p fs)). rewrite removeAll_notin by done.
  apply lookup_delete_eq.
Qed.

Lemma removeDuplicates_run (l : list string) (fs : FS) :
  result (forEach l removeDuplicate fs) = Val tt
  /\ final (forEach l removeDuplicate fs) = removeAll l fs.
Proof.
  revert fs. induction l as [|x l IH]; intros fs; [done|]. cbn [forEach].
  assert (Hx : exists t, removeDuplicate x fs = (Val tt, delete x fs, t)).
  { unfold removeDuplicate, bind, tryCatch, log, emit, remove.
    destruct (fs !! x) eqn:E; cbn; [eauto|].
    rewrite delete_id by done. eauto. }
  destruct Hx as [t Hx]. rewrite (bind_val _ _ _ _ _ _ Hx). cbn [result final fst snd].
  apply IH.
Qed.

Lemma presentNonEmpty_run (x : string) (fs : FS) :
  presentNonEmpty x fs =
    (Val (match fs !! x with Some n => (0 <? nodeSize n)%nat | None => false end), fs, []).
Proof.
  unfold presentNonEmpty, tryCatch, bind, stat, ret.
  destruct (fs !! x) eqn:E; cbn; rewrite ?E; done.
Qed.

Lemma presentNonEmpty_true (x : string) (fs : FS) :
  match fs !! x with Some n => (0 <? nodeSize n)%nat | None => false end = true
  <-> nonEmpty (fs !! x).
Proof.
  unfold nonEmpty. destruct (fs !! x) as [n|].
  - rewrite Nat.ltb_lt. split; [eauto | by intros (n' & [= <-] & ?)].
  - split; [done | by intros (n' & [=] & _)].
Qed.

(** Replaying events that do not touch [p] leaves [p] as it is. *)
Lemma replay_frame (p : string) (t : list Event) (fs : FS) :
  Forall (fun e => ~ touches p e) t -> replay t fs !! p = fs !! p.
Proof.
  revert fs. induction t as [|e t IH]; intros fs Ht; [done|].
  apply Forall_cons in Ht as [He Ht]. cbn. rewrite (IH _ Ht).
  destruct e as [| | | | |q|q d|q|s d| |]; cbn in *; try done.
  - by rewrite lookup_insert_ne.
  - destruct (fs !! q) as [[old|]|]; try done. by rewrite lookup_insert_ne.
  - by rewrite lookup_delete_ne.
  - destruct (fs !! s); [|done].
    rewrite lookup_insert_ne by tauto. rewrite lookup_delete_ne by tauto. done.
Qed.

Lemma downloadFile_frame (reg : Registry) (u x p : string) (fs : FS) :
  p <> x -> final (downloadFile reg u x fs) !! p = fs !! p.
Proof.
  intros Hne. rewrite (downloadFile_replays reg u x fs). apply replay_frame.
  eapply Forall_impl; [apply (downloadFile_typed reg u x fs)|].
  intros e He. destruct e; cbn in *; try done; congruence.
Qed.

Lemma validateJarFile_ok (x : string) (fs : FS) :
  result (validateJarFile x fs) = Val tt -> nonEmpty (fs !! x).
Proof.
  rewrite validateJarFile_run. cbn.
  destruct (fs !! x) as [[[|b c]|[|n]]|]; try done.
  intros _. eexists. split; [done|]. cbn. lia.
Qed.

Lemma installTarget_run (reg : Registry) (m : ModConfig) (t : Target) (fs : FS) :
  final (installTarget reg m t fs)
    = final (downloadFile reg (targetUrl t) (targetEntry t) fs)
  /\ (result (installTarget reg m t fs) = Val tt ->
        nonEmpty (final (installTarget reg m t fs) !! targetEntry t))
  /\ (forall c, result (installTarget reg m t fs) <> Exit c).
Proof.
  unfold installTarget, bind, log, emit.
  pose proof (downloadFile_noExit reg (targetUrl t) (targetEntry t) fs) as Hd.
  destruct (downloadFile reg (targetUrl t) (targetEntry t) fs) as [[[[]|e|c] fs2] t2];
    cbn in *; try done.
  pose proof (validateJarFile_no_mutation (targetEntry t) fs2) as [Hf _].
  pose proof (validateJarFile_ok (targetEntry t) fs2) as Hok.
  pose proof (validateJarFile_noExit (targetEntry t) fs2) as Hv.
  destruct (validateJarFile (targetEntry t) fs2) as [[[[]|e|c] fs3] t3];
    cbn in *; subst; try done.
  all: split; [done|]; split; [intros _; by apply Hok | done].
Qed.

(** [processModDownload] on an entry that resolves: the other variants
    are removed, then the file is kept or installed. *)
Lemma processModDownload_resolved (reg : Registry) (cfg : ModpackConfig) (m : ModConfig)
    (cur : list string) (fs : FS) (t : Target) :
  targetOf reg cfg m = Some t ->
  let dups := duplicates m (expectedFileName t) cur in
  let fs1 := removeAll dups fs in
  let i := installTarget reg m t fs1 in
  processModDownload reg cfg m cur fs =
    if keeps fs1 (targetEntry t)
    then (Val tt, fs1,
          trace (resolveTarget reg cfg m ∅) ++ trace (forEach dups removeDuplicate fs)
            ++ [Log (verifiedMsg m t)])
    else (match result i with Throw _ => Val tt | r => r end,
          final i,
          trace (resolveTarget reg cfg m ∅) ++ trace (forEach dups removeDuplicate fs)
            ++ trace i
            ++ match result i with
               | Throw e => [Log (ErrorProcessing (name m) e)]
               | _ => []
               end).
Proof.
  intros Ht dups fs1 i. unfold targetOf in Ht.
  assert (Hres : resolveTarget reg cfg m fs = (Val t, fs, trace (resolveTarget reg cfg m ∅))).
  { rewrite resolveTarget_run. by destruct (result (resolveTarget reg cfg m ∅)); simplify_eq. }
  destruct (removeDuplicates_run dups fs) as [Hdr Hdf].
  assert (Hdup : forEach dups removeDuplicate fs =
            (Val tt, fs1, trace (forEach dups removeDuplicate fs))).
  { rewrite (run_eta (forEach dups removeDuplicate fs)) at 1. by rewrite Hdr, Hdf. }
  unfold processModDownload, tryCatch.
  rewrite (bind_val _ _ _ _ _ _ Hres).
  fold (targetEntry t). fold dups. rewrite (bind_val _ _ _ _ _ _ Hdup).
  rewrite (bind_val _ _ _ _ _ _ (presentNonEmpty_run (targetEntry t) fs1)).
  fold (keeps fs1 (targetEntry t)).
  destruct (keeps fs1 (targetEntry t)); cbn [result final trace fst snd app].
  - unfold log, emit, verifiedMsg. reflexivity.
  - fold (installTarget reg m t). fold i.
    destruct i as [[[[]|e|c] fi] ti]; cbn [result final trace fst snd log emit];
      by rewrite ?app_nil_r, <- ?app_assoc.
Qed.

(** [processModDownload] on an entry that does not resolve. *)
Lemma processModDownload_unresolved (reg : Registry) (cfg : ModpackConfig) (m : ModConfig)
    (cur : list string) (fs : FS) :
  targetOf reg cfg m = None ->
  exists e,
    processModDownload reg cfg m cur fs =
      (Val tt, fs, trace (resolveTarget reg cfg m ∅) ++ [Log (ErrorProcessing (name m) e)]).
Proof.
  intros Ht. unfold targetOf in Ht.
  pose proof (resolveTarget_noExit reg cfg m ∅) as Hn. unfold noExit in Hn.
  destruct (result (resolveTarget reg cfg m ∅)) as [t|e|c] eqn:Hr; [done| |done].
  exists e.
  assert (Hres : resolveTarget reg cfg m fs = (Throw e, fs, trace (resolveTarget reg cfg m ∅))).
  { by rewrite resolveTarget_run, Hr. }
  unfold processModDownload.
  rewrite (tryCatch_throw _ _ _ _ _ _ (bind_throw _ _ _ _ _ _ Hres)). reflexivity.
Qed.

(** A download that returns has put a file at the path. *)
Lemma downloadFile_creates (reg : Registry) (u x : string) (fs : FS) :
  result (downloadFile reg u x fs) = Val tt ->
  exists c, final (downloadFile reg u x fs) !! x = Some (RegularFile c).
Proof.
  unfold downloadFile, bind, emit, openWrite, writeFile, ret, throw.
  destruct (fetchUrl reg u) as [|[|] [b|]]; cbn; try done.
  - destruct (fs !! x) as [[c|n]|] eqn:E; cbn; rewrite ?E, ?lookup_insert_eq; try done;
      destruct (complete b); cbn; try done; intros _; rewrite lookup_insert_eq; eauto.
  - destruct (fs !! x) as [[c|n]|] eqn:E; cbn; done.
Qed.

(** Whatever the validation says afterwards, the downloaded file is still
    at the expected path when [processModDownload] ends: nothing on this path
    removes it. *)
Lemma downloaded_file_stays (reg : Registry) (cfg : ModpackConfig) (m : ModConfig)
    (cur : list string) (fs : FS) (t : Target) :
  targetOf reg cfg m = Some t ->
  let fs1 := removeAll (duplicates m (expectedFileName t) cur) fs in
  keeps fs1 (targetEntry t) = false ->
  result (downloadFile reg (targetUrl t) (targetEntry t) fs1) = Val tt ->
  final (processModDownload reg cfg m cur fs) !! targetEntry t
  = final (downloadFile reg (targetUrl t) (targetEntry t) fs1) !! targetEntry t
  /\ is_Some (final (processModDownload reg cfg m cur fs) !! targetEntry t).
Proof.
  intros Ht fs1 Hk Hd.
  rewrite (processModDownload_resolved reg cfg m cur fs t Ht). fold fs1. rewrite Hk.
  cbn [final fst snd].
  destruct (installTarget_run reg m t fs1) as (-> & _ & _).
  split; [done|]. destruct (downloadFile_creates _ _ _ _ Hd) as [c ->]. eauto.
Qed.

(** ** The pruning toggle *)

Lemma pruneEnabled_iff (cfg : ModpackConfig) :
  pruneEnabled cfg = true <-> prune cfg <> Some false.
Proof. unfold pruneEnabled. destruct (prune cfg) as [[|]|]; split; congruence. Qed.

Lemma pruneUnlisted_disabled (cfg : ModpackConfig) (cur : list string) (fs : FS) :
  prune cfg = Some false -> pruneUnlisted cfg cur fs = (Val tt, fs, [Log SafeMode]).
Proof. intros H. unfold pruneUnlisted, pruneEnabled. by rewrite H. Qed.

(** No entry removes an unlisted file. *)
Lemma unlisted_not_duplicate (cfg : ModpackConfig) (m : ModConfig) (x f : string)
    (cur : list string) :
  In m (mods cfg) -> isUnlisted cfg f = true -> ~ In f (duplicates m x cur).
Proof.
  intros Hm Hu Hin. apply duplicates_In in Hin as (_ & Hsw & _).
  rewrite (entry_is_listed cfg m f Hm Hsw) in Hu. done.
Qed.

(** The entries leave alone an unlisted file that none of their resolved
    names denotes, and an unlisted entry that [Deno.stat] finds with a size
    above zero. *)
Lemma processAll_unlisted (reg : Registry) (cfg : ModpackConfig) (ms : list ModConfig)
    (cur : list string) (f : string) (fs : FS) :
  (forall m, In m ms -> In m (mods cfg)) ->
  isUnlisted cfg f = true ->
  nonEmpty (fs !! f) \/ ~ writesTo reg cfg f ->
  final (processAll reg cfg ms cur fs) !! f = fs !! f.
Proof.
  revert fs. induction ms as [|m ms IH]; intros fs Hsub Hu Hcase; [done|].
  unfold processAll. cbn [forEach].
  destruct (processModDownload_outcome reg cfg m cur fs) as [Hr _].
  rewrite (bind_val _ _ fs (final (processModDownload reg cfg m cur fs)) tt
             (trace (processModDownload reg cfg m cur fs))).
  2:{ rewrite (run_eta (processModDownload reg cfg m cur fs)), Hr. done. }
  cbn [final fst snd]. fold (processAll reg cfg ms cur).
  assert (Hm : In m (mods cfg)) by (apply Hsub; by left).
  assert (Hstep : final (processModDownload reg cfg m cur fs) !! f = fs !! f).
  { destruct (targetOf reg cfg m) as [t|] eqn:Ht.
    - rewrite (processModDownload_resolved reg cfg m cur fs t Ht).
      assert (Hnd : ~ In f (duplicates m (expectedFileName t) cur))
        by (by apply (unlisted_not_duplicate cfg)).
      pose proof (removeAll_notin _ fs f Hnd) as Hsame.
      destruct (keeps _ _) eqn:Hk; cbn [final fst snd]; [done|].
      destruct (installTarget_run reg m t
                  (removeAll (duplicates m (expectedFileName t) cur) fs)) as (-> & _ & _).
      destruct (decide (f = targetEntry t)) as [->|Hne].
      + exfalso. destruct Hcase as [Hne|Hno].
        * apply presentNonEmpty_true in Hne. unfold keeps in Hk.
          rewrite Hsame in Hk. congruence.
        * apply Hno. by exists m, t.
      + by rewrite downloadFile_frame.
    - by destruct (processModDownload_unresolved reg cfg m cur fs Ht) as [e ->]. }
  rewrite IH; [done | intros m' Hm'; apply Hsub; by right | done |].
  rewrite Hstep. done.
Qed.

(** C7, as the code has it.  For a file of the listing whose base name
    contains the name of no entry: with [prune] true or absent the pruning
    block removes it (the removal is in the trace of the pass and the file is
    gone when the block ends); with [prune] false the pruning block changes
    nothing, the pass never removes the file and the file is still there when
    the pass ends.  Its content is unchanged when it is not empty; when it is
    empty, its content is unchanged provided every resolved file name denotes
    an entry of the directory and none denotes this file, be it under another
    spelling of its name such as [./other.jar]. *)
Theorem orphan_pruning_toggle (reg : Registry) (cfg : ModpackConfig) (fs : FS) (f : string) :
  In f (listing fs) ->
  isUnlisted cfg f = true ->
  (prune cfg <> Some false ->
     In (Remove f) (trace (syncMods reg cfg fs))
     /\ final (pruneUnlisted cfg (listing fs) fs) !! f = None)
  /\ (prune cfg = Some false ->
        final (pruneUnlisted cfg (listing fs) fs) = fs
        /\ ~ In (Remove f) (trace (syncMods reg cfg fs))
        /\ is_Some (final (syncMods reg cfg fs) !! f)
        /\ (nonEmpty (fs !! f) \/ (targetsInDirectory reg cfg /\ ~ writesTo reg cfg f) ->
              final (syncMods reg cfg fs) !! f = fs !! f)).
Proof.
  intros Hin Hu. split.
  - intros Hp. apply pruneEnabled_iff in Hp.
    destruct (pruneUnlisted_run cfg fs) as (Hr & Hdel & _).
    destruct (Hdel f Hp Hin Hu) as [Hnone Hrm]. split; [|done].
    rewrite syncMods_run, Hr. cbn [trace snd]. rewrite !in_app_iff. right. by left.
  - intros Hp. rewrite (pruneUnlisted_disabled cfg _ fs Hp). cbn [final fst snd].
    assert (Hno : ~ In (Remove f) (trace (syncMods reg cfg fs))).
    { rewrite syncMods_run, (pruneUnlisted_disabled cfg _ fs Hp).
      cbn [result final trace fst snd]. rewrite !in_app_iff. cbn [In].
      intros [[?|[?|[]]]|[[?|[]]|Hrm]]; try done.
      pose proof (processAll_typed reg cfg (mods cfg) (listing fs) fs) as Hty.
      unfold typed in Hty. rewrite List.Forall_forall in Hty.
      destruct (Hty _ Hrm) as (m & Hm & [[_ Hsw]|?]); [|done].
      rewrite (entry_is_listed cfg m f Hm Hsw) in Hu. done. }
    assert (Hsome : is_Some (fs !! f)).
    { apply listing_In in Hin as (c & -> & _). eauto. }
    split; [done|]. split; [done|]. split; [by apply sync_keeps_unremoved|].
    intros Hcase. rewrite syncMods_run, (pruneUnlisted_disabled cfg _ fs Hp).
    cbn [result final trace fst snd]. apply (processAll_unlisted reg cfg); [done | done |].
    destruct Hcase as [Hne | [_ Hnw]]; [by left | by right].
Qed.

Lemma orphan_pruning_toggle_witness :
  In (Remove "other.jar")
    (trace (syncMods sodiumRegistry (fabricPack None [sodium]) sodiumDirectory))
  /\ final (syncMods sodiumRegistry (fabricPack (Some false) [sodium]) sodiumDirectory)
       !! "other.jar" = Some (RegularFile jarBytes).
Proof.
  split.
  - destruct (orphan_pruning_toggle sodiumRegistry (fabricPack None [sodium])
                sodiumDirectory "other.jar") as [Hon _].
    + vm_compute. auto.
    + reflexivity.
    + apply Hon. discriminate.
  - destruct (orphan_pruning_toggle sodiumRegistry (fabricPack (Some false) [sodium])
                sodiumDirectory "other.jar") as [_ Hoff].
    + vm_compute. auto.
    + reflexivity.
    + destruct (Hoff eq_refl) as (_ & _ & _ & Hsame).
      rewrite Hsame; [reflexivity|]. left. eexists. split; [reflexivity|]. cbn. lia.
Defined.

(** C7, as stated, fails: with pruning off, an empty file that an entry
    resolves to, while its base name contains no entry's name, is filled by
    that entry's download. *)
Lemma empty_orphan_is_overwritten :
  let m := directMod "Mod Menu" "https://example.com/modmenu.jar" "modmenu-7.2.2.jar" in
  let cfg := fabricPack (Some false) [m] in
  let fs : FS := {["modmenu-7.2.2.jar" := RegularFile []]} in
  In "modmenu-7.2.2.jar" (listing fs)
  /\ isUnlisted cfg "modmenu-7.2.2.jar" = true
  /\ fs !! "modmenu-7.2.2.jar" = Some (RegularFile [])
  /\ final (syncMods (constantHost jarBytes) cfg fs) !! "modmenu-7.2.2.jar"
     = Some (RegularFile jarBytes).
Proof.
  intros m cfg fs. split; [vm_compute; auto|].
  split; [vm_compute; reflexivity|]. split; vm_compute; reflexivity.
Qed.

(** The same under another spelling of the name: the entry resolves to
    [./other.jar], which the file system takes for the entry [other.jar]. *)
Example aliased_name_overwrites_empty_orphan :
  let m := directMod "Mod Menu" "https://example.com/modmenu.jar" "./other.jar" in
  let cfg := fabricPack (Some false) [m] in
  let fs : FS := {["other.jar" := RegularFile []]} in
  In "other.jar" (listing fs)
  /\ isUnlisted cfg "other.jar" = true
  /\ ~ resolvesTo (constantHost jarBytes) cfg "other.jar"
  /\ writesTo (constantHost jarBytes) cfg "other.jar"
  /\ final (syncMods (constantHost jarBytes) cfg fs) !! "other.jar"
     = Some (RegularFile jarBytes).
Proof.
  intros m cfg fs. split; [vm_compute; auto|]. split; [vm_compute; reflexivity|].
  split; [|split].
  - intros (m' & t & [<-|[]] & Ht & Hf). vm_compute in Ht. injection Ht as <-.
    discriminate Hf.
  - exists m. eexists. split; [by left|]. split; [vm_compute; reflexivity|].
    vm_compute. reflexivity.
  - vm_compute. reflexivity.
Qed.

(** ** Two passes in a row *)

Lemma queryEvent_quiet (e : Event) : queryEvent e -> isMutation e = false.
Proof. by destruct e. Qed.

(** A file name that denotes the entry of that name is kept under it. *)
Lemma plain_key (f : string) : Path.entryOf f = Some f -> Path.key f = f.
Proof. intros H. unfold Path.key. by rewrite H. Qed.

Lemma plainTargets_entry (reg : Registry) (cfg : ModpackConfig) (m : ModConfig) (t : Target) :
  plainTargets reg cfg -> In m (mods cfg) -> targetOf reg cfg m = Some t ->
  targetEntry t = expectedFileName t.
Proof. intros Hpl Hm Ht. apply plain_key. by apply (Hpl m). Qed.

(** On a converged directory an entry is verified and nothing else
    happens. *)
Lemma processModDownload_converged (reg : Registry) (cfg : ModpackConfig) (m : ModConfig)
    (fs : FS) :
  plainTargets reg cfg ->
  converged reg cfg fs -> In m (mods cfg) ->
  final (processModDownload reg cfg m (listing fs) fs) = fs
  /\ result (processModDownload reg cfg m (listing fs) fs) = Val tt
  /\ quietPass (trace (processModDownload reg cfg m (listing fs) fs)).
Proof.
  intros Hpl (Hfiles & Hdups & _) Hm.
  destruct (Hfiles m Hm) as (t & Ht & Hne).
  rewrite (processModDownload_resolved reg cfg m (listing fs) fs t Ht).
  rewrite (plainTargets_entry reg cfg m t Hpl Hm Ht).
  rewrite (Hdups m t Hm Ht). cbn [removeAll fold_left forEach].
  apply presentNonEmpty_true in Hne. unfold keeps. rewrite Hne.
  cbn [final result trace fst snd ret]. split; [done|]. split; [done|].
  unfold quietPass. rewrite app_nil_l. apply Forall_app. split; [|by repeat constructor].
  eapply Forall_impl; [apply (resolveTarget_typed reg cfg m ∅)|]. apply queryEvent_quiet.
Qed.

Lemma processAll_converged (reg : Registry) (cfg : ModpackConfig) (ms : list ModConfig)
    (fs : FS) :
  plainTargets reg cfg ->
  converged reg cfg fs -> (forall m, In m ms -> In m (mods cfg)) ->
  final (processAll reg cfg ms (listing fs) fs) = fs
  /\ quietPass (trace (processAll reg cfg ms (listing fs) fs)).
Proof.
  intros Hpl Hc. induction ms as [|m ms IH]; intros Hsub.
  - split; [done | constructor].
  - unfold processAll. cbn [forEach].
    destruct (processModDownload_converged reg cfg m fs Hpl Hc) as (Hf & Hr & Hq);
      [apply Hsub; by left|].
    rewrite (bind_val _ _ fs fs tt (trace (processModDownload reg cfg m (listing fs) fs))).
    2:{ rewrite (run_eta (processModDownload reg cfg m (listing fs) fs)), Hr, Hf. done. }
    cbn [final trace fst snd]. fold (processAll reg cfg ms (listing fs)).
    destruct IH as [IHf IHq]; [intros m' Hm'; apply Hsub; by right|].
    split; [done | by apply Forall_app].
Qed.

(** A pass over a converged directory changes nothing, downloads nothing
    and deletes nothing. *)
Lemma converged_pass_is_quiet (reg : Registry) (cfg : ModpackConfig) (fs : FS) :
  plainTargets reg cfg ->
  converged reg cfg fs ->
  final (syncMods reg cfg fs) = fs /\ quietPass (trace (syncMods reg cfg fs)).
Proof.
  intros Hpl Hc. rewrite syncMods_run.
  destruct (pruneUnlisted_run cfg fs) as (Hr & _ & Hkeep). rewrite Hr.
  assert (Hlisted : forall p, ~ (pruneEnabled cfg = true /\ In p (listing fs)
                                 /\ isUnlisted cfg p = true)).
  { intros p (He & Hin & Hu). destruct Hc as (_ & _ & Hl). rewrite (Hl He p Hin) in Hu. done. }
  assert (Hfp : final (pruneUnlisted cfg (listing fs) fs) = fs).
  { apply map_eq. intros p. by apply Hkeep. }
  rewrite Hfp. cbn [result final trace fst snd].
  destruct (processAll_converged reg cfg (mods cfg) fs Hpl Hc) as [Hf Hq]; [done|].
  split; [done|]. unfold quietPass. apply Forall_app. split; [by repeat constructor|].
  apply Forall_app. split; [|done].
  destruct (pruneEnabled cfg) eqn:Hen.
  - eapply Forall_impl; [apply (pruneUnlisted_typed cfg (listing fs) fs)|].
    intros e He. destruct e as [| | | | | | |p| | |]; cbn in *; try done.
    destruct He as [Hin Hu]. by destruct (Hlisted p).
  - unfold pruneUnlisted. rewrite Hen. by repeat constructor.
Qed.

Lemma noFailure_app (t1 t2 : list Event) :
  noFailure (t1 ++ t2) <-> noFailure t1 /\ noFailure t2.
Proof. unfold noFailure. apply Forall_app. Qed.

(** What an entry that does not fail does to the directory, when its
    file name is the name of the entry it denotes. *)
Lemma processModDownload_success (reg : Registry) (cfg : ModpackConfig) (m : ModConfig)
    (cur : list string) (fs : FS) :
  (forall t, targetOf reg cfg m = Some t -> targetEntry t = expectedFileName t) ->
  noFailure (trace (processModDownload reg cfg m cur fs)) ->
  exists t,
    targetOf reg cfg m = Some t
    /\ nonEmpty (final (processModDownload reg cfg m cur fs) !! expectedFileName t)
    /\ (forall p, In p (duplicates m (expectedFileName t) cur) ->
          final (processModDownload reg cfg m cur fs) !! p = None)
    /\ (forall p, p <> expectedFileName t ->
          ~ In p (duplicates m (expectedFileName t) cur) ->
          final (processModDownload reg cfg m cur fs) !! p = fs !! p)
    /\ (nonEmpty (fs !! expectedFileName t) ->
          final (processModDownload reg cfg m cur fs) !! expectedFileName t
          = fs !! expectedFileName t).
Proof.
  intros Hplain Hok. destruct (targetOf reg cfg m) as [t|] eqn:Ht.
  2:{ destruct (processModDownload_unresolved reg cfg m cur fs Ht) as [e He].
      rewrite He in Hok. cbn in Hok. apply noFailure_app in Hok as [_ Hok].
      by apply Forall_cons in Hok as [? _]. }
  exists t. split; [done|].
  rewrite (processModDownload_resolved reg cfg m cur fs t Ht) in Hok |- *.
  pose proof (installTarget_run reg m t) as Hinstall.
  rewrite (Hplain t eq_refl) in Hok, Hinstall |- *.
  set (x := expectedFileName t) in *. set (dups := duplicates m x cur) in *.
  assert (Hx : ~ In x dups).
  { intros Hin. apply duplicates_In in Hin as (_ & _ & ?). done. }
  destruct (keeps (removeAll dups fs) x) eqn:Hk; cbn [final trace fst snd] in *.
  - split; [by apply presentNonEmpty_true|].
    split; [intros p Hp; by apply removeAll_In|].
    split; [intros p _ Hp; by apply removeAll_notin|].
    intros _. by apply removeAll_notin.
  - destruct (Hinstall (removeAll dups fs)) as (Hf & Hne & Hex).
    destruct (result (installTarget reg m t (removeAll dups fs))) as [[]|e|c] eqn:Hr.
    + rewrite Hf in *. split; [by apply Hne|].
      split.
      { intros p Hp. rewrite downloadFile_frame by (intros ->; done).
        by apply removeAll_In. }
      split.
      { intros p Hpx Hp. rewrite downloadFile_frame by done. by apply removeAll_notin. }
      intros Hpre. exfalso. apply presentNonEmpty_true in Hpre.
      unfold keeps in Hk. rewrite removeAll_notin in Hk by done. congruence.
    + exfalso. rewrite !app_assoc in Hok. apply noFailure_app in Hok as [_ Hok].
      by apply Forall_cons in Hok as [? _].
    + by destruct (Hex c).
Qed.

Lemma processAll_invariant (reg : Registry) (cfg : ModpackConfig) (cur : list string)
    (pruned : FS) (ms processed : list ModConfig) (fs : FS) :
  plainTargets reg cfg ->
  ownFiles reg cfg ->
  (forall m, In m ms -> In m (mods cfg)) ->
  (forall m, In m processed -> In m (mods cfg)) ->
  loopInvariant reg cfg cur pruned processed fs ->
  noFailure (trace (processAll reg cfg ms cur fs)) ->
  loopInvariant reg cfg cur pruned (processed ++ ms) (final (processAll reg cfg ms cur fs)).
Proof.
  intros Hpl Hown. revert processed fs.
  induction ms as [|m ms IH]; intros processed fs Hsub Hdone Hinv Hok.
  - by rewrite app_nil_r.
  - unfold processAll in Hok |- *. cbn [forEach] in Hok |- *.
    destruct (processModDownload_outcome reg cfg m cur fs) as [Hr _].
    rewrite (bind_val _ _ fs (final (processModDownload reg cfg m cur fs)) tt
               (trace (processModDownload reg cfg m cur fs))) in Hok |- *.
    2,3: rewrite (run_eta (processModDownload reg cfg m cur fs)), Hr; done.
    cbn [final trace fst snd] in Hok |- *. fold (processAll reg cfg ms cur) in Hok |- *.
    apply noFailure_app in Hok as [Hok1 Hok2].
    assert (Hm : In m (mods cfg)) by (apply Hsub; by left).
    destruct (processModDownload_success reg cfg m cur fs) as
      (t & Ht & Hne & Hdel & Hkeep & Hsame);
      [intros t0 Ht0; by apply (plainTargets_entry reg cfg m) | done |].
    set (fs' := final (processModDownload reg cfg m cur fs)) in *.
    replace (processed ++ m :: ms) with ((processed ++ [m]) ++ ms)
      by (by rewrite <- app_assoc).
    apply IH; [intros m' Hm'; apply Hsub; by right | | | done].
    { intros m' Hm'. apply in_app_iff in Hm' as [?|[<-|[]]]; auto. }
    destruct Hinv as [Hfiles Hrest]. split.
    + intros m' Hm'. apply in_app_iff in Hm' as [Hm'|[<-|[]]]; [|eauto].
      destruct (Hfiles m' Hm') as (t' & Ht' & Hne').
      exists t'. split; [done|].
      destruct (decide (expectedFileName t' = expectedFileName t)) as [Heq|Hneq].
      * rewrite Heq in *. by rewrite Hsame.
      * rewrite Hkeep; [done | done |].
        intros Hdup. apply duplicates_In in Hdup as (_ & Hsw & _).
        destruct (Hown m' m t' (Hdone m' Hm') Hm Ht' Hsw) as (t2 & Ht2 & Heq).
        rewrite Ht in Ht2. injection Ht2 as <-. done.
    + intros f Hf.
      destruct (decide (f = expectedFileName t)) as [->|Hneq].
      { left. by exists m, t. }
      destruct (in_dec string_dec f (duplicates m (expectedFileName t) cur)) as [Hdup|Hnd].
      { rewrite (Hdel f Hdup) in Hf. by destruct Hf. }
      rewrite (Hkeep f Hneq Hnd) in Hf |- *.
      destruct (Hrest f Hf) as [Hres|[Hpr Hnot]]; [by left|]. right. split; [done|].
      intros m' t' Hm' Ht'. apply in_app_iff in Hm' as [Hm'|[<-|[]]]; [by eapply Hnot|].
      rewrite Ht in Ht'. by injection Ht' as <-.
Qed.

(** The pruning block only deletes. *)
Lemma pruned_entry_is_original (cfg : ModpackConfig) (fs : FS) (f : string) (n : Node) :
  final (pruneUnlisted cfg (listing fs) fs) !! f = Some n ->
  fs !! f = Some n
  /\ (pruneEnabled cfg = true -> In f (listing fs) -> isUnlisted cfg f = false).
Proof.
  intros Hf. destruct (pruneUnlisted_run cfg fs) as (_ & Hdel & Hkeep).
  assert (Hcase : ~ (pruneEnabled cfg = true /\ In f (listing fs) /\ isUnlisted cfg f = true)).
  { intros (Hen & Hin & Hu). destruct (Hdel f Hen Hin Hu) as [Hnone _]. congruence. }
  split; [by rewrite <- (Hkeep f Hcase)|].
  intros Hen Hin. destruct (isUnlisted cfg f) eqn:Hu; [|done].
  by destruct Hcase.
Qed.

(** A first pass in which no entry fails leaves a converged directory. *)
Lemma first_pass_converges (reg : Registry) (cfg : ModpackConfig) (fs : FS) :
  plainTargets reg cfg ->
  ownFiles reg cfg ->
  listedFiles reg cfg ->
  noFailure (trace (syncMods reg cfg fs)) ->
  converged reg cfg (final (syncMods reg cfg fs)).
Proof.
  intros Hpl Hown Hlisted Hok. rewrite syncMods_run in Hok |- *.
  destruct (pruneUnlisted_run cfg fs) as (Hr & _ & _). rewrite Hr in Hok |- *.
  cbn [result final trace fst snd] in Hok |- *.
  apply noFailure_app in Hok as [_ Hok]. apply noFailure_app in Hok as [_ Hok].
  set (pruned := final (pruneUnlisted cfg (listing fs) fs)) in *.
  assert (Hinv : loopInvariant reg cfg (listing fs) pruned (mods cfg)
                   (final (processAll reg cfg (mods cfg) (listing fs) pruned))).
  { apply (processAll_invariant reg cfg (listing fs) pruned (mods cfg) [] pruned);
      try done.
    split; [intros m []|]. intros f _. right. split; [done|]. intros m t []. }
  set (fs1 := final (processAll reg cfg (mods cfg) (listing fs) pruned)) in *.
  destruct Hinv as [Hfiles Hrest].
  assert (Hfrom : forall f, In f (listing fs1) ->
            resolvesTo reg cfg f
            \/ (In f (listing fs)
                /\ (pruneEnabled cfg = true -> isUnlisted cfg f = false)
                /\ forall m t, In m (mods cfg) -> targetOf reg cfg m = Some t ->
                     ~ In f (duplicates m (expectedFileName t) (listing fs)))).
  { intros f Hf. apply listing_In in Hf as (c & Hc & Hjar & Hname).
    destruct (Hrest f) as [?|[Hsame Hnot]]; [by rewrite Hc | by left |].
    right. rewrite Hc in Hsame. symmetry in Hsame.
    apply pruned_entry_is_original in Hsame as [Horig Hun].
    assert (Hin : In f (listing fs)) by (apply listing_In; eauto).
    split; [done|]. split; [auto | done]. }
  split; [exact Hfiles|]. split.
  - intros m t Hm Ht.
    destruct (duplicates m (expectedFileName t) (listing fs1)) as [|f l] eqn:Hd; [done|].
    exfalso.
    assert (Hin : In f (duplicates m (expectedFileName t) (listing fs1)))
      by (rewrite Hd; by left).
    apply duplicates_In in Hin as (Hf1 & Hsw & Hne).
    destruct (Hfrom f Hf1) as [(m' & t' & Hm' & Ht' & <-)|(Hf0 & _ & Hnot)].
    + destruct (Hown m' m t' Hm' Hm Ht' Hsw) as (t2 & Ht2 & Heq).
      rewrite Ht in Ht2. injection Ht2 as <-. done.
    + apply (Hnot m t Hm Ht). by apply duplicates_In.
  - intros Hen f Hf1.
    destruct (Hfrom f Hf1) as [(m' & t' & Hm' & Ht' & <-)|(_ & Hu & _)]; [|auto].
    by apply (Hlisted Hen m' t').
Qed.

(** C5, as the code has it.  When every resolved file name is the name of
    the entry it denotes (a name without separator, which the listing of the
    directory gives back as it is), when a resolved file is a variant of no
    entry but its own, when under pruning every resolved file carries the
    name of some entry, and when no entry fails in the first pass, then a
    second pass on the directory the first one left, with the same registry,
    downloads nothing, deletes nothing and leaves the directory as it is. *)
Theorem second_pass_is_quiet (reg : Registry) (cfg : ModpackConfig) (fs : FS) :
  plainTargets reg cfg ->
  ownFiles reg cfg ->
  listedFiles reg cfg ->
  noFailure (trace (syncMods reg cfg fs)) ->
  secondPassIsQuiet reg cfg fs
  /\ final (syncMods reg cfg (final (syncMods reg cfg fs))) = final (syncMods reg cfg fs).
Proof.
  intros Hpl Hown Hlisted Hok.
  destruct (converged_pass_is_quiet reg cfg (final (syncMods reg cfg fs))) as [Hf Hq];
    [done | by apply first_pass_converges | by split].
Qed.

Lemma second_pass_is_quiet_witness :
  secondPassIsQuiet sodiumRegistry (fabricPack None [sodium]) sodiumDirectory.
Proof.
  apply (second_pass_is_quiet sodiumRegistry (fabricPack None [sodium]) sodiumDirectory).
  - intros m t [<-|[]] Ht. vm_compute in Ht. injection Ht as <-. vm_compute. reflexivity.
  - intros m m' t [<-|[]] [<-|[]] Ht _. by exists t.
  - intros _ m t [<-|[]] Ht. vm_compute in Ht. injection Ht as <-. vm_compute. reflexivity.
  - unfold noFailure. vm_compute. repeat constructor.
Defined.

(** C5, as stated, fails: the file of the entry Mod Menu does not carry
    the entry's name, so with pruning on each pass removes the file the
    previous pass installed and downloads it again. *)
Lemma second_pass_repeats_work :
  let reg := constantHost jarBytes in
  let cfg := fabricPack None [modMenu] in
  noFailure (trace (syncMods reg cfg ∅))
  /\ trace (syncMods reg cfg (final (syncMods reg cfg ∅))) =
       [Log (CurrentMods 1); Log (RequiredMods 1); Log PruneActive;
        Log (RemovingUnlisted "modmenu-7.2.2.jar"); Remove "modmenu-7.2.2.jar";
        Log (Downloading "Mod Menu" "custom"); Fetch "https://example.com/modmenu.jar";
        Create "modmenu-7.2.2.jar"; Write "modmenu-7.2.2.jar" jarBytes;
        Log (Installed "modmenu-7.2.2.jar")]
  /\ ~ secondPassIsQuiet reg cfg ∅.
Proof.
  intros reg cfg.
  assert (Htrace : trace (syncMods reg cfg (final (syncMods reg cfg ∅))) =
            [Log (CurrentMods 1); Log (RequiredMods 1); Log PruneActive;
             Log (RemovingUnlisted "modmenu-7.2.2.jar"); Remove "modmenu-7.2.2.jar";
             Log (Downloading "Mod Menu" "custom"); Fetch "https://example.com/modmenu.jar";
             Create "modmenu-7.2.2.jar"; Write "modmenu-7.2.2.jar" jarBytes;
             Log (Installed "modmenu-7.2.2.jar")])
    by (vm_compute; reflexivity).
  split; [unfold noFailure; vm_compute; repeat constructor|].
  split; [exact Htrace|].
  unfold secondPassIsQuiet, quietPass. rewrite Htrace. intros H.
  rewrite List.Forall_forall in H.
  specialize (H (Remove "modmenu-7.2.2.jar")). cbn in H.
  assert (true = false) by (apply H; auto 10). discriminate.
Qed.

(** The same happens without pruning when the name of one entry starts
    with the name of another: Sodium removes the file of Sodium Extra as one
    of its own variants, on every pass. *)
Example overlapping_names_repeat_work :
  let reg := constantHost jarBytes in
  let cfg := fabricPack (Some false) sodiumAndExtra in
  trace (syncMods reg cfg (final (syncMods reg cfg ∅))) =
    [Log (CurrentMods 2); Log (RequiredMods 2); Log SafeMode;
     Log (RemovingOldVersion "sodium-extra-0.5.4.jar"); Remove "sodium-extra-0.5.4.jar";
     Log (Verified "Sodium" "custom");
     Log (Downloading "Sodium Extra" "custom"); Fetch "https://example.com/extra.jar";
     Create "sodium-extra-0.5.4.jar"; Write "sodium-extra-0.5.4.jar" jarBytes;
     Log (Installed "sodium-extra-0.5.4.jar")].
Proof. vm_compute. reflexivity. Qed.

(** ** Errors of one entry and the entries after it *)

(** The download branch, by the step that fails. *)
Lemma installTarget_cases (reg : Registry) (m : ModConfig) (t : Target) (fs : FS) :
  let d := downloadFile reg (targetUrl t) (targetEntry t) fs in
  let v := validateJarFile (targetEntry t) (final d) in
  (forall e, result d = Throw e -> result (installTarget reg m t fs) = Throw e)
  /\ (forall e, result d = Val tt -> result v = Throw e ->
        result (installTarget reg m t fs) = Throw e)
  /\ (result d = Val tt -> result v = Val tt ->
        result (installTarget reg m t fs) = Val tt
        /\ last (trace (installTarget reg m t fs))
           = Some (Log (Installed (expectedFileName t))))
  /\ exists rest,
       trace (installTarget reg m t fs)
       = Log (Downloading (name m) (versionDisplay t)) :: trace d ++ rest.
Proof.
  intros d v. subst d v. unfold installTarget, bind, log, emit.
  destruct (downloadFile reg (targetUrl t) (targetEntry t) fs) as [[[[]|e|c] f1] t1];
    cbn [result final trace fst snd].
  - destruct (validateJarFile (targetEntry t) f1) as [[[[]|e|c] f2] t2];
      cbn [result final trace fst snd].
    + split; [done|]. split; [done|]. split.
      * intros _ _. split; [done|]. cbn. rewrite !app_assoc, app_comm_cons. apply last_snoc.
      * eexists. cbn. reflexivity.
    + split; [done|]. split; [by intros e' _ [= <-]|]. split; [done|]. eexists. cbn. reflexivity.
    + split; [done|]. split; [done|]. split; [done|]. eexists. cbn. reflexivity.
  - split; [by intros e' [= <-]|]. split; [done|]. split; [done|].
    exists []. cbn. by rewrite app_nil_r.
  - split; [done|]. split; [done|]. split; [done|]. exists []. cbn. by rewrite app_nil_r.
Qed.

(** A resolved entry whose file is not kept ends as its download branch
    ends: an error of the branch is the error logged. *)
Lemma processModDownload_installs (reg : Registry) (cfg : ModpackConfig) (m : ModConfig)
    (cur : list string) (fs : FS) (t : Target) :
  targetOf reg cfg m = Some t ->
  let fs1 := removeAll (duplicates m (expectedFileName t) cur) fs in
  let i := installTarget reg m t fs1 in
  let o := processModDownload reg cfg m cur fs in
  keeps fs1 (targetEntry t) = false ->
  final o = final i
  /\ (forall e, result i = Throw e -> endsWithError m e o)
  /\ (result i = Val tt -> result o = Val tt /\ last (trace o) = last (trace i)).
Proof.
  intros Ht fs1 i o Hk. subst o.
  rewrite (processModDownload_resolved reg cfg m cur fs t Ht). fold fs1. rewrite Hk. fold i.
  cbn [result final trace fst snd]. split; [done|]. split.
  - intros e He. rewrite He. split; [done|]. cbn [trace snd].
    rewrite !app_assoc. apply last_snoc.
  - intros Hv. rewrite Hv. split; [done|]. cbn [trace snd]. rewrite app_nil_r.
    pose proof (installTarget_cases reg m t fs1) as (_ & _ & _ & rest & Htr). fold i in Htr.
    rewrite Htr. rewrite !app_assoc.
    by rewrite !last_app_cons.
Qed.

Lemma processModDownload_verifies (reg : Registry) (cfg : ModpackConfig) (m : ModConfig)
    (cur : list string) (fs : FS) (t : Target) :
  targetOf reg cfg m = Some t ->
  let fs1 := removeAll (duplicates m (expectedFileName t) cur) fs in
  let o := processModDownload reg cfg m cur fs in
  keeps fs1 (targetEntry t) = true ->
  final o = fs1 /\ result o = Val tt /\ last (trace o) = Some (Log (verifiedMsg m t)).
Proof.
  intros Ht fs1 o Hk. subst o.
  rewrite (processModDownload_resolved reg cfg m cur fs t Ht). fold fs1. rewrite Hk.
  cbn [result final trace fst snd]. split; [done|]. split; [done|].
  rewrite !app_assoc. apply last_snoc.
Qed.

(** A complete jar, written over whatever was at the path, passes the
    validation. *)
Lemma downloadFile_serves (reg : Registry) (u x : string) (fs : FS) :
  servesJar reg u ->
  (forall n, fs !! x <> Some (Directory n)) ->
  result (downloadFile reg u x fs) = Val tt
  /\ result (validateJarFile x (final (downloadFile reg u x fs))) = Val tt.
Proof.
  intros (b & Hf & Hc & Hsig) Hdir.
  assert (Hlen : (4 <= length (received b))%nat).
  { pose proof (f_equal length Hsig) as Hl. rewrite List.length_firstn in Hl.
    unfold jarSignature in Hl. cbn [length] in Hl. lia. }
  assert (Hover : forall old, exists c0 c,
            overwrite (received b) old = c0 :: c
            /\ firstn 4 (overwrite (received b) old) = jarSignature).
  { intros old. unfold overwrite.
    rewrite List.firstn_app. replace (4 - length (received b))%nat with 0%nat by lia.
    cbn [firstn]. rewrite app_nil_r, Hsig. destruct (received b) as [|c0 c]; [cbn in Hlen; lia|].
    eauto. }
  unfold downloadFile, bind, emit, throw, ret, openWrite, writeFile. rewrite Hf. cbn [negb].
  destruct (fs !! x) as [[old|n]|] eqn:E; [| by destruct (Hdir n) |].
  - cbn. rewrite E, Hc. cbn. split; [done|].
    rewrite validateJarFile_run, lookup_insert_eq.
    destruct (Hover old) as (c0 & c & Hcons & Hs). rewrite Hcons. rewrite Hcons in Hs.
    apply header_signature in Hs. by rewrite Hs.
  - cbn. rewrite lookup_insert_eq, Hc. cbn. split; [done|].
    rewrite validateJarFile_run, lookup_insert_eq.
    destruct (Hover []) as (c0 & c & Hcons & Hs). rewrite Hcons. rewrite Hcons in Hs.
    apply header_signature in Hs. by rewrite Hs.
Qed.

(** The loop over the other variants: each of them is removed, or its
    removal fails and the failure is logged; the loop goes on either way. *)
Lemma removeDuplicates_each (l : list string) (fs : FS) (d : string) :
  In d l ->
  In (Remove d) (trace (forEach l removeDuplicate fs))
  \/ In (Log (CouldNotRemove d (NotFound d))) (trace (forEach l removeDuplicate fs)).
Proof.
  revert fs. induction l as [|x l IH]; intros fs; [done|]. cbn [forEach].
  assert (Hx : exists t, removeDuplicate x fs = (Val tt, delete x fs, t)
                         /\ (In (Remove x) t \/ In (Log (CouldNotRemove x (NotFound x))) t)).
  { unfold removeDuplicate, bind, tryCatch, log, emit, remove.
    destruct (fs !! x) eqn:E; cbn.
    - eexists. split; [reflexivity|]. left. cbn. auto.
    - rewrite delete_id by done. eexists. split; [reflexivity|]. right. cbn. auto. }
  destruct Hx as (t & Hx & Ht). rewrite (bind_val _ _ _ _ _ _ Hx). cbn [trace snd].
  intros [->|Hin].
  - destruct Ht; [left | right]; apply in_or_app; by left.
  - destruct (IH (delete x fs) Hin); [left | right]; apply in_or_app; by right.
Qed.

(** A variant that is in the directory is removed. *)
Lemma removeDuplicates_removes (l : list string) (fs : FS) (d : string) :
  In d l -> is_Some (fs !! d) ->
  In (Remove d) (trace (forEach l removeDuplicate fs)).
Proof.
  revert fs. induction l as [|x l IH]; intros fs; [done|]. cbn [forEach].
  intros Hin Hd.
  assert (Hx : exists t, removeDuplicate x fs = (Val tt, delete x fs, t)
                         /\ (is_Some (fs !! x) -> In (Remove x) t)).
  { unfold removeDuplicate, bind, tryCatch, log, emit, remove.
    destruct (fs !! x) eqn:E; cbn.
    - eexists. split; [reflexivity|]. intros _. cbn. auto.
    - rewrite delete_id by done. eexists. split; [reflexivity|]. by intros [? [=]]. }
  destruct Hx as (t & Hx & Ht). rewrite (bind_val _ _ _ _ _ _ Hx). cbn [trace snd].
  apply in_or_app. destruct (decide (x = d)) as [->|Hne]; [left; by apply Ht|].
  right. apply IH.
  - by destruct Hin.
  - by rewrite lookup_delete_ne.
Qed.

(** The pass creates no directory. *)
Lemma replay_no_directory (t : list Event) (fs : FS) (p : string) (n : nat) :
  Forall (fun e => forall s d, e <> Rename s d) t ->
  replay t fs !! p = Some (Directory n) -> fs !! p = Some (Directory n).
Proof.
  revert fs. induction t as [|e t IH]; intros fs Ht; [done|].
  apply Forall_cons in Ht as [He Ht]. cbn. intros Hp. specialize (IH _ Ht Hp).
  destruct e as [| | | | |q|q d|q|s d| |]; cbn in IH; try done.
  - destruct (decide (q = p)) as [->|Hne];
      [by rewrite lookup_insert_eq in IH | by rewrite lookup_insert_ne in IH].
  - destruct (fs !! q) as [[old|]|] eqn:E; try done.
    destruct (decide (q = p)) as [->|Hne];
      [by rewrite lookup_insert_eq in IH | by rewrite lookup_insert_ne in IH].
  - destruct (decide (q = p)) as [->|Hne];
      [by rewrite lookup_delete_eq in IH | by rewrite lookup_delete_ne in IH].
  - by destruct (He s d).
Qed.

Lemma processAll_replays (reg : Registry) (cfg : ModpackConfig) (ms : list ModConfig)
    (cur : list string) :
  sat replays (processAll reg cfg ms cur).
Proof. unfold processAll. apply sat_forEach; [exact _|]. intros m _. eauto with replays. Qed.

Lemma processAll_no_directory (reg : Registry) (cfg : ModpackConfig) (ms : list ModConfig)
    (cur : list string) (fs : FS) (p : string) :
  (forall n, fs !! p <> Some (Directory n)) ->
  forall n, final (processAll reg cfg ms cur fs) !! p <> Some (Directory n).
Proof.
  intros Hdir n Hp. apply (Hdir n).
  rewrite (processAll_replays reg cfg ms cur fs) in Hp.
  apply (replay_no_directory _ _ _ _) in Hp; [done|].
  pose proof (processAll_typed reg cfg ms cur fs) as Hty. unfold typed in Hty.
  eapply Forall_impl; [exact Hty|].
  intros e (m & _ & [He|He]) s d ->; done.
Qed.

(** The loop over a manifest in two parts. *)
Lemma processAll_app (reg : Registry) (cfg : ModpackConfig) (l1 l2 : list ModConfig)
    (cur : list string) (fs : FS) :
  let a := processAll reg cfg l1 cur fs in
  let b := processAll reg cfg l2 cur (final a) in
  result (processAll reg cfg (l1 ++ l2) cur fs) = Val tt
  /\ final (processAll reg cfg (l1 ++ l2) cur fs) = final b
  /\ trace (processAll reg cfg (l1 ++ l2) cur fs) = trace a ++ trace b.
Proof.
  revert fs. induction l1 as [|m l1 IH]; intros fs a b; subst a b.
  - cbn [app]. split; [apply processAll_outcomes|]. done.
  - unfold processAll. cbn [app forEach].
    destruct (processModDownload_outcome reg cfg m cur fs) as [Hr _].
    rewrite !(bind_val _ _ fs (final (processModDownload reg cfg m cur fs)) tt
                (trace (processModDownload reg cfg m cur fs)))
      by (rewrite (run_eta (processModDownload reg cfg m cur fs)), Hr; done).
    cbn [result final trace fst snd]. fold (processAll reg cfg (l1 ++ l2) cur).
    fold (processAll reg cfg l1 cur). fold (processAll reg cfg l2 cur).
    destruct (IH (final (processModDownload reg cfg m cur fs))) as (IHr & IHf & IHt).
    split; [done|]. split; [done|]. by rewrite IHt, app_assoc.
Qed.

Lemma processAll_cons (reg : Registry) (cfg : ModpackConfig) (m : ModConfig)
    (ms : list ModConfig) (cur : list string) (fs : FS) :
  let o := processModDownload reg cfg m cur fs in
  final (processAll reg cfg (m :: ms) cur fs) = final (processAll reg cfg ms cur (final o))
  /\ trace (processAll reg cfg (m :: ms) cur fs)
     = trace o ++ trace (processAll reg cfg ms cur (final o)).
Proof.
  intros o. subst o. unfold processAll. cbn [forEach].
  destruct (processModDownload_outcome reg cfg m cur fs) as [Hr _].
  rewrite !(bind_val _ _ fs (final (processModDownload reg cfg m cur fs)) tt
              (trace (processModDownload reg cfg m cur fs)))
    by (rewrite (run_eta (processModDownload reg cfg m cur fs)), Hr; done).
  done.
Qed.

(** An entry leaves in place a file with a size above zero that it does
    not count among the other variants of its mod. *)
Lemma processModDownload_keeps_nonEmpty (reg : Registry) (cfg : ModpackConfig)
    (m : ModConfig) (cur : list string) (fs : FS) (p : string) :
  nonEmpty (fs !! p) ->
  (forall t, targetOf reg cfg m = Some t -> ~ In p (duplicates m (expectedFileName t) cur)) ->
  final (processModDownload reg cfg m cur fs) !! p = fs !! p.
Proof.
  intros Hne Hnd. destruct (targetOf reg cfg m) as [t|] eqn:Ht.
  2:{ by destruct (processModDownload_unresolved reg cfg m cur fs Ht) as [e ->]. }
  rewrite (processModDownload_resolved reg cfg m cur fs t Ht).
  pose proof (removeAll_notin _ fs p (Hnd t eq_refl)) as Hsame.
  destruct (keeps _ _) eqn:Hk; cbn [final fst snd]; [done|].
  destruct (installTarget_run reg m t
              (removeAll (duplicates m (expectedFileName t) cur) fs)) as (-> & _ & _).
  destruct (decide (p = targetEntry t)) as [->|Hneq]; [|by rewrite downloadFile_frame].
  exfalso. apply presentNonEmpty_true in Hne. unfold keeps in Hk. rewrite Hsame in Hk.
  congruence.
Qed.

Lemma processAll_keeps_nonEmpty (reg : Registry) (cfg : ModpackConfig) (ms : list ModConfig)
    (cur : list string) (fs : FS) (p : string) :
  nonEmpty (fs !! p) ->
  notAVariant reg cfg ms cur p ->
  final (processAll reg cfg ms cur fs) !! p = fs !! p.
Proof.
  revert fs. induction ms as [|m ms IH]; intros fs Hne Hnv; [done|].
  destruct (processAll_cons reg cfg m ms cur fs) as [-> _].
  assert (Hstep : final (processModDownload reg cfg m cur fs) !! p = fs !! p).
  { apply processModDownload_keeps_nonEmpty; [done|].
    intros t Ht. apply (Hnv m t); [by left | done]. }
  rewrite IH; [done | by rewrite Hstep |].
  intros m' t' Hm' Ht'. apply (Hnv m' t'); [by right | done].
Qed.

(** An entry whose file the host serves ends verified or installed on any
    directory in which its file name is not the name of a sub-directory. *)
Lemma processModDownload_in_place (reg : Registry) (cfg : ModpackConfig) (m : ModConfig)
    (cur : list string) (fs : FS) (t : Target) :
  targetOf reg cfg m = Some t ->
  servesJar reg (targetUrl t) ->
  (forall n, fs !! targetEntry t <> Some (Directory n)) ->
  endsInPlace m t (processModDownload reg cfg m cur fs).
Proof.
  intros Ht Hserve Hdir.
  set (fs1 := removeAll (duplicates m (expectedFileName t) cur) fs).
  assert (Hdir1 : forall n, fs1 !! targetEntry t <> Some (Directory n)).
  { intros n. subst fs1.
    destruct (in_dec string_dec (targetEntry t) (duplicates m (expectedFileName t) cur)).
    - by rewrite removeAll_In.
    - rewrite removeAll_notin by done. apply Hdir. }
  destruct (keeps fs1 (targetEntry t)) eqn:Hk.
  - destruct (processModDownload_verifies reg cfg m cur fs t Ht Hk) as (Hf & Hr & Hl).
    split; [done|]. split; [by left|]. rewrite Hf. by apply presentNonEmpty_true.
  - destruct (processModDownload_installs reg cfg m cur fs t Ht Hk) as (Hf & _ & Hok).
    destruct (downloadFile_serves reg (targetUrl t) (targetEntry t) fs1 Hserve Hdir1)
      as [Hd Hv].
    destruct (installTarget_cases reg m t fs1) as (_ & _ & Hinst & _).
    destruct (Hinst Hd Hv) as [Hri Hli].
    destruct (Hok Hri) as [Hr Hl].
    split; [done|]. split; [right; by rewrite Hl|].
    rewrite Hf. by apply (installTarget_run reg m t fs1).
Qed.

(** C4.  The pass is the pruning block followed by the loop over the
    entries.  The loop always returns, with one outcome per entry in manifest
    order.  For the entry at any position of the manifest: its processing
    returns, and the entries after it are processed from the directory it
    left.  An error of its resolution is logged under its name and leaves the
    directory as it was; each other variant of its mod is removed or the
    failure of the removal is logged, and the entry goes on; an error of its
    download or of the validation is the error logged under its name.
    Whatever happened to the entries before it, an entry whose file name
    denotes an entry of the directory and whose address serves a jar ends
    verified or installed with its file in place, and the file is still in
    place at the end of the pass unless a later entry counts it among the
    other variants of its own mod. *)
Theorem entry_errors_are_isolated (reg : Registry) (cfg : ModpackConfig) (fs : FS) :
  let cur := listing fs in
  let pruned := final (pruneUnlisted cfg cur fs) in
  let loop := processAll reg cfg (mods cfg) cur pruned in
  result loop = Val tt
  /\ Forall2 outcomeOf (mods cfg) (outcomes (trace loop))
  /\ (result (pruneUnlisted cfg cur fs) = Val tt ->
        result (syncMods reg cfg fs) = Val tt
        /\ final (syncMods reg cfg fs) = final loop
        /\ outcomes (trace (syncMods reg cfg fs)) = outcomes (trace loop))
  /\ forall before m after,
       mods cfg = before ++ m :: after ->
       let fs0 := final (processAll reg cfg before cur pruned) in
       let o := processModDownload reg cfg m cur fs0 in
       result o = Val tt
       /\ final loop = final (processAll reg cfg after cur (final o))
       /\ trace loop
          = trace (processAll reg cfg before cur pruned) ++ trace o
              ++ trace (processAll reg cfg after cur (final o))
       /\ (forall e, result (resolveTarget reg cfg m fs0) = Throw e ->
             endsWithError m e o /\ final o = fs0)
       /\ (forall t, targetOf reg cfg m = Some t ->
             let fs1 := removeAll (duplicates m (expectedFileName t) cur) fs0 in
             let d := downloadFile reg (targetUrl t) (targetEntry t) fs1 in
             (forall x, In x (duplicates m (expectedFileName t) cur) ->
                In (Remove x) (trace o)
                \/ In (Log (CouldNotRemove x (NotFound x))) (trace o))
             /\ (keeps fs1 (targetEntry t) = false ->
                   (forall e, result d = Throw e -> endsWithError m e o)
                   /\ (forall e, result d = Val tt ->
                         result (validateJarFile (targetEntry t) (final d)) = Throw e ->
                         endsWithError m e o))
             /\ (servesJar reg (targetUrl t) ->
                 Path.entryOf (expectedFileName t) <> None ->
                 (forall n, fs !! targetEntry t <> Some (Directory n)) ->
                 endsInPlace m t o
                 /\ (notAVariant reg cfg after cur (targetEntry t) ->
                       nonEmpty (final loop !! targetEntry t)))).
Proof.
  intros cur pruned loop.
  destruct (processAll_outcomes reg cfg (mods cfg) cur pruned) as [Hres Hout].
  split; [exact Hres|]. split; [exact Hout|]. split.
  { intros Hp. rewrite syncMods_run. fold cur. rewrite Hp. fold pruned. fold loop.
    cbn [result final trace fst snd]. split; [done|]. split; [done|].
    unfold outcomes. rewrite !List.filter_app. cbn [List.filter isOutcome isOutcomeMsg].
    pose proof (syncEvent_not_outcome_prefix cfg cur _ (pruneUnlisted_typed cfg cur fs)) as Hq.
    unfold outcomes in Hq. by rewrite Hq. }
  intros before m after Hsplit fs0 o.
  destruct (processModDownload_outcome reg cfg m cur fs0) as [Hro _]. fold o in Hro.
  destruct (processAll_app reg cfg before (m :: after) cur pruned) as (_ & Hf & Ht).
  fold fs0 in Hf, Ht.
  destruct (processAll_cons reg cfg m after cur fs0) as [Hcf Hct]. fold o in Hcf, Hct.
  assert (Hfin : final loop = final (processAll reg cfg after cur (final o))).
  { unfold loop. by rewrite Hsplit, Hf. }
  split; [exact Hro|]. split; [exact Hfin|]. split.
  { unfold loop. by rewrite Hsplit, Ht, Hct. } split.
  { intros e He.
    destruct (failed_resolution_changes_nothing reg cfg m cur fs0 e He) as [Hfo Hto].
    fold o in Hfo, Hto. split; [|exact Hfo]. split; [exact Hro|].
    rewrite Hto. apply last_snoc. }
  intros t Htarget fs1 d. split; [|split].
  - intros x Hx.
    assert (Hin : forall ev, In ev (trace (forEach (duplicates m (expectedFileName t) cur)
                                             removeDuplicate fs0)) -> In ev (trace o)).
    { intros ev Hev. unfold o.
      rewrite (processModDownload_resolved reg cfg m cur fs0 t Htarget).
      destruct (keeps _ _); cbn [trace snd]; rewrite !in_app_iff; auto. }
    destruct (removeDuplicates_each _ fs0 x Hx); [left | right]; by apply Hin.
  - intros Hk.
    destruct (processModDownload_installs reg cfg m cur fs0 t Htarget Hk) as (_ & Herr & _).
    destruct (installTarget_cases reg m t fs1) as (Hde & Hve & _ & _).
    split.
    + intros e He. apply Herr. by apply Hde.
    + intros e Hd He. apply Herr. by apply Hve.
  - intros Hserve _ Hdir.
    assert (Hdir0 : forall n, fs0 !! targetEntry t <> Some (Directory n)).
    { apply processAll_no_directory. intros n Hn.
      apply pruned_entry_is_original in Hn as [Hn _]. by apply (Hdir n). }
    pose proof (processModDownload_in_place reg cfg m cur fs0 t Htarget Hserve Hdir0) as Hplace.
    fold o in Hplace. split; [exact Hplace|].
    intros Hnv. rewrite Hfin.
    destruct Hplace as (_ & _ & Hne).
    by rewrite (processAll_keeps_nonEmpty reg cfg after cur (final o) _ Hne Hnv).
Qed.

(** The first entry names an unknown project and fails; the third is
    installed all the same and its file is there at the end of the pass. *)
Lemma entry_errors_are_isolated_witness :
  let cfg := fabricPack None threeEntries in
  let fs : FS := {["sodium-fabric-0.5.8+mc1.20.1.jar" := RegularFile jarBytes]} in
  let pruned := final (pruneUnlisted cfg (listing fs) fs) in
  endsWithError unknownMod (ModrinthUrlFailed "Lithium" (NetworkError "versions"))
    (processModDownload sodiumRegistry cfg unknownMod (listing fs) pruned)
  /\ nonEmpty (final (processAll sodiumRegistry cfg threeEntries (listing fs) pruned)
               !! "custom-mod-1.0.0.jar").
Proof.
  intros cfg fs pruned.
  destruct (entry_errors_are_isolated sodiumRegistry cfg fs) as (_ & _ & _ & Hentry).
  split.
  - destruct (Hentry [] unknownMod (tl threeEntries) eq_refl) as (_ & _ & _ & Herr & _).
    destruct (Herr (ModrinthUrlFailed "Lithium" (NetworkError "versions"))) as [Hend _];
      [vm_compute; reflexivity | exact Hend].
  - destruct (Hentry [unknownMod; sodium]
                (directMod "Custom Mod" "https://example.com/mod.jar" "custom-mod-1.0.0.jar")
                [] eq_refl) as (_ & _ & _ & _ & Hok).
    destruct (Hok {| expectedFileName := "custom-mod-1.0.0.jar";
                     targetUrl := "https://example.com/mod.jar";
                     versionDisplay := "custom" |}) as (_ & _ & Hplace).
    + vm_compute. reflexivity.
    + destruct Hplace as [_ Hend].
      * exists {| received := jarBytes; complete := true |}. by repeat split.
      * vm_compute. discriminate.
      * intros n. vm_compute. discriminate.
      * apply Hend. intros m t [].
Defined.

(** A download that is refused and one that is not a jar: each error is
    logged under its entry, and the entry between them is installed. *)
Example download_and_validation_errors_are_isolated :
  let reg := {| search := fun _ _ _ => Some [];
                versions := fun _ => None;
                fetch := fun u =>
                  if String.eqb u "https://example.com/a.jar" then Http false None
                  else if String.eqb u "https://example.com/b.jar"
                  then Http true (Some {| received := jarBytes; complete := true |})
                  else Http true (Some {| received := pageBytes; complete := true |}) |} in
  let ms := [directMod "Alpha" "https://example.com/a.jar" "alpha.jar";
             directMod "Beta" "https://example.com/b.jar" "beta.jar";
             directMod "Gamma" "https://example.com/c.jar" "gamma.jar"] in
  let o := syncMods reg (fabricPack (Some false) ms) ∅ in
  outcomes (trace o)
  = [Log (ErrorProcessing "Alpha" DownloadStatus);
     Log (Installed "beta.jar");
     Log (ErrorProcessing "Gamma" (InvalidJar NotAJar))]
  /\ final o !! "beta.jar" = Some (RegularFile jarBytes).
Proof. split; vm_compute; reflexivity. Qed.

(** ** File names and base names *)

Lemma lowerChar_idem (c : ascii) : Js.lowerChar (Js.lowerChar c) = Js.lowerChar c.
Proof. destruct c as [[] [] [] [] [] [] [] []]; reflexivity. Qed.

Lemma lowerChar_not_upper (c : ascii) : Js.isUpper (Js.lowerChar c) = false.
Proof. destruct c as [[] [] [] [] [] [] [] []]; reflexivity. Qed.

Lemma isSpace_lowerChar (c : ascii) : Js.isSpace (Js.lowerChar c) = Js.isSpace c.
Proof. destruct c as [[] [] [] [] [] [] [] []]; reflexivity. Qed.

Lemma isSpace_not_upper (c : ascii) : Js.isSpace c = true -> Js.isUpper c = false.
Proof. destruct c as [[] [] [] [] [] [] [] []]; vm_compute; congruence. Qed.

Lemma toLowerCase_idem (s : string) : Js.toLowerCase (Js.toLowerCase s) = Js.toLowerCase s.
Proof. induction s as [|c s IH]; cbn; [done|]. by rewrite lowerChar_idem, IH. Qed.

Lemma append_cons (c : ascii) (a b : string) : String c a +:+ b = String c (a +:+ b).
Proof. reflexivity. Qed.

Lemma toLowerCase_app (a b : string) :
  Js.toLowerCase (a +:+ b) = Js.toLowerCase a +:+ Js.toLowerCase b.
Proof.
  induction a as [|c a IH]; [done|].
  rewrite append_cons. cbn [Js.toLowerCase]. by rewrite IH, append_cons.
Qed.

Lemma toLowerCase_length (s : string) : String.length (Js.toLowerCase s) = String.length s.
Proof. induction s as [|c s IH]; cbn; [done|]. by rewrite IH. Qed.

(** Lowering the case and replacing white space commute. *)
Lemma toLowerCase_hyphenate (b : bool) (s : string) :
  Js.toLowerCase (Js.hyphenateFrom b s) = Js.hyphenateFrom b (Js.toLowerCase s).
Proof.
  revert b. induction s as [|c s IH]; intros b; cbn; [done|].
  rewrite isSpace_lowerChar. destruct (Js.isSpace c), b; cbn; by rewrite ?IH.
Qed.

Lemma startsWith_app (a b : string) : Js.startsWith (a +:+ b) a = true.
Proof.
  induction a as [|c a IH]; [by destruct b|].
  rewrite append_cons. cbn [Js.startsWith]. by rewrite Ascii.eqb_refl.
Qed.

Lemma startsWith_spec (s p : string) :
  Js.startsWith s p = true <-> exists r, s = p +:+ r.
Proof.
  split.
  - revert s. induction p as [|b p IH]; intros s; cbn.
    + intros _. by exists s.
    + destruct s as [|a s]; [done|]. intros H. apply andb_true_iff in H as [Hab Hs].
      apply Ascii.eqb_eq in Hab as ->. destruct (IH s Hs) as [r ->]. exists r.
      by rewrite append_cons.
  - intros [r ->]. apply startsWith_app.
Qed.

Lemma endsWith_spec (s suf : string) :
  Js.endsWith s suf = true <-> exists r, s = r +:+ suf.
Proof.
  split.
  - induction s as [|c s IH]; cbn [Js.endsWith].
    + rewrite orb_false_r. intros H. apply String.eqb_eq in H as <-. by exists "".
    + intros H. apply orb_true_iff in H as [H|H].
      * apply String.eqb_eq in H as <-. by exists "".
      * destruct (IH H) as [r ->]. exists (String c r). by rewrite append_cons.
  - intros [r ->]. induction r as [|c r IH]; [apply endsWith_refl|].
    rewrite append_cons. cbn [Js.endsWith]. by rewrite IH, orb_true_r.
Qed.

Lemma append_length (a b : string) :
  String.length (a +:+ b) = (String.length a + String.length b)%nat.
Proof.
  induction a as [|c a IH]; [done|].
  rewrite append_cons. cbn [String.length]. by rewrite IH.
Qed.

(** The final [.jar] is what [replace(/\.jar$/i, '')] cuts. *)
Lemma stripJar_app (s ext : string) :
  Js.toLowerCase ext = ".jar" -> Js.stripJar (s +:+ ext) = s.
Proof.
  intros Hext. induction s as [|c s IH].
  - change ("" +:+ ext) with ext. destruct ext as [|e ext]; [done|].
    cbn [Js.stripJar]. by rewrite Hext.
  - rewrite append_cons. cbn [Js.stripJar].
    destruct (String.eqb_spec (Js.toLowerCase (String c (s +:+ ext))) ".jar") as [Heq|_].
    + exfalso. apply (f_equal String.length) in Heq.
      rewrite toLowerCase_length in Heq. cbn in Heq. rewrite append_length in Heq.
      apply (f_equal String.length) in Hext. rewrite toLowerCase_length in Hext.
      cbn in Hext. lia.
    + by rewrite IH.
Qed.

Lemma append_assoc (a b c : string) : (a +:+ b) +:+ c = a +:+ (b +:+ c).
Proof. induction a as [|x a IH]; [done|]. by rewrite !append_cons, IH. Qed.

Lemma normalizedName_sanitized (m : ModConfig) :
  normalizedName m = Js.toLowerCase (Js.replaceSpaces (name m)).
Proof. unfold normalizedName, Js.replaceSpaces. by rewrite toLowerCase_hyphenate. Qed.

(** X1.  The name [generateFileName] makes up for an entry without
    [fileName] ends in [.jar] and its base name starts with the entry's
    normalized name: the pass takes the file for a variant of that entry and
    never for an unlisted file. *)
Theorem generated_name_is_own_variant (m : ModConfig) :
  Js.truthy (fileName m) = false ->
  Js.endsWith (generateFileName m) ".jar" = true
  /\ Js.startsWith (extractModBaseName (generateFileName m)) (normalizedName m) = true
  /\ (forall cfg, In m (mods cfg) -> isUnlisted cfg (generateFileName m) = false).
Proof.
  intros Hf.
  assert (Hgen : generateFileName m =
            (normalizedName m +:+ "-" +:+ Js.orElse (version m) "latest") +:+ ".jar").
  { unfold generateFileName. rewrite Hf, <- normalizedName_sanitized.
    by rewrite !append_assoc. }
  assert (Hsw : Js.startsWith (extractModBaseName (generateFileName m)) (normalizedName m) = true).
  { unfold extractModBaseName. rewrite Hgen, stripJar_app by done.
    rewrite toLowerCase_app.
    rewrite normalizedName_sanitized at 1. rewrite toLowerCase_idem, <- normalizedName_sanitized.
    apply startsWith_app. }
  split; [|split; [exact Hsw|]].
  - apply endsWith_spec. eauto.
  - intros cfg Hm. by apply (entry_is_listed cfg m).
Qed.

Lemma generated_name_is_own_variant_witness :
  generateFileName
    {| name := "Custom  Mod"; version := Some "1.0.0"; source := Some Url;
       projectId := None; downloadUrl := Some "https://example.com/mod.jar";
       fileName := None |} = "custom-mod-1.0.0.jar"
  /\ Js.startsWith
       (extractModBaseName
          (generateFileName
             {| name := "Custom  Mod"; version := Some "1.0.0"; source := Some Url;
                projectId := None; downloadUrl := Some "https://example.com/mod.jar";
                fileName := None |}))
       "custom-mod" = true.
Proof.
  split; [reflexivity|].
  apply (generated_name_is_own_variant
           {| name := "Custom  Mod"; version := Some "1.0.0"; source := Some Url;
              projectId := None; downloadUrl := Some "https://example.com/mod.jar";
              fileName := None |}).
  reflexivity.
Defined.

Lemma hyphenate_chars (b : bool) (s : string) (c : ascii) :
  In c (list_ascii_of_string (Js.hyphenateFrom b (Js.toLowerCase s))) ->
  Js.isSpace c = false /\ Js.isUpper c = false.
Proof.
  revert b. induction s as [|x s IH]; intros b; cbn; [done|].
  rewrite isSpace_lowerChar.
  destruct (Js.isSpace x) eqn:Hx.
  - destruct b; cbn; [apply IH|]. intros [<-|H]; [by vm_compute | by eapply IH].
  - cbn. intros [<-|H]; [|by eapply IH].
    by rewrite isSpace_lowerChar, lowerChar_not_upper.
Qed.

Lemma hyphenate_clean (s : string) :
  (forall c, In c (list_ascii_of_string s) -> Js.isSpace c = false) ->
  Js.hyphenateFrom false s = s.
Proof.
  induction s as [|x s IH]; intros H; cbn; [done|].
  rewrite (H x) by (by left). rewrite IH; [done|]. intros c Hc. apply H. by right.
Qed.

(** X2.  The normalized name of an entry holds no white space and no
    upper-case letter, and normalizing it again gives it back. *)
Theorem normalizedName_shape (m : ModConfig) :
  (forall c, In c (list_ascii_of_string (normalizedName m)) ->
     Js.isSpace c = false /\ Js.isUpper c = false)
  /\ Js.replaceSpaces (Js.toLowerCase (normalizedName m)) = normalizedName m.
Proof.
  assert (Hc : forall c, In c (list_ascii_of_string (normalizedName m)) ->
            Js.isSpace c = false /\ Js.isUpper c = false).
  { intros c. apply hyphenate_chars. }
  split; [exact Hc|].
  rewrite normalizedName_sanitized at 1. rewrite toLowerCase_idem, <- normalizedName_sanitized.
  apply hyphenate_clean. intros c H. by apply Hc.
Qed.

(** The base name of a listed file is its name in lower case without the
    extension. *)
Lemma extractModBaseName_listed (file : string) :
  Js.endsWith file ".jar" = true ->
  extractModBaseName file +:+ ".jar" = Js.toLowerCase file.
Proof.
  intros H. apply endsWith_spec in H as [r ->].
  unfold extractModBaseName. rewrite stripJar_app by done. by rewrite toLowerCase_app.
Qed.

(** ** Discovery by name and the latest compatible version *)

Lemma find_split {A} (p : A -> bool) (xs : list A) (x : A) :
  Js.find p xs = Some x ->
  exists before after,
    xs = before ++ x :: after /\ p x = true /\ Forall (fun y => p y = false) before.
Proof.
  unfold Js.find. induction xs as [|y xs IH]; cbn; [done|].
  destruct (p y) eqn:Hy.
  - intros [= ->]. exists [], xs. by repeat split.
  - intros H. destruct (IH H) as (before & after & -> & Hx & Hb).
    exists (y :: before), after. repeat split; [done|]. by constructor.
Qed.

(** [searchModrinthProject] on the answer of the registry. *)
Lemma searchModrinthProject_run (reg : Registry) (cfg : ModpackConfig)
    (modName : string) (fs : FS) (first : SearchResult) (others : list SearchResult) :
  search reg modName (modLoader cfg) (gameVersion cfg) = Some (first :: others) ->
  let best :=
    match Js.find (exactHit modName) (first :: others) with
    | Some h => h
    | None =>
        match Js.find (similarHit modName) (first :: others) with
        | Some h => h
        | None => first
        end
    end in
  searchModrinthProject reg cfg modName fs =
    (Val (project_id best), fs,
     [Log (SearchingProject modName); SearchRequest modName;
      Log (ProjectFound (title best) (project_id best))]
       ++ if Js.arrayIncludes (categories best) (modLoader cfg) then []
          else [Log (MaybeIncompatible (title best))]).
Proof.
  intros Hs best. unfold searchModrinthProject, tryCatch, bind, log, emit, ret.
  rewrite Hs. fold (exactHit modName) (similarHit modName). fold best.
  by destruct (Js.arrayIncludes (categories best) (modLoader cfg)).
Qed.

(** X3.  Discovery by name.  With no hit the search fails.  Otherwise it
    never fails and answers the identifier of one of the hits: the first hit
    whose title or slug equals the name (case apart) if there is one, else
    the first whose title contains the name or is contained in it, else the
    first hit; a hit that lacks the loader among its categories is still
    used. *)
Theorem search_picks_a_hit (reg : Registry) (cfg : ModpackConfig) (modName : string)
    (fs : FS) (hits : list SearchResult) :
  search reg modName (modLoader cfg) (gameVersion cfg) = Some hits ->
  (hits = [] ->
     result (searchModrinthProject reg cfg modName fs)
     = Throw (SearchFailed (NoProjectsFound modName)))
  /\ (hits <> [] ->
        exists before h after,
          hits = before ++ h :: after
          /\ result (searchModrinthProject reg cfg modName fs) = Val (project_id h)
          /\ (exactHit modName h = true
                /\ Forall (fun y => exactHit modName y = false) before
              \/ Forall (fun y => exactHit modName y = false) hits
                 /\ similarHit modName h = true
                 /\ Forall (fun y => similarHit modName y = false) before
              \/ Forall (fun y => exactHit modName y = false) hits
                 /\ Forall (fun y => similarHit modName y = false) hits
                 /\ before = []))
  /\ final (searchModrinthProject reg cfg modName fs) = fs.
Proof.
  intros Hs. destruct hits as [|first others].
  - split; [|split; [done|]].
    + intros _. unfold searchModrinthProject, tryCatch, bind, log, emit, throw.
      by rewrite Hs.
    + unfold searchModrinthProject, tryCatch, bind, log, emit, throw. by rewrite Hs.
  - rewrite (searchModrinthProject_run reg cfg modName fs first others Hs).
    cbn [result final fst snd]. split; [done|]. split; [|done]. intros _.
    destruct (Js.find (exactHit modName) (first :: others)) as [h|] eqn:He.
    { destruct (find_split _ _ _ He) as (before & after & Heq & Hh & Hb).
      exists before, h, after. split; [done|]. split; [done|]. left. by split. }
    assert (Hne : Forall (fun y => exactHit modName y = false) (first :: others)).
    { apply List.Forall_forall. by apply find_none_iff. }
    destruct (Js.find (similarHit modName) (first :: others)) as [h|] eqn:Hsim.
    { destruct (find_split _ _ _ Hsim) as (before & after & Heq & Hh & Hb).
      exists before, h, after. split; [done|]. split; [done|]. right. left. by repeat split. }
    exists [], first, others. split; [done|]. split; [done|]. right. right.
    split; [done|]. split; [|done]. apply List.Forall_forall. by apply find_none_iff.
Qed.

(** The hit titled like the name wins over a more popular one whose title
    only contains it. *)
Lemma search_picks_a_hit_witness :
  let hits := [hit "Sodium Extra" "sodium-extra" "PtjYWJkn";
               hit "Sodium" "sodium" "AANobbMI"] in
  let run := searchModrinthProject (searchOnly hits) (fabricPack None []) "sodium" ∅ in
  result run = Val "AANobbMI" /\ final run = ∅.
Proof.
  intros hits run.
  destruct (search_picks_a_hit (searchOnly hits) (fabricPack None []) "sodium" ∅
              hits eq_refl) as (_ & _ & Hfinal).
  split; [|exact Hfinal]. vm_compute. reflexivity.
Defined.

(** [getModrinthDownloadUrl] for an entry without a pin, once the project
    is known. *)
Lemma getModrinthDownloadUrl_latest (reg : Registry) (cfg : ModpackConfig)
    (m : ModConfig) (show : bool) (fs : FS) (pid : string) (vs : list Version) :
  result (projectIdOf reg cfg m fs) = Val pid ->
  Js.truthy (version m) = false ->
  versions reg pid = Some vs ->
  result (getModrinthDownloadUrl reg cfg m show fs) =
    match Js.find (compatible cfg) vs with
    | None => Throw (ModrinthUrlFailed (name m) NoCompatibleVersion)
    | Some v =>
        match files v with
        | [] => Throw (ModrinthUrlFailed (name m) (TypeError "primaryFile is undefined"))
        | primaryFile :: _ =>
            Val {| info_url := url primaryFile;
                   info_version := version_number v;
                   info_fileName := filename primaryFile |}
        end
    end.
Proof.
  intros Hpid Hver Hvs.
  assert (Hrun : projectIdOf reg cfg m fs = (Val pid, fs, trace (projectIdOf reg cfg m fs))).
  { destruct (projectIdOf_pure reg cfg m) as (r & t & Hp). rewrite Hp in Hpid |- *.
    cbn in Hpid |- *. by subst. }
  unfold projectIdOf in Hrun at 1.
  unfold getModrinthDownloadUrl, tryCatch. rewrite (bind_val _ _ _ _ _ _ Hrun).
  unfold bind, emit, log, ret, throw. rewrite Hver, Hvs.
  destruct show; cbn; destruct (Js.find (compatible cfg) vs) as [v|]; cbn; try done;
    by destruct (files v).
Qed.

(** X4.  Without a pin the resolver takes the first version, in the order
    of the registry's answer, that lists both the game version and the
    loader of the manifest, and answers the first file of that version; it
    fails with "no compatible version" exactly when no version of the answer
    is compatible. *)
Theorem latest_is_first_compatible (reg : Registry) (cfg : ModpackConfig)
    (m : ModConfig) (show : bool) (fs : FS) (pid : string) (vs : list Version) :
  result (projectIdOf reg cfg m fs) = Val pid ->
  Js.truthy (version m) = false ->
  versions reg pid = Some vs ->
  (result (getModrinthDownloadUrl reg cfg m show fs)
     = Throw (ModrinthUrlFailed (name m) NoCompatibleVersion)
   <-> forall v, In v vs -> compatible cfg v = false)
  /\ (forall info,
        result (getModrinthDownloadUrl reg cfg m show fs) = Val info ->
        exists before v file rest after,
          vs = before ++ v :: after
          /\ Forall (fun w => compatible cfg w = false) before
          /\ compatible cfg v = true
          /\ files v = file :: rest
          /\ info = {| info_url := url file;
                       info_version := version_number v;
                       info_fileName := filename file |}).
Proof.
  intros Hpid Hver Hvs.
  rewrite (getModrinthDownloadUrl_latest reg cfg m show fs pid vs Hpid Hver Hvs).
  destruct (Js.find (compatible cfg) vs) as [v|] eqn:Hf.
  - destruct (find_split _ _ _ Hf) as (before & after & Heq & Hc & Hb). split.
    + split.
      * destruct (files v); intros [=].
      * intros H. rewrite H in Hc; [done|]. rewrite Heq. apply in_or_app. right. by left.
    + intros info Hinfo. destruct (files v) as [|file rest] eqn:Hfiles; [done|].
      injection Hinfo as <-. by exists before, v, file, rest, after.
  - split; [|intros info [=]]. split; [|done]. intros _. by apply find_none_iff.
Qed.

(** Of an incompatible, a compatible and a newer-looking compatible version
    the first compatible one is taken. *)
Lemma latest_is_first_compatible_witness :
  let vs := [release "0.6.0" "1.21" "fabric" "sodium-0.6.0.jar";
             release "0.5.8" "1.20.1" "fabric" "sodium-0.5.8.jar";
             release "0.5.9" "1.20.1" "fabric" "sodium-0.5.9.jar"] in
  let run := getModrinthDownloadUrl (versionsOnly "AANobbMI" vs) (fabricPack None [])
               (unpinnedMod "Sodium" "AANobbMI") true ∅ in
  result run <> Throw (ModrinthUrlFailed "Sodium" NoCompatibleVersion)
  /\ result run = Val {| info_url := "https://cdn.example/sodium-0.5.8.jar";
                         info_version := "0.5.8";
                         info_fileName := "sodium-0.5.8.jar" |}.
Proof.
  intros vs run.
  destruct (latest_is_first_compatible (versionsOnly "AANobbMI" vs) (fabricPack None [])
              (unpinnedMod "Sodium" "AANobbMI") true ∅ "AANobbMI" vs
              eq_refl eq_refl eq_refl) as [Hfail _].
  split; [|reflexivity].
  intros Hthrow.
  pose proof (proj1 Hfail Hthrow _ (or_intror (or_introl eq_refl))) as Hno.
  discriminate Hno.
Defined.

(** X5.  However the resolver fails (search, registry request, version
    selection or a version without files), the error that leaves it is the
    one wrapper that names the entry; the resolver never ends the process,
    and the directory is as before. *)
Theorem resolver_failure_names_entry (reg : Registry) (cfg : ModpackConfig)
    (m : ModConfig) (show : bool) (fs : FS) :
  (forall e, result (getModrinthDownloadUrl reg cfg m show fs) = Throw e ->
     exists inner, e = ModrinthUrlFailed (name m) inner)
  /\ (forall code, result (getModrinthDownloadUrl reg cfg m show fs) <> Exit code)
  /\ final (getModrinthDownloadUrl reg cfg m show fs) = fs.
Proof.
  split; [|split].
  - intros e. unfold getModrinthDownloadUrl, tryCatch, throw.
    match goal with |- context [bind ?c ?k fs] => destruct (bind c k fs) as [[[a|e'|code] fs'] t] end;
      cbn; intros [=]. subst. by eexists.
  - intros code Hexit.
    assert (Hno : sat noExit (getModrinthDownloadUrl reg cfg m show)).
    { unfold getModrinthDownloadUrl, searchModrinthProject. sat_go prim_solve. }
    specialize (Hno fs). unfold noExit in Hno. rewrite Hexit in Hno. by apply Hno.
  - assert (Hpure : pureM (getModrinthDownloadUrl reg cfg m show)).
    { unfold getModrinthDownloadUrl, searchModrinthProject, log. pure_go. }
    destruct Hpure as (r & t & Hp). by rewrite Hp.
Qed.

(** ** The sources of an entry *)

(** X6.  An entry of the source curseforge, and an entry of the source url
    without a download address, fail before anything is done: the entry ends
    with its logged error, no request of any kind is made, and the directory
    is as before, other variants of the mod included. *)
Theorem unresolvable_sources_fail_fast (reg : Registry) (cfg : ModpackConfig)
    (m : ModConfig) (cur : list string) (fs : FS) :
  source m = Some Curseforge
  \/ (source m = Some Url /\ Js.truthy (downloadUrl m) = false) ->
  let o := processModDownload reg cfg m cur fs in
  result o = Val tt
  /\ final o = fs
  /\ Forall (fun e => isRequest e = false /\ isMutation e = false) (trace o)
  /\ last (trace o)
     = Some (Log (ErrorProcessing (name m)
                    (match source m with
                     | Some Curseforge => CurseForgeNotImplemented (name m)
                     | _ => UrlRequiresDownloadUrl
                     end))).
Proof.
  intros H o. subst o. unfold processModDownload, resolveTarget.
  destruct H as [-> | [-> Hu]].
  - by repeat split; repeat constructor.
  - rewrite Hu. cbn [negb andb]. by repeat split; repeat constructor.
Qed.

Lemma unresolvable_sources_fail_fast_witness :
  let fs : FS := {["jei-1.0.jar" := RegularFile jarBytes]} in
  let o := processModDownload (constantHost jarBytes) (fabricPack None [curseMod "JEI"])
             (curseMod "JEI") ["jei-1.0.jar"] fs in
  result o = Val tt /\ final o = fs.
Proof.
  intros fs o.
  destruct (unresolvable_sources_fail_fast (constantHost jarBytes)
              (fabricPack None [curseMod "JEI"]) (curseMod "JEI") ["jei-1.0.jar"] fs
              (or_introl eq_refl)) as (Hr & Hf & _).
  split; [exact Hr | exact Hf].
Defined.

(** X7.  Once an entry is resolved to a file name that denotes an entry
    of the directory, every file of the listing (named as a listing names an
    entry) whose base name starts with the entry's name and whose name is not
    the resolved file name as a string is removed.  If it is another file than the one the resolved name
    denotes, it is gone when the entry ends, whether the wanted file is then
    kept, installed, or its download fails.  If it is that very file under
    another spelling ([./x.jar] for [x.jar]), it is removed all the same and
    then downloaded again: the address is fetched, and when the host answers
    with an ok status the file is created anew. *)
Theorem stale_variants_are_removed (reg : Registry) (cfg : ModpackConfig)
    (m : ModConfig) (cur : list string) (fs : FS) (t : Target) (f entry : string) :
  targetOf reg cfg m = Some t ->
  In f cur ->
  Path.isEntryName f = true ->
  Js.startsWith (extractModBaseName f) (normalizedName m) = true ->
  f <> expectedFileName t ->
  Path.entryOf (expectedFileName t) = Some entry ->
  let o := processModDownload reg cfg m cur fs in
  (is_Some (fs !! f) -> In (Remove f) (trace o))
  /\ (f <> entry -> final o !! f = None)
  /\ (f = entry ->
        In (Fetch (targetUrl t)) (trace o)
        /\ forall body, fetchUrl reg (targetUrl t) = Http true body ->
              In (Create f) (trace o) /\ is_Some (final o !! f)).
Proof.
  intros Ht Hin _ Hsw Hne Hentry o. subst o.
  assert (Hkey : targetEntry t = entry).
  { unfold targetEntry, Path.key. by rewrite Hentry. }
  assert (Hdup : In f (duplicates m (expectedFileName t) cur)) by (by apply duplicates_In).
  set (fs1 := removeAll (duplicates m (expectedFileName t) cur) fs).
  assert (Hgone : fs1 !! f = None) by (by apply removeAll_In).
  rewrite (processModDownload_resolved reg cfg m cur fs t Ht). fold fs1. rewrite Hkey.
  split; [|split].
  - intros Hsome.
    pose proof (removeDuplicates_removes _ fs f Hdup Hsome) as Hrm.
    destruct (keeps fs1 entry); cbn [trace snd]; rewrite !in_app_iff; auto.
  - intros Hfe. destruct (keeps fs1 entry); cbn [final fst snd]; [done|].
    destruct (installTarget_run reg m t fs1) as (-> & _ & _). rewrite Hkey.
    by rewrite downloadFile_frame.
  - intros ->.
    assert (Hk : keeps fs1 entry = false) by (unfold keeps; by rewrite Hgone).
    rewrite Hk. cbn [final trace fst snd].
    destruct (installTarget_run reg m t fs1) as (-> & _ & _).
    destruct (installTarget_cases reg m t fs1) as (_ & _ & _ & rest & ->).
    rewrite Hkey.
    assert (Hd : In (Fetch (targetUrl t)) (trace (downloadFile reg (targetUrl t) entry fs1))
                 /\ forall body, fetchUrl reg (targetUrl t) = Http true body ->
                       In (Create entry) (trace (downloadFile reg (targetUrl t) entry fs1))
                       /\ is_Some (final (downloadFile reg (targetUrl t) entry fs1) !! entry)).
    { unfold downloadFile, bind, emit, throw, ret, openWrite, writeFile.
      destruct (fetchUrl reg (targetUrl t)) as [|[|] [b|]]; cbn; rewrite ?Hgone; cbn;
        rewrite ?lookup_insert_eq; cbn.
      - split; [by left | by intros body [=]].
      - destruct (complete b); cbn; rewrite ?lookup_insert_eq;
          (split; [by left|]); intros body _; (split; [right; by left | eauto]).
      - rewrite ?lookup_insert_eq. split; [by left|]. intros body _.
        split; [right; by left | eauto].
      - split; [by left | by intros body [=]].
      - split; [by left | by intros body [=]]. }
    destruct Hd as [Hfetch Hcreate]. split.
    + rewrite !in_app_iff. cbn [In]. rewrite !in_app_iff. auto 10.
    + intros body Hb. destruct (Hcreate body Hb) as [Hc Hs]. split; [|done].
      rewrite !in_app_iff. cbn [In]. rewrite !in_app_iff. auto 10.
Qed.

(** The newer file cannot be fetched: the older one is removed all the
    same, and the directory is left without the mod. *)
Lemma stale_variants_are_removed_witness :
  let reg := oneVersionRegistry "AANobbMI" "0.5.8" "sodium-0.5.8.jar" in
  let fs : FS := {["sodium-0.5.7.jar" := RegularFile jarBytes]} in
  let o := processModDownload reg (fabricPack None []) (unpinnedMod "Sodium" "AANobbMI")
             ["sodium-0.5.7.jar"] fs in
  final o !! "sodium-0.5.7.jar" = None /\ final o !! "sodium-0.5.8.jar" = None.
Proof.
  intros reg fs o. split.
  - destruct (stale_variants_are_removed reg (fabricPack None [])
                (unpinnedMod "Sodium" "AANobbMI") ["sodium-0.5.7.jar"] fs
                {| expectedFileName := "sodium-0.5.8.jar";
                   targetUrl := "https://cdn.example/sodium-0.5.8.jar";
                   versionDisplay := "0.5.8" |} "sodium-0.5.7.jar" "sodium-0.5.8.jar")
      as (_ & Hgone & _).
    + reflexivity.
    + left. reflexivity.
    + reflexivity.
    + reflexivity.
    + discriminate.
    + reflexivity.
    + apply Hgone. discriminate.
  - vm_compute. reflexivity.
Defined.

(** The file in place is the wanted one, but the entry spells its name
    [./sodium-0.5.8.jar]: it is removed as another variant and downloaded
    again. *)
Example aliased_name_is_downloaded_again :
  let m := directMod "Sodium" "https://example.com/sodium.jar" "./sodium-0.5.8.jar" in
  let fs : FS := {["sodium-0.5.8.jar" := RegularFile jarBytes]} in
  trace (processModDownload (constantHost jarBytes) (fabricPack (Some false) [m]) m
           (listing fs) fs)
  = [Log (RemovingOldVersion "sodium-0.5.8.jar"); Remove "sodium-0.5.8.jar";
     Log (Downloading "Sodium" "custom"); Fetch "https://example.com/sodium.jar";
     Create "sodium-0.5.8.jar"; Write "sodium-0.5.8.jar" jarBytes;
     Log (Installed "./sodium-0.5.8.jar")].
Proof. vm_compute. reflexivity. Qed.

Lemma resolveTarget_direct (reg : Registry) (cfg : ModpackConfig) (m : ModConfig) :
  source m <> Some Modrinth ->
  sat (typed (directEvent m)) (resolveTarget reg cfg m).
Proof.
  intros Hs. unfold resolveTarget, getCurseForgeDownloadUrl.
  destruct (source m) as [[| |]|]; [|done| |]; sat_go prim_solve.
Qed.

Lemma resolveTarget_direct_url (reg : Registry) (cfg : ModpackConfig) (m : ModConfig)
    (fs : FS) (t : Target) :
  source m <> Some Modrinth ->
  result (resolveTarget reg cfg m fs) = Val t ->
  targetUrl t = Js.orElse (downloadUrl m) "".
Proof.
  intros Hs. unfold resolveTarget, getCurseForgeDownloadUrl, bind, log, emit, throw, ret.
  destruct (source m) as [[| |]|]; [|done| |]; cbn; try done;
    case_match; cbn; by intros [= <-].
Qed.

Lemma installTarget_direct (reg : Registry) (m : ModConfig) (t : Target) :
  targetUrl t = Js.orElse (downloadUrl m) "" ->
  sat (typed (directEvent m)) (installTarget reg m t).
Proof.
  intros Hurl. unfold installTarget, downloadFile. rewrite Hurl.
  sat_go ltac:(first [apply validateJarFile_typed | prim_solve]).
Qed.

Lemma removeDuplicates_direct (m : ModConfig) (l : list string) :
  sat (typed (directEvent m)) (forEach l removeDuplicate).
Proof.
  apply sat_forEach; [exact _|]. intros x _. by apply removeDuplicate_typed.
Qed.

(** X8.  An entry whose source is not the registry never asks the
    registry: its events hold no search and no version request, and the only
    address fetched is the entry's own download address. *)
Theorem direct_entries_skip_registry (reg : Registry) (cfg : ModpackConfig)
    (m : ModConfig) (cur : list string) (fs : FS) :
  source m <> Some Modrinth ->
  Forall (fun e => isRegistryRequest e = false
                   /\ forall u, e = Fetch u -> u = Js.orElse (downloadUrl m) "")
         (trace (processModDownload reg cfg m cur fs)).
Proof.
  intros Hs.
  cut (Forall (directEvent m) (trace (processModDownload reg cfg m cur fs))).
  { intros H. eapply Forall_impl; [exact H|]. intros e He.
    destruct e; cbn in *; try done; split; try done; by intros u' [= <-]. }
  pose proof (resolveTarget_direct reg cfg m Hs ∅) as Hres. unfold typed in Hres.
  destruct (targetOf reg cfg m) as [t|] eqn:Ht.
  - assert (Hurl : targetUrl t = Js.orElse (downloadUrl m) "").
    { apply (resolveTarget_direct_url reg cfg m ∅ t Hs).
      unfold targetOf in Ht. by destruct (result (resolveTarget reg cfg m ∅)); simplify_eq. }
    rewrite (processModDownload_resolved reg cfg m cur fs t Ht).
    pose proof (removeDuplicates_direct m (duplicates m (expectedFileName t) cur) fs) as Hd.
    pose proof (installTarget_direct reg m t Hurl
                  (removeAll (duplicates m (expectedFileName t) cur) fs)) as Hi.
    unfold typed in Hd, Hi.
    destruct (keeps _ _); cbn [trace snd].
    + rewrite !Forall_app. repeat split; try done. by repeat constructor.
    + rewrite !Forall_app. repeat split; try done.
      destruct (result (installTarget _ _ _ _)); by repeat constructor.
  - destruct (processModDownload_unresolved reg cfg m cur fs Ht) as [e ->]. cbn [trace snd].
    rewrite Forall_app. split; [done|]. by repeat constructor.
Qed.

Lemma direct_entries_skip_registry_witness :
  Forall (fun e => isRegistryRequest e = false
                   /\ forall u, e = Fetch u -> u = "https://example.com/mod.jar")
         (trace (processModDownload (constantHost jarBytes) (fabricPack None [])
                   (directMod "Custom Mod" "https://example.com/mod.jar" "custom-mod-1.0.0.jar")
                   [] ∅)).
Proof.
  apply (direct_entries_skip_registry (constantHost jarBytes) (fabricPack None [])
           (directMod "Custom Mod" "https://example.com/mod.jar" "custom-mod-1.0.0.jar") [] ∅).
  intros [=].
Defined.

(** ** Downloads *)

(** X9.  What a failing download leaves.  A request that is not answered,
    or is answered with a status that is not ok, fails before the file is
    opened: the directory is as before.  An ok answer without a body fails
    after the file is opened: a missing file has been created empty, a
    present one is as before. *)
Theorem downloadFile_failures (reg : Registry) (u p : string) (fs : FS) :
  (fetchUrl reg u = NoResponse \/ (exists body, fetchUrl reg u = Http false body) ->
     (exists e, result (downloadFile reg u p fs) = Throw e)
     /\ final (downloadFile reg u p fs) = fs)
  /\ (fetchUrl reg u = Http true None ->
        (exists e, result (downloadFile reg u p fs) = Throw e)
        /\ final (downloadFile reg u p fs)
           = match fs !! p with
             | None => <[p := RegularFile []]> fs
             | Some _ => fs
             end).
Proof.
  unfold downloadFile, bind, emit, throw, openWrite. split.
  - intros [-> | [body ->]]; cbn; eauto.
  - intros ->. cbn. destruct (fs !! p) as [[c|n]|]; cbn; eauto.
Qed.

(** A host that answers with a status that is not ok. *)
Lemma downloadFile_failures_witness :
  let reg := {| search := fun _ _ _ => Some []; versions := fun _ => None;
                fetch := fun _ => Http false None |} in
  final (downloadFile reg "https://example.com/mod.jar" "mod.jar" ∅) = ∅.
Proof.
  intros reg.
  destruct (downloadFile_failures reg "https://example.com/mod.jar" "mod.jar" ∅) as [Hno _].
  apply Hno. right. by exists None.
Defined.


(** X10.  What an answered download writes.  The bytes received are
    written from the start of the file, which is created when missing and is
    not truncated: the file begins with the bytes received, and what a longer
    file held beyond them is still there.  The download returns exactly when
    the stream ended normally; a broken stream leaves what was received. *)
Theorem downloadFile_writes_received (reg : Registry) (u p : string) (fs : FS) (b : Body) :
  fetchUrl reg u = Http true (Some b) ->
  (forall n, fs !! p <> Some (Directory n)) ->
  let old := match fs !! p with Some (RegularFile c) => c | _ => [] end in
  (result (downloadFile reg u p fs) = Val tt <-> complete b = true)
  /\ exists c,
       final (downloadFile reg u p fs) !! p = Some (RegularFile c)
       /\ firstn (length (received b)) c = received b
       /\ skipn (length (received b)) c = skipn (length (received b)) old
       /\ (length old <= length (received b) -> c = received b).
Proof.
  intros Hf Hdir old.
  assert (Hc : forall o, firstn (length (received b)) (overwrite (received b) o) = received b
                 /\ skipn (length (received b)) (overwrite (received b) o)
                    = skipn (length (received b)) o
                 /\ (length o <= length (received b) -> overwrite (received b) o = received b)).
  { intros o. unfold overwrite. repeat split.
    - rewrite List.firstn_app, List.firstn_all, Nat.sub_diag. cbn. by rewrite app_nil_r.
    - rewrite List.skipn_app, List.skipn_all, Nat.sub_diag. reflexivity.
    - intros Hl. rewrite List.skipn_all2 by lia. by rewrite app_nil_r. }
  unfold downloadFile, bind, emit, throw, ret, openWrite, writeFile. rewrite Hf. cbn.
  subst old. destruct (fs !! p) as [[c|n]|] eqn:E.
  - cbn. rewrite E. destruct (complete b); cbn; rewrite lookup_insert_eq;
      (split; [done|]); exists (overwrite (received b) c); split; try done; apply Hc.
  - by destruct (Hdir n).
  - cbn. rewrite lookup_insert_eq. destruct (complete b); cbn; rewrite lookup_insert_eq;
      (split; [done|]); exists (overwrite (received b) []); split; try done; apply Hc.
Qed.

(** A shorter download over a longer file of the same name keeps the end
    of the longer one. *)
Lemma downloadFile_writes_received_witness :
  let reg := constantHost [x50; x4b; x03; x04] in
  let fs : FS := {["mod.jar" := RegularFile [x01; x02; x03; x04; x05; x06]]} in
  result (downloadFile reg "https://example.com/mod.jar" "mod.jar" fs) = Val tt
  /\ final (downloadFile reg "https://example.com/mod.jar" "mod.jar" fs) !! "mod.jar"
     = Some (RegularFile [x50; x4b; x03; x04; x05; x06]).
Proof.
  intros reg fs.
  destruct (downloadFile_writes_received reg "https://example.com/mod.jar" "mod.jar" fs
              {| received := [x50; x4b; x03; x04]; complete := true |} eq_refl)
    as [Hres _].
  - intros n. vm_compute. discriminate.
  - split; [by apply Hres | vm_compute; reflexivity].
Defined.

Lemma downloadModUrl_pure (reg : Registry) (cfg : ModpackConfig) (m : ModConfig) :
  pureM (downloadModUrl reg cfg m).
Proof.
  unfold downloadModUrl, getModrinthDownloadUrl, searchModrinthProject,
    getCurseForgeDownloadUrl, log.
  pure_go.
Qed.

Lemma downloadModUrl_noExit (reg : Registry) (cfg : ModpackConfig) (m : ModConfig) :
  sat noExit (downloadModUrl reg cfg m).
Proof.
  unfold downloadModUrl, getModrinthDownloadUrl, searchModrinthProject,
    getCurseForgeDownloadUrl.
  sat_go prim_solve.
Qed.

(** The [try] block of [downloadMod]: it changes no other path, and if
    it returns, the file has passed the validation. *)
Lemma downloadModBody_spec (reg : Registry) (cfg : ModpackConfig) (m : ModConfig)
    (p : string) (fs : FS) :
  let b := downloadModBody reg cfg m p fs in
  (forall code, result b <> Exit code)
  /\ (forall q, q <> p -> final b !! q = fs !! q)
  /\ (result b = Val tt ->
        exists c, final b !! p = Some (RegularFile c) /\ firstn 4 c = jarSignature).
Proof.
  intros b. subst b. unfold downloadModBody.
  destruct (downloadModUrl_pure reg cfg m) as (r & t & Hp).
  pose proof (downloadModUrl_noExit reg cfg m fs) as Hn. unfold noExit in Hn.
  rewrite Hp in Hn. cbn in Hn.
  destruct r as [u|e|c]; [| |done].
  2:{ rewrite (bind_throw _ _ _ _ _ _ (Hp fs)). by repeat split. }
  rewrite (bind_val _ _ _ _ _ _ (Hp fs)). cbn [result final fst snd].
  pose proof (downloadFile_noExit reg u p fs) as Hdn. unfold noExit in Hdn.
  pose proof (downloadFile_frame reg u p) as Hframe.
  destruct (downloadFile reg u p fs) as [[[[]|e|c] fs2] t2] eqn:Hd;
    cbn [result final fst snd kindOf] in *; [| |done].
  2:{ rewrite (bind_throw _ _ _ _ _ _ Hd). cbn [result final fst snd].
      repeat split; try done. intros q Hq. rewrite <- (Hframe q fs Hq). by rewrite Hd. }
  rewrite (bind_val _ _ _ _ _ _ Hd). cbn [result final fst snd].
  assert (Hfr : forall q, q <> p -> fs2 !! q = fs !! q).
  { intros q Hq. rewrite <- (Hframe q fs Hq). by rewrite Hd. }
  unfold bind, log, emit. rewrite validateJarFile_run.
  destruct (fs2 !! p) as [[[|b0 c]|[|n]]|] eqn:E; cbn [result final fst snd];
    try (by repeat split).
  pose proof (header_signature (b0 :: c)) as Hsig.
  destruct (hasJarSignature _) eqn:Hh; cbn [result final fst snd];
    [|by repeat split].
  repeat split; try done. intros _. exists (b0 :: c). split; [done|]. by apply Hsig.
Qed.

Lemma downloadMod_run (reg : Registry) (cfg : ModpackConfig) (m : ModConfig)
    (p : string) (fs : FS) :
  let b := downloadModBody reg cfg m p fs in
  result (downloadMod reg cfg m p fs)
    = match result b with
      | Throw e => Throw (DownloadModFailed (name m) e)
      | r => r
      end
  /\ final (downloadMod reg cfg m p fs)
     = match result b with
       | Throw _ => delete p (final b)
       | _ => final b
       end.
Proof.
  intros b. subst b. unfold downloadMod. fold (downloadModUrl reg cfg m).
  fold (downloadModBody reg cfg m p). unfold tryCatch.
  destruct (downloadModBody reg cfg m p fs) as [[[[]|e|c] fs1] t1]; cbn [result final fst snd];
    try done.
  unfold bind, tryCatch, remove, ret, throw.
  destruct (fs1 !! p) eqn:E; cbn; [done|]. by rewrite delete_id.
Qed.

(** X11.  [downloadMod], on a path that does not name a directory, leaves
    no file behind a failure.  If it returns, the path holds a regular file
    that begins with the jar signature.  If it fails, for whatever reason
    (resolution, request, stream or validation), nothing is at the path
    afterwards, not even a file that was there before, and the error names
    the mod.  No other path changes. *)
Theorem downloadMod_cleans_up (reg : Registry) (cfg : ModpackConfig) (m : ModConfig)
    (p : string) (fs : FS) :
  (forall n, fs !! p <> Some (Directory n)) ->
  let o := downloadMod reg cfg m p fs in
  (result o = Val tt ->
     exists c, final o !! p = Some (RegularFile c) /\ firstn 4 c = jarSignature)
  /\ (forall e, result o = Throw e ->
        final o !! p = None /\ exists cause, e = DownloadModFailed (name m) cause)
  /\ (forall code, result o <> Exit code)
  /\ (forall q, q <> p -> final o !! q = fs !! q).
Proof.
  intros _ o. subst o.
  destruct (downloadMod_run reg cfg m p fs) as [-> ->].
  destruct (downloadModBody_spec reg cfg m p fs) as (Hne & Hfr & Hok).
  destruct (result (downloadModBody reg cfg m p fs)) as [[]|e|c]; [| |by destruct (Hne c)].
  - split; [exact Hok|]. split; [done|]. split; [done | exact Hfr].
  - split; [done|]. split; [|split; [done|]].
    + intros e' [= <-]. split; [apply lookup_delete_eq | eauto].
    + intros q Hq. rewrite lookup_delete_ne by done. by apply Hfr.
Qed.

(** A page served in place of the jar: the download fails and the file
    that was at the path before is gone too. *)
Lemma downloadMod_cleans_up_witness :
  let m := directMod "Sodium" "https://example.com/sodium.jar" "sodium.jar" in
  let fs : FS := {["sodium.jar" := RegularFile jarBytes]} in
  let o := downloadMod (constantHost pageBytes) (fabricPack None [m]) m "sodium.jar" fs in
  final o !! "sodium.jar" = None
  /\ result o = Throw (DownloadModFailed "Sodium" (InvalidJar NotAJar)).
Proof.
  intros m fs o.
  destruct (downloadMod_cleans_up (constantHost pageBytes) (fabricPack None [m]) m
              "sodium.jar" fs) as (_ & Hfail & _).
  - intros n. vm_compute. discriminate.
  - assert (Hres : result o = Throw (DownloadModFailed "Sodium" (InvalidJar NotAJar)))
      by (vm_compute; reflexivity).
    split; [exact (proj1 (Hfail _ Hres)) | exact Hres].
Defined.

(** X12.  [validateJarFile] on any path.  It returns exactly when the path
    holds a regular file whose first four bytes are 50 4B 03 04; a missing
    path, a directory and a file shorter than four bytes are rejected.  Every
    rejection is the one wrapper of its [catch], and the process is never
    ended. *)
Theorem validateJarFile_accepts_exactly (filePath : string) (fs : FS) :
  (result (validateJarFile filePath fs) = Val tt
   <-> exists content,
         fs !! filePath = Some (RegularFile content) /\ firstn 4 content = jarSignature)
  /\ (forall content,
        fs !! filePath = Some (RegularFile content) -> (length content < 4)%nat ->
        exists cause, result (validateJarFile filePath fs) = Throw (InvalidJar cause))
  /\ (forall e, result (validateJarFile filePath fs) = Throw e ->
        exists cause, e = InvalidJar cause)
  /\ (forall code, result (validateJarFile filePath fs) <> Exit code).
Proof.
  rewrite validateJarFile_run. cbn [result fst].
  destruct (fs !! filePath) as [[[|b0 c]|[|n]]|] eqn:E.
  - split; [split; [done | by intros (c & [= <-] & ?)]|].
    split; [eauto|]. split; [intros e [= <-]; eauto | done].
  - pose proof (header_signature (b0 :: c)) as Hsig.
    destruct (hasJarSignature _) eqn:Hh.
    + assert (Hs : firstn 4 (b0 :: c) = jarSignature) by (by apply Hsig).
      split; [split; [eauto | done]|]. split; [|split; [done | done]].
      intros content [= <-] Hlen. exfalso.
      assert (Hl : length (firstn 4 (b0 :: c)) = 4%nat) by (by rewrite Hs).
      rewrite List.length_firstn in Hl. lia.
    + split; [split; [done|]|].
      { intros (content & [= <-] & Hs). apply Hsig in Hs. congruence. }
      split; [eauto|]. split; [intros e [= <-]; eauto | done].
  - split; [split; [done | by intros (c & [=] & ?)]|].
    split; [done|]. split; [intros e [= <-]; eauto | done].
  - split; [split; [done | by intros (c & [=] & ?)]|].
    split; [done|]. split; [intros e [= <-]; eauto | done].
  - split; [split; [done | by intros (c & [=] & ?)]|].
    split; [done|]. split; [intros e [= <-]; eauto | done].
Qed.

Lemma validateJarFile_accepts_exactly_witness :
  let fs : FS := {["short.jar" := RegularFile [x50; x4b; x03]]} in
  exists cause, result (validateJarFile "short.jar" fs) = Throw (InvalidJar cause).
Proof.
  intros fs.
  destruct (validateJarFile_accepts_exactly "short.jar" fs) as (_ & Hshort & _).
  apply (Hshort [x50; x4b; x03]); [reflexivity | cbn; lia].
Defined.


(** ** The swap of the executable *)

Section Leads.
Context {A B : Type}.

Lemma leads_bind (P Mid Q : FS -> Prop) (m : M A) (k : A -> M B) :
  leads P m Mid -> (forall fs, Mid fs -> Q fs) -> (forall a, leads Mid (k a) Q) ->
  leads P (bind m k) Q.
Proof.
  intros Hm Hsub Hk fs HP. specialize (Hm fs HP). unfold bind.
  destruct (m fs) as [[[a|e|c] fs1] t1]; cbn in *; auto.
  specialize (Hk a fs1 Hm). by destruct (k a fs1) as [[r fs2] t2].
Qed.

Lemma leads_tryCatch (P Mid Q : FS -> Prop) (m : M A) (hd : Error -> M A) :
  leads P m Mid -> (forall fs, Mid fs -> Q fs) -> (forall e, leads Mid (hd e) Q) ->
  leads P (tryCatch m hd) Q.
Proof.
  intros Hm Hsub Hh fs HP. specialize (Hm fs HP). unfold tryCatch.
  destruct (m fs) as [[[a|e|c] fs1] t1]; cbn in *; auto.
  specialize (Hh e fs1 Hm). by destruct (hd e fs1) as [[r fs2] t2].
Qed.

Lemma leads_same (P : FS -> Prop) (m : M A) :
  (forall fs, final (m fs) = fs) -> leads P m P.
Proof. intros Hm fs HP. by rewrite Hm. Qed.

Lemma leads_weaken (P Q Q' : FS -> Prop) (m : M A) :
  leads P m Q -> (forall fs, Q fs -> Q' fs) -> leads P m Q'.
Proof. intros Hm Hsub fs HP. apply Hsub, Hm, HP. Qed.

End Leads.

(** The operations on the temporary file leave the executable alone. *)
Lemma hostOpenWrite_temp (h : Host) (n : Node) :
  leads (atExec h n) (hostOpenWrite h (tempPathOf h)) (atExec h n).
Proof.
  intros fs HP. unfold atExec, hostOpenWrite, openWrite, throw in *.
  destruct (denied h _); [done|].
  destruct (fs !! tempPathOf h) as [[c|s]|]; cbn; try done.
  rewrite lookup_insert_ne; [done | apply tempPath_ne_exec].
Qed.

Lemma writeFile_temp (h : Host) (n : Node) (d : list byte) :
  leads (atExec h n) (writeFile (tempPathOf h) d) (atExec h n).
Proof.
  intros fs HP. unfold atExec, writeFile in *.
  destruct (fs !! tempPathOf h) as [[c|s]|]; cbn; try done.
  rewrite lookup_insert_ne; [done | apply tempPath_ne_exec].
Qed.

Lemma hostChmod_temp (h : Host) (P : FS -> Prop) :
  leads P (hostChmod h (tempPathOf h)) P.
Proof.
  apply leads_same. intros fs. unfold hostChmod.
  destruct (denied h _); [done|]. by destruct (fs !! tempPathOf h).
Qed.

Lemma hostRemove_temp (h : Host) (n : Node) :
  leads (atExec h n) (hostRemove h (tempPathOf h)) (atExec h n).
Proof.
  intros fs HP. unfold atExec, hostRemove, remove, throw in *.
  destruct (denied h _); [done|].
  destruct (fs !! tempPathOf h); cbn; [|done].
  rewrite lookup_delete_ne; [done | apply tempPath_ne_exec].
Qed.

(** The restoration puts a backed up binary at the executable's path or
    leaves it at the backup path. *)
Lemma restoration_keeps (h : Host) (n : Node) (fs : FS) :
  fs !! oldPathOf h = Some n ->
  notLost h n (final (hostRename h (oldPathOf h) (execPath h) fs)).
Proof.
  intros Hold. unfold notLost, hostRename.
  destruct (denied h _); [by right|]. rewrite Hold.
  destruct (fs !! execPath h) as [[c|s]|]; cbn [final fst snd]; try (by right);
    left; apply lookup_insert_eq.
Qed.

(** The swap never loses the running binary, whatever the platform
    refuses and whatever is at the other two paths. *)
Lemma swapExecutable_keeps (h : Host) (n : Node) :
  leads (atExec h n) (swapExecutable h) (notLost h n).
Proof.
  intros fs Hexec. unfold atExec in Hexec. unfold swapExecutable.
  destruct (hostRename h (execPath h) (oldPathOf h) fs) as [[[[]|e|c] fs1] t1] eqn:H1.
  - (* the executable is at the backup path *)
    assert (Hfs1 : fs1 = <[oldPathOf h := n]> (delete (execPath h) fs)).
    { unfold hostRename in H1. destruct (denied h _); [done|]. rewrite Hexec in H1.
      destruct (fs !! oldPathOf h) as [[c|s]|]; by simplify_eq. }
    rewrite (bind_val _ _ _ _ _ _ (tryCatch_val _ _ _ _ _ _ H1)). cbn [final fst snd].
    assert (Hold : fs1 !! oldPathOf h = Some n) by (subst fs1; apply lookup_insert_eq).
    destruct (hostRename h (tempPathOf h) (execPath h) fs1) as [[[[]|e|c] fs2] t2] eqn:H2.
    + rewrite (tryCatch_val _ _ _ _ _ _ H2). cbn [final fst snd]. right.
      unfold hostRename in H2. destruct (denied h _); [done|].
      destruct (fs1 !! tempPathOf h) as [nt|]; [|done].
      destruct (fs1 !! execPath h) as [[c|s]|]; simplify_eq;
        (rewrite lookup_insert_ne by (symmetry; apply oldPath_ne_exec);
         rewrite lookup_delete_ne by apply tempPath_ne_old; exact Hold).
    + assert (Hsame : fs2 = fs1).
      { unfold hostRename in H2. destruct (denied h _); [by simplify_eq|].
        destruct (fs1 !! tempPathOf h) as [nt|]; [|by simplify_eq].
        destruct (fs1 !! execPath h) as [[c|s]|]; by simplify_eq. }
      subst fs2. rewrite (tryCatch_throw _ _ _ _ _ _ H2). cbn [final fst snd].
      pose proof (restoration_keeps h n fs1 Hold) as Hr.
      unfold bind. destruct (hostRename h (oldPathOf h) (execPath h) fs1) as [[[[]|e'|c] fs3] t3];
        exact Hr.
    + unfold hostRename in H2. destruct (denied h _); [done|].
      destruct (fs1 !! tempPathOf h) as [nt|]; [|done].
      destruct (fs1 !! execPath h) as [[c'|s]|]; done.
  - (* the executable has not moved *)
    assert (Hsame : fs1 = fs).
    { unfold hostRename in H1. destruct (denied h _); [by simplify_eq|]. rewrite Hexec in H1.
      destruct (fs !! oldPathOf h) as [[c|s]|]; by simplify_eq. }
    subst fs1. left.
    pose proof (hostRemove_temp h n fs Hexec) as Hr. unfold atExec in Hr.
    unfold bind, tryCatch. rewrite H1. cbv beta iota.
    by destruct (hostRemove h (tempPathOf h) fs) as [[[[]|e'|c] fs3] t3].
  - unfold hostRename in H1. destruct (denied h _); [done|]. rewrite Hexec in H1.
    destruct (fs !! oldPathOf h) as [[c'|s]|]; done.
Qed.

Lemma spawn_same (p : string) (argv : list string) (fs : FS) : final (spawn p argv fs) = fs.
Proof. unfold spawn. by destruct (fs !! p) as [[c|s]|]. Qed.

Lemma performUpdate_keeps (h : Host) (r : GitHubRelease) (n : Node) :
  leads (atExec h n) (performUpdate h r) (notLost h n).
Proof.
  assert (Hsub : forall fs, atExec h n fs -> notLost h n fs) by (intros fs Hf; by left).
  unfold performUpdate.
  apply (leads_bind _ (atExec h n)); [|done|].
  { apply leads_same. intros fs. apply getAssetForPlatform_pure. }
  intros a. apply (leads_bind _ (atExec h n)); [by apply leads_same | done |]. intros _.
  apply (leads_bind _ (atExec h n)); [by apply leads_same | done |]. intros _.
  apply (leads_bind _ (atExec h n)); [by apply leads_same | done |]. intros _.
  destruct (download h (browser_download_url a)) as [|ok body].
  { eapply leads_weaken; [by apply leads_same | done]. }
  destruct ok; cbn [negb]; [|eapply leads_weaken; [by apply leads_same | done]].
  apply (leads_bind _ (atExec h n)); [apply hostOpenWrite_temp | done |]. intros _.
  apply (leads_bind _ (atExec h n)); [|done|].
  { destruct body as [b|]; [|by apply leads_same].
    apply (leads_bind _ (atExec h n)); [apply writeFile_temp | done |]. intros _.
    destruct (complete b); by apply leads_same. }
  intros _. apply (leads_bind _ (atExec h n)); [|done|].
  { destruct (String.eqb (os h) "windows"); [by apply leads_same | apply hostChmod_temp]. }
  intros _. apply (leads_bind _ (notLost h n)); [apply swapExecutable_keeps | done |].
  intros _. apply (leads_bind _ (notLost h n)); [by apply leads_same | done |]. intros _.
  apply (leads_bind _ (notLost h n)); [|done|].
  { apply leads_same. intros fs. apply spawn_same. }
  intros _. by apply leads_same.
Qed.

Lemma updateSequence_keeps (sv : SemverLib) (h : Host) (n : Node) :
  leads (atExec h n) (updateSequence sv h) (notLost h n).
Proof.
  assert (Hsub : forall fs, atExec h n fs -> notLost h n fs) by (intros fs Hf; by left).
  unfold updateSequence.
  apply (leads_bind _ (atExec h n)); [by apply leads_same | done |]. intros _.
  apply (leads_bind _ (atExec h n)); [|done|].
  { apply leads_same. intros fs. unfold getLatestRelease, bind, emit.
    by destruct (latestRelease h). }
  intros latest. apply (leads_bind _ (atExec h n)); [|done|].
  { apply leads_same. intros fs. unfold parseVersion. by destruct (parse sv _). }
  intros cv. apply (leads_bind _ (atExec h n)); [|done|].
  { apply leads_same. intros fs. unfold parseVersion. by destruct (parse sv _). }
  intros lv. destruct (greaterThan sv lv cv).
  - apply (leads_bind _ (atExec h n)); [by apply leads_same | done |]. intros _.
    apply performUpdate_keeps.
  - eapply leads_weaken; [by apply leads_same | done].
Qed.

Lemma cleanupOldVersions_keeps (h : Host) (n : Node) :
  leads (atExec h n) (cleanupOldVersions h) (atExec h n).
Proof.
  intros fs Hf. unfold atExec in *.
  destruct (cleanupOldVersions_run h fs) as [-> | ->]; cbn [final fst snd]; [done|].
  rewrite lookup_delete_ne; [done | apply oldPath_ne_exec].
Qed.

(** X13.  The updater never loses the running binary.  Whatever the
    release feed and the asset host answer and whatever operations the
    platform refuses, after [check] the binary that was at the executable's
    path is still there, or it is at the backup path. *)
Theorem binary_is_never_lost (sv : SemverLib) (h : Host) (fs : FS) (binary : Node) :
  fs !! execPath h = Some binary ->
  final (check sv h fs) !! execPath h = Some binary
  \/ final (check sv h fs) !! oldPathOf h = Some binary.
Proof.
  revert fs. change (leads (atExec h binary) (check sv h) (notLost h binary)).
  assert (Hsub : forall fs, atExec h binary fs -> notLost h binary fs)
    by (intros fs Hf; by left).
  unfold check.
  apply (leads_bind _ (atExec h binary)); [apply cleanupOldVersions_keeps | done |].
  intros _. destruct (isDev h).
  - eapply leads_weaken; [by apply leads_same | done].
  - apply (leads_tryCatch _ (notLost h binary)); [apply updateSequence_keeps | done |].
    intros e. by apply leads_same.
Qed.

(** A successful update: the previous binary is the backup. *)
Lemma binary_is_never_lost_witness :
  let h := linuxHost "v1.1.0" (fun _ => false) in
  final (check CoreSemver.lib h installed) !! "/opt/mod-manager" = Some (RegularFile [x01; x02])
  \/ final (check CoreSemver.lib h installed) !! "/opt/mod-manager.old"
     = Some (RegularFile [x01; x02]).
Proof.
  intros h.
  apply (binary_is_never_lost CoreSemver.lib h installed (RegularFile [x01; x02])).
  reflexivity.
Defined.

(** ** The outcomes of an update *)

(** The download stage on a platform that permits it: the temporary file
    is written from its start and is not truncated. *)
Lemma stage_run (h : Host) (body : option Body) (u : string) (fs : FS) :
  (forall b, body = Some b -> complete b = true) ->
  denied h (SysOpen (tempPathOf h)) = false ->
  denied h (SysChmod (tempPathOf h)) = false ->
  (forall n, fs !! tempPathOf h <> Some (Directory n)) ->
  exists t,
    (hostOpenWrite h (tempPathOf h) ;;
     match body with
     | None => ret tt
     | Some b =>
         writeFile (tempPathOf h) (received b) ;;
         if complete b then ret tt else throw (NetworkError u)
     end ;;
     (if String.eqb (os h) "windows" then ret tt else hostChmod h (tempPathOf h))) fs
    = (Val tt,
       <[tempPathOf h := RegularFile (overwrite (staged body) (leftover h fs))]> fs, t).
Proof.
  intros Hbody Hopen Hchmod Hdir.
  unfold hostOpenWrite, hostChmod, openWrite, writeFile, bind, ret, throw, leftover.
  rewrite Hopen, Hchmod.
  destruct (fs !! tempPathOf h) as [[c|n]|] eqn:Et; [| by destruct (Hdir n) |].
  - destruct body as [b|]; cbn [staged].
    + rewrite Et, (Hbody b eq_refl).
      destruct (String.eqb (os h) "windows"); cbn; rewrite ?lookup_insert_eq; eauto.
    + assert (Hid : <[tempPathOf h := RegularFile (overwrite [] c)]> fs = fs)
        by (by apply insert_id).
      rewrite Hid.
      destruct (String.eqb (os h) "windows"); cbn; rewrite ?Et; eauto.
  - destruct body as [b|]; cbn [staged].
    + rewrite lookup_insert_eq, (Hbody b eq_refl). rewrite insert_insert_eq.
      destruct (String.eqb (os h) "windows"); cbn; rewrite ?lookup_insert_eq; eauto.
    + destruct (String.eqb (os h) "windows"); cbn; rewrite ?lookup_insert_eq; eauto.
Qed.

Lemma overwrite_longer (data old : list byte) :
  (length old <= length data)%nat -> overwrite data old = data.
Proof. intros Hl. unfold overwrite. rewrite List.skipn_all2 by lia. apply app_nil_r. Qed.

(** The swap when the platform permits both renames. *)
Lemma swapExecutable_success (h : Host) (fs : FS) (binary new : Node) :
  denied h (SysRename (execPath h) (oldPathOf h)) = false ->
  denied h (SysRename (tempPathOf h) (execPath h)) = false ->
  fs !! execPath h = Some binary ->
  fs !! tempPathOf h = Some new ->
  (forall n, fs !! oldPathOf h <> Some (Directory n)) ->
  swapExecutable h fs =
    (Val tt,
     <[execPath h := new]>
       (delete (tempPathOf h) (<[oldPathOf h := binary]> (delete (execPath h) fs))),
     [Rename (execPath h) (oldPathOf h); Rename (tempPathOf h) (execPath h)]).
Proof.
  intros H1 H2 Hexec Htemp Hold. unfold swapExecutable.
  assert (Hfirst : hostRename h (execPath h) (oldPathOf h) fs =
            (Val tt, <[oldPathOf h := binary]> (delete (execPath h) fs),
             [Rename (execPath h) (oldPathOf h)])).
  { unfold hostRename. rewrite H1, Hexec.
    destruct (fs !! oldPathOf h) as [[c|n]|] eqn:E; try reflexivity.
    by destruct (Hold n). }
  rewrite (bind_val _ _ _ _ _ _ (tryCatch_val _ _ _ _ _ _ Hfirst)).
  set (fs1 := <[oldPathOf h := binary]> (delete (execPath h) fs)).
  assert (Hsecond : hostRename h (tempPathOf h) (execPath h) fs1 =
            (Val tt, <[execPath h := new]> (delete (tempPathOf h) fs1),
             [Rename (tempPathOf h) (execPath h)])).
  { unfold hostRename. rewrite H2.
    assert (Ht1 : fs1 !! tempPathOf h = Some new).
    { subst fs1. rewrite lookup_insert_ne by (symmetry; apply tempPath_ne_old).
      rewrite lookup_delete_ne by (symmetry; apply tempPath_ne_exec). exact Htemp. }
    assert (He1 : fs1 !! execPath h = None).
    { subst fs1. rewrite lookup_insert_ne by apply oldPath_ne_exec.
      apply lookup_delete_eq. }
    by rewrite Ht1, He1. }
  rewrite (tryCatch_val _ _ _ _ _ _ Hsecond). reflexivity.
Qed.

Lemma performUpdate_success (h : Host) (r : GitHubRelease) (fs : FS)
    (a : GitHubAsset) (body : option Body) (binary : Node) :
  permissive h ->
  result (getAssetForPlatform h (assets r) fs) = Val a ->
  download h (browser_download_url a) = Http true body ->
  (forall b, body = Some b -> complete b = true) ->
  fs !! execPath h = Some binary ->
  (forall n, fs !! tempPathOf h <> Some (Directory n)) ->
  (forall n, fs !! oldPathOf h <> Some (Directory n)) ->
  let o := performUpdate h r fs in
  result o = Exit (childStatus h)
  /\ final o !! execPath h
     = Some (RegularFile (overwrite (staged body) (leftover h fs)))
  /\ final o !! oldPathOf h = Some binary
  /\ final o !! tempPathOf h = None
  /\ last (trace o) = Some (Spawn (execPath h) (args h)).
Proof.
  intros Hperm Hasset Hdl Hbody Hexec Htemp Hold o. subst o.
  assert (Ha : getAssetForPlatform h (assets r) fs = (Val a, fs, [])).
  { rewrite (run_eta (getAssetForPlatform h (assets r) fs)), Hasset.
    by destruct (getAssetForPlatform_pure h (assets r) fs) as [-> ->]. }
  unfold performUpdate. rewrite (bind_val _ _ _ _ _ _ Ha).
  unfold log, emit. rewrite !(bind_val _ _ fs fs tt _ eq_refl).
  rewrite Hdl. cbn [negb].
  destruct (stage_run h body (browser_download_url a) fs Hbody (Hperm _) (Hperm _) Htemp)
    as (t & Hstage).
  rewrite (bind3_val _ _ _ _ _ _ _ Hstage).
  set (new := overwrite (staged body) (leftover h fs)).
  set (fs' := <[tempPathOf h := RegularFile new]> fs).
  assert (Hswap : swapExecutable h fs' =
            (Val tt,
             <[execPath h := RegularFile new]>
               (delete (tempPathOf h) (<[oldPathOf h := binary]> (delete (execPath h) fs'))),
             [Rename (execPath h) (oldPathOf h); Rename (tempPathOf h) (execPath h)])).
  { apply swapExecutable_success; [apply Hperm | apply Hperm | | |].
    - subst fs'. rewrite lookup_insert_ne; [done | apply tempPath_ne_exec].
    - subst fs'. apply lookup_insert_eq.
    - intros n. subst fs'. rewrite lookup_insert_ne; [apply Hold | apply tempPath_ne_old]. }
  rewrite (bind_val _ _ _ _ _ _ Hswap).
  set (fs2 := <[execPath h := RegularFile new]> (delete _ _)).
  rewrite (bind_val _ _ fs2 fs2 tt _ eq_refl).
  assert (Hx : fs2 !! execPath h = Some (RegularFile new))
    by (subst fs2; apply lookup_insert_eq).
  assert (Hspawn : spawn (execPath h) (args h) fs2
                   = (Val tt, fs2, [Spawn (execPath h) (args h)])).
  { unfold spawn. by rewrite Hx. }
  rewrite (bind_val _ _ _ _ _ _ Hspawn).
  cbn [result final trace fst snd exit].
  split; [done|]. split; [done|]. split; [|split].
  - subst fs2. rewrite lookup_insert_ne by (symmetry; apply oldPath_ne_exec).
    rewrite lookup_delete_ne by apply tempPath_ne_old. apply lookup_insert_eq.
  - subst fs2. rewrite lookup_insert_ne by (symmetry; apply tempPath_ne_exec).
    apply lookup_delete_eq.
  - rewrite !app_nil_r, !app_assoc. apply last_snoc.
Qed.

(** X14.  A successful update.  On a platform that refuses nothing, when
    the feed announces a newer version with an asset for the platform whose
    download ends normally: [check] ends the process with the exit code of
    the restarted child; the backup path holds the previous binary, the
    temporary file is gone, and the last event is the restart with the
    arguments of the process.  The executable's path holds the bytes received
    (nothing for an answer without a body) written over what an earlier update
    left in the temporary file, which is not truncated: the new executable is
    the bytes received exactly when that file was missing or not longer. *)
Theorem update_installs_release (sv : SemverLib) (h : Host) (fs : FS)
    (r : GitHubRelease) (cv lv : SemVer sv) (a : GitHubAsset) (body : option Body)
    (binary : Node) :
  isDev h = false ->
  permissive h ->
  latestRelease h = FeedRelease r ->
  parse sv APP_VERSION = Some cv ->
  parse sv (tag_name r) = Some lv ->
  greaterThan sv lv cv = true ->
  (forall fs0, result (getAssetForPlatform h (assets r) fs0) = Val a) ->
  download h (browser_download_url a) = Http true body ->
  (forall b, body = Some b -> complete b = true) ->
  fs !! execPath h = Some binary ->
  (forall n, fs !! tempPathOf h <> Some (Directory n)) ->
  let o := check sv h fs in
  result o = Exit (childStatus h)
  /\ final o !! execPath h
     = Some (RegularFile (overwrite (staged body) (leftover h fs)))
  /\ ((length (leftover h fs) <= length (staged body))%nat ->
      final o !! execPath h = Some (RegularFile (staged body)))
  /\ final o !! oldPathOf h = Some binary
  /\ final o !! tempPathOf h = None
  /\ last (trace o) = Some (Spawn (execPath h) (args h)).
Proof.
  intros Hdev Hperm Hfeed Hcv Hlv Hgt Hasset Hdl Hbody Hexec Htemp o. subst o.
  set (fc := final (cleanupOldVersions h fs)).
  assert (Hfc : forall p, p <> oldPathOf h -> fc !! p = fs !! p).
  { intros p Hp. subst fc.
    destruct (cleanupOldVersions_run h fs) as [-> | ->]; cbn [final fst snd]; [done|].
    by rewrite lookup_delete_ne. }
  assert (Hfc_old : fc !! oldPathOf h = None).
  { subst fc. unfold cleanupOldVersions, tryCatch, hostRemove, remove, throw, ret.
    rewrite (Hperm _). destruct (fs !! oldPathOf h) eqn:E; cbn; [|done].
    apply lookup_delete_eq. }
  destruct (performUpdate_success h r fc a body binary Hperm (Hasset fc) Hdl Hbody)
    as (Hres & Hx & Ho & Ht & Hlast).
  { rewrite Hfc; [done | symmetry; apply oldPath_ne_exec]. }
  { intros n. rewrite Hfc; [apply Htemp | apply tempPath_ne_old]. }
  { intros n. by rewrite Hfc_old. }
  assert (Hleft : leftover h fc = leftover h fs).
  { unfold leftover. rewrite Hfc; [done | apply tempPath_ne_old]. }
  rewrite Hleft in Hx.
  rewrite (check_run sv h fs Hdev). fold fc.
  rewrite (updateSequence_newer sv h fc r cv lv Hfeed Hcv Hlv Hgt).
  cbn [result final trace fst snd]. rewrite Hres.
  split; [done|]. split; [done|].
  split; [intros Hl; by rewrite Hx, overwrite_longer|].
  split; [done|]. split; [done|].
  rewrite app_nil_r, !app_assoc.
  destruct (trace (performUpdate h r fc)) as [|e t] eqn:Et using rev_ind; [done|].
  rewrite last_snoc in Hlast. rewrite app_assoc. rewrite last_snoc. done.
Qed.

Lemma update_installs_release_witness :
  let h := linuxHost "v1.1.0" (fun _ => false) in
  let o := check CoreSemver.lib h installed in
  result o = Exit 0
  /\ final o !! "/opt/mod-manager" = Some (RegularFile [x7f; x45; x4c; x46])
  /\ final o !! "/opt/mod-manager.old" = Some (RegularFile [x01; x02]).
Proof.
  intros h o.
  destruct (update_installs_release CoreSemver.lib h installed (releaseOf "v1.1.0")
              (1, 0, 1)%N (1, 1, 0)%N
              {| asset_name := "mod-manager-linux-x64";
                 browser_download_url := "https://github.example/linux";
                 asset_size := 4 |}
              (Some {| received := [x7f; x45; x4c; x46]; complete := true |})
              (RegularFile [x01; x02]))
    as (Hr & _ & Hx & Ho & _); try reflexivity.
  - intros c. reflexivity.
  - intros b [= <-]. reflexivity.
  - intros n. vm_compute. discriminate.
  - split; [exact Hr|]. split; [apply Hx; vm_compute; lia | exact Ho].
Defined.

(** ** Aborted updates *)

(** X15.  The first rename is refused.  The executable and the backup path
    are as before.  If the temporary file can be removed it is removed and
    the error reports the rename; if its removal is refused too, the error of
    the removal is the one that propagates and the temporary file stays. *)
Theorem refused_rename_aborts_cleanly (h : Host) (fs : FS) :
  denied h (SysRename (execPath h) (oldPathOf h)) = true ->
  let o := swapExecutable h fs in
  final o !! execPath h = fs !! execPath h
  /\ final o !! oldPathOf h = fs !! oldPathOf h
  /\ (denied h (SysRemove (tempPathOf h)) = false -> is_Some (fs !! tempPathOf h) ->
        result o = Throw (RenameCurrentFailed (PermissionDenied (execPath h)))
        /\ final o !! tempPathOf h = None)
  /\ (denied h (SysRemove (tempPathOf h)) = true ->
        result o = Throw (PermissionDenied (tempPathOf h)) /\ final o = fs).
Proof.
  intros H1 o. subst o.
  unfold swapExecutable, bind, tryCatch, hostRename, hostRemove, remove, throw.
  rewrite H1. destruct (denied h (SysRemove (tempPathOf h))) eqn:Hrm.
  - cbn. repeat split; try done.
  - destruct (fs !! tempPathOf h) as [nt|] eqn:Et; cbn.
    + split; [apply lookup_delete_ne, tempPath_ne_exec|].
      split; [apply lookup_delete_ne, tempPath_ne_old|].
      split; [|done]. intros _ _. split; [done | apply lookup_delete_eq].
    + split; [done|]. split; [done|]. split; [|done]. by intros _ [? [=]].
Qed.

Lemma refused_rename_aborts_cleanly_witness :
  let h := linuxHost "v1.1.0"
             (fun c => match c with SysRename src _ => String.eqb src "/opt/mod-manager"
                               | _ => false end) in
  let fs : FS := <["/opt/mod-manager.new" := RegularFile [x7f]]> installed in
  let o := swapExecutable h fs in
  final o !! "/opt/mod-manager" = Some (RegularFile [x01; x02])
  /\ final o !! "/opt/mod-manager.new" = None.
Proof.
  intros h fs o.
  destruct (refused_rename_aborts_cleanly h fs eq_refl) as (Hx & _ & Hrm & _).
  split; [exact Hx|].
  apply Hrm; [reflexivity | vm_compute; eauto].
Defined.

(** X16.  The second rename is refused and the restoration is permitted.
    The previous binary is back at the executable's path, the backup path is
    empty, the downloaded file stays at the temporary path, and the error
    reports that the update could not be applied. *)
Theorem refused_install_is_rolled_back (h : Host) (fs : FS) (binary : Node) :
  denied h (SysRename (execPath h) (oldPathOf h)) = false ->
  denied h (SysRename (tempPathOf h) (execPath h)) = true ->
  denied h (SysRename (oldPathOf h) (execPath h)) = false ->
  fs !! execPath h = Some binary ->
  (forall n, fs !! oldPathOf h <> Some (Directory n)) ->
  let o := swapExecutable h fs in
  result o = Throw (ApplyUpdateFailed (PermissionDenied (tempPathOf h)))
  /\ final o !! execPath h = Some binary
  /\ final o !! oldPathOf h = None
  /\ final o !! tempPathOf h = fs !! tempPathOf h
  /\ trace o = [Rename (execPath h) (oldPathOf h); Rename (oldPathOf h) (execPath h)].
Proof.
  intros H1 H2 H3 Hexec Hold o. subst o. unfold swapExecutable.
  assert (Hfirst : hostRename h (execPath h) (oldPathOf h) fs =
            (Val tt, <[oldPathOf h := binary]> (delete (execPath h) fs),
             [Rename (execPath h) (oldPathOf h)])).
  { unfold hostRename. rewrite H1, Hexec.
    destruct (fs !! oldPathOf h) as [[c|n]|] eqn:E; try reflexivity.
    by destruct (Hold n). }
  rewrite (bind_val _ _ _ _ _ _ (tryCatch_val _ _ _ _ _ _ Hfirst)).
  set (fs1 := <[oldPathOf h := binary]> (delete (execPath h) fs)).
  assert (Hsecond : hostRename h (tempPathOf h) (execPath h) fs1 =
            (Throw (PermissionDenied (tempPathOf h)), fs1, [])).
  { unfold hostRename. by rewrite H2. }
  rewrite (tryCatch_throw _ _ _ _ _ _ Hsecond).
  assert (Hthird : hostRename h (oldPathOf h) (execPath h) fs1 =
            (Val tt, <[execPath h := binary]> (delete (oldPathOf h) fs1),
             [Rename (oldPathOf h) (execPath h)])).
  { unfold hostRename. rewrite H3.
    assert (Ho1 : fs1 !! oldPathOf h = Some binary) by (subst fs1; apply lookup_insert_eq).
    assert (He1 : fs1 !! execPath h = None).
    { subst fs1. rewrite lookup_insert_ne by apply oldPath_ne_exec. apply lookup_delete_eq. }
    by rewrite Ho1, He1. }
  rewrite (bind_val _ _ _ _ _ _ Hthird).
  cbn [result final trace fst snd throw app].
  split; [done|]. split; [apply lookup_insert_eq|]. split; [|split; [|done]].
  - rewrite lookup_insert_ne by (symmetry; apply oldPath_ne_exec). apply lookup_delete_eq.
  - rewrite lookup_insert_ne by (symmetry; apply tempPath_ne_exec).
    rewrite lookup_delete_ne by (symmetry; apply tempPath_ne_old).
    subst fs1. rewrite lookup_insert_ne by (symmetry; apply tempPath_ne_old).
    apply lookup_delete_ne. symmetry. apply tempPath_ne_exec.
Qed.

Lemma refused_install_is_rolled_back_witness :
  let h := linuxHost "v1.1.0"
             (fun c => match c with SysRename src _ => String.eqb src "/opt/mod-manager.new"
                               | _ => false end) in
  let fs : FS := <["/opt/mod-manager.new" := RegularFile [x7f]]> installed in
  let o := swapExecutable h fs in
  final o !! "/opt/mod-manager" = Some (RegularFile [x01; x02])
  /\ final o !! "/opt/mod-manager.old" = None.
Proof.
  intros h fs o.
  destruct (refused_install_is_rolled_back h fs (RegularFile [x01; x02]))
    as (_ & Hx & Ho & _); try reflexivity.
  - intros n. vm_compute. discriminate.
  - split; [exact Hx | exact Ho].
Defined.

(** ** The update check *)

(** X17.  [cleanupOldVersions] never fails and is silent.  Only the backup
    path can change: it is empty afterwards unless the platform refuses its
    removal, in which case nothing changes. *)
Theorem cleanupOldVersions_only_backup (h : Host) (fs : FS) :
  result (cleanupOldVersions h fs) = Val tt
  /\ (forall p, p <> oldPathOf h -> final (cleanupOldVersions h fs) !! p = fs !! p)
  /\ (denied h (SysRemove (oldPathOf h)) = false ->
        final (cleanupOldVersions h fs) !! oldPathOf h = None)
  /\ (denied h (SysRemove (oldPathOf h)) = true -> final (cleanupOldVersions h fs) = fs)
  /\ Forall (fun e => forall m, e <> Log m) (trace (cleanupOldVersions h fs)).
Proof.
  unfold cleanupOldVersions, tryCatch, hostRemove, remove, throw, ret.
  destruct (denied h (SysRemove (oldPathOf h))); [by repeat split|].
  destruct (fs !! oldPathOf h) eqn:E; cbn.
  - split; [done|]. split; [intros p Hp; by apply lookup_delete_ne|].
    split; [intros _; apply lookup_delete_eq|]. split; [done|]. by repeat constructor.
  - by repeat split.
Qed.

(** X18.  In development mode (the path of the executable contains
    [deno]) [check] does the cleanup of the backup and nothing else: whatever
    the release feed holds, no request is made, no update action is taken,
    and the check returns after the development-mode message. *)
Theorem dev_mode_skips_update (sv : SemverLib) (h : Host) (fs : FS) :
  isDev h = true ->
  result (check sv h fs) = Val tt
  /\ final (check sv h fs) = final (cleanupOldVersions h fs)
  /\ Forall (fun e => isRequest e = false /\ isUpdateAction e = false) (trace (check sv h fs))
  /\ last (trace (check sv h fs)) = Some (Log DevMode).
Proof.
  intros Hdev. unfold check, bind. rewrite Hdev.
  destruct (cleanupOldVersions_run h fs) as [-> | ->]; cbn; by repeat constructor.
Qed.

(** A newer release is announced, and ignored. *)
Lemma dev_mode_skips_update_witness :
  let fs : FS := {["/usr/bin/deno" := RegularFile [x01; x02]]} in
  result (check CoreSemver.lib (devHost "v9.9.9") fs) = Val tt
  /\ final (check CoreSemver.lib (devHost "v9.9.9") fs) = fs.
Proof.
  intros fs.
  destruct (dev_mode_skips_update CoreSemver.lib (devHost "v9.9.9") fs eq_refl)
    as (Hr & Hf & _).
  split; [exact Hr|]. rewrite Hf. vm_compute. reflexivity.
Defined.

(** X19.  [getAssetForPlatform] answers an asset only on the three
    supported platforms, and then the first asset of the release that bears
    the name fixed for the platform; on any other platform it fails whatever
    the release holds.  It makes no request and changes nothing. *)
Theorem getAssetForPlatform_selects (h : Host) (available : list GitHubAsset) (fs : FS) :
  (forall a, result (getAssetForPlatform h available fs) = Val a ->
     exists before after,
       available = before ++ a :: after
       /\ Forall (fun b => asset_name b <> asset_name a) before
       /\ ((os h = "windows" /\ arch h = "x86_64"
            /\ asset_name a = "mod-manager-windows-x64.exe")
           \/ (os h = "linux" /\ arch h = "x86_64"
               /\ asset_name a = "mod-manager-linux-x64")
           \/ (os h = "darwin" /\ arch h = "aarch64"
               /\ asset_name a = "mod-manager-macos-arm64")))
  /\ (result (getAssetForPlatform h available fs) = Throw (UnsupportedPlatform (os h) (arch h))
      <-> ~ supportedPlatform h)
  /\ final (getAssetForPlatform h available fs) = fs
  /\ trace (getAssetForPlatform h available fs) = [].
Proof.
  assert (Hsel : forall pat a,
            Js.find (fun b => String.eqb (asset_name b) pat) available = Some a ->
            exists before after,
              available = before ++ a :: after
              /\ Forall (fun b => asset_name b <> asset_name a) before
              /\ asset_name a = pat).
  { intros pat a Hf. destruct (find_split _ _ _ Hf) as (before & after & Heq & Ha & Hb).
    apply String.eqb_eq in Ha. exists before, after. split; [done|]. split; [|done].
    eapply Forall_impl; [exact Hb|]. intros b Hne. cbn in Hne.
    apply String.eqb_neq in Hne. congruence. }
  split; [|split; [|apply getAssetForPlatform_pure]].
  - intros a. unfold getAssetForPlatform, bind, ret, throw.
    destruct (String.eqb (os h) "windows" && String.eqb (arch h) "x86_64") eqn:Hw.
    { apply andb_true_iff in Hw as [Ho Ha]. apply String.eqb_eq in Ho, Ha.
      destruct (Js.find _ available) as [a'|] eqn:Hf; cbn; [|done]. intros [= ->].
      destruct (Hsel _ _ Hf) as (before & after & ? & ? & ?).
      exists before, after. split; [done|]. split; [done|]. by left. }
    destruct (String.eqb (os h) "linux" && String.eqb (arch h) "x86_64") eqn:Hl.
    { apply andb_true_iff in Hl as [Ho Ha]. apply String.eqb_eq in Ho, Ha.
      destruct (Js.find _ available) as [a'|] eqn:Hf; cbn; [|done]. intros [= ->].
      destruct (Hsel _ _ Hf) as (before & after & ? & ? & ?).
      exists before, after. split; [done|]. split; [done|]. right. by left. }
    destruct (String.eqb (os h) "darwin" && String.eqb (arch h) "aarch64") eqn:Hd.
    { apply andb_true_iff in Hd as [Ho Ha]. apply String.eqb_eq in Ho, Ha.
      destruct (Js.find _ available) as [a'|] eqn:Hf; cbn; [|done]. intros [= ->].
      destruct (Hsel _ _ Hf) as (before & after & ? & ? & ?).
      exists before, after. split; [done|]. split; [done|]. right. by right. }
    done.
  - unfold getAssetForPlatform, bind, ret, throw, supportedPlatform.
    destruct (String.eqb (os h) "windows" && String.eqb (arch h) "x86_64") eqn:Hw.
    { apply andb_true_iff in Hw as [Ho Ha]. apply String.eqb_eq in Ho, Ha.
      split; [|intros Hn; destruct Hn; by left].
      destruct (Js.find _ available); cbn; done. }
    destruct (String.eqb (os h) "linux" && String.eqb (arch h) "x86_64") eqn:Hl.
    { apply andb_true_iff in Hl as [Ho Ha]. apply String.eqb_eq in Ho, Ha.
      split; [|intros Hn; destruct Hn; right; by left].
      destruct (Js.find _ available); cbn; done. }
    destruct (String.eqb (os h) "darwin" && String.eqb (arch h) "aarch64") eqn:Hd.
    { apply andb_true_iff in Hd as [Ho Ha]. apply String.eqb_eq in Ho, Ha.
      split; [|intros Hn; destruct Hn; right; by right].
      destruct (Js.find _ available); cbn; done. }
    split; [|done]. intros _ [[Ho Ha]|[[Ho Ha]|[Ho Ha]]]; rewrite Ho, Ha in *; done.
Qed.

Lemma getAssetForPlatform_selects_witness :
  let h := {| execPath := "/opt/mod-manager"; os := "linux"; arch := "aarch64";
              args := []; latestRelease := FeedStatus;
              download := fun _ => NoResponse; denied := fun _ => false;
              childStatus := 0 |} in
  result (getAssetForPlatform h (assets (releaseOf "v1.1.0")) ∅)
  = Throw (UnsupportedPlatform "linux" "aarch64").
Proof.
  intros h.
  destruct (getAssetForPlatform_selects h (assets (releaseOf "v1.1.0")) ∅) as (_ & Hun & _).
  apply Hun. intros [[? ?]|[[? ?]|[? ?]]]; discriminate.
Defined.


(** X20.  Without a usable release nothing is updated.  When the feed is
    unreachable or answers an error status, or the tag of the release or the
    current version does not parse, [check] returns after the warning of its
    [catch]; the directory is what the cleanup left, and no asset is
    requested, no file written or renamed, and no process started. *)
Theorem unusable_release_changes_nothing (sv : SemverLib) (h : Host) (fs : FS) :
  isDev h = false ->
  latestRelease h = FeedUnreachable
  \/ latestRelease h = FeedStatus
  \/ parse sv APP_VERSION = None
  \/ (exists r, latestRelease h = FeedRelease r /\ parse sv (tag_name r) = None) ->
  result (check sv h fs) = Val tt
  /\ final (check sv h fs) = final (cleanupOldVersions h fs)
  /\ Forall (fun e => isUpdateAction e = false) (trace (check sv h fs))
  /\ exists e, last (trace (check sv h fs)) = Some (Log (UpdateCheckError e)).
Proof.
  intros Hdev Hcase.
  assert (Hseq : forall fs0, exists e,
            updateSequence sv h fs0 = (Throw e, fs0, [Log CheckingUpdates; ReleaseRequest])).
  { intros fs0. unfold updateSequence, getLatestRelease, parseVersion, bind, log, emit, ret, throw.
    destruct Hcase as [-> | [-> | [Hp | (r & -> & Hp)]]]; cbn; eauto.
    - destruct (latestRelease h); cbn; eauto. rewrite Hp. cbn. eauto.
    - destruct (parse sv APP_VERSION); cbn; [|eauto]. rewrite Hp. cbn. eauto. }
  rewrite (check_run sv h fs Hdev).
  destruct (Hseq (final (cleanupOldVersions h fs))) as [e ->].
  cbn [result final trace fst snd].
  split; [done|]. split; [done|]. split.
  - apply Forall_app. split; [apply cleanupOldVersions_quiet | by repeat constructor].
  - exists e. rewrite app_assoc. apply last_snoc.
Qed.

Lemma unusable_release_changes_nothing_witness :
  let h := linuxHost "nightly" (fun _ => false) in
  result (check CoreSemver.lib h installed) = Val tt
  /\ final (check CoreSemver.lib h installed) = final (cleanupOldVersions h installed).
Proof.
  intros h.
  destruct (unusable_release_changes_nothing CoreSemver.lib h installed eq_refl)
    as (Hr & Hf & _).
  - right. right. right. exists (releaseOf "nightly"). split; reflexivity.
  - split; [exact Hr | exact Hf].
Defined.

(** X21.  [performUpdate] writes nothing unless an asset is found and its
    download is answered with an ok status: on an unsupported platform, with
    no asset of the platform's name, with no answer or with another status,
    it fails and the directory is as before. *)
Theorem update_fails_before_writing (h : Host) (r : GitHubRelease) (fs : FS) :
  (forall a, result (getAssetForPlatform h (assets r) fs) = Val a ->
     download h (browser_download_url a) = NoResponse
     \/ exists body, download h (browser_download_url a) = Http false body) ->
  (exists e, result (performUpdate h r fs) = Throw e)
  /\ final (performUpdate h r fs) = fs
  /\ Forall (fun e => forall p, ~ touches p e) (trace (performUpdate h r fs)).
Proof.
  intros Hcase. unfold performUpdate.
  destruct (getAssetForPlatform_pure h (assets r) fs) as [Hf Ht].
  assert (Hne : forall c, result (getAssetForPlatform h (assets r) fs) <> Exit c).
  { intros c. unfold getAssetForPlatform, bind, ret, throw.
    repeat (case_match; simplify_eq; cbn); done. }
  destruct (getAssetForPlatform h (assets r) fs) as [[[a|e|c] fs1] t1] eqn:Ha;
    cbn [result final trace fst snd] in *; subst.
  - rewrite (bind_val _ _ _ _ _ _ Ha). unfold log, emit.
    rewrite !(bind_val _ _ fs fs tt _ eq_refl).
    assert (Hlogs : Forall (fun e => forall p, ~ touches p e)
              [Log (DownloadingUpdate (asset_name a)); Log (UpdateSize (asset_size a));
               Fetch (browser_download_url a)]).
    { repeat (constructor; [intros p Hp; exact Hp|]). constructor. }
    destruct (Hcase a eq_refl) as [-> | [body ->]]; cbn;
      (split; [eauto|]; split; [done|]; exact Hlogs).
  - rewrite (bind_throw _ _ _ _ _ _ Ha). cbn. split; [eauto|]. split; [done|]. constructor.
  - by destruct (Hne c).
Qed.

Lemma update_fails_before_writing_witness :
  let h := {| execPath := "/opt/mod-manager"; os := "linux"; arch := "aarch64";
              args := []; latestRelease := FeedRelease (releaseOf "v1.1.0");
              download := fun _ => NoResponse; denied := fun _ => false;
              childStatus := 0 |} in
  final (performUpdate h (releaseOf "v1.1.0") installed) = installed.
Proof.
  intros h.
  destruct (update_fails_before_writing h (releaseOf "v1.1.0") installed) as (_ & Hf & _).
  - intros a Ha. vm_compute in Ha. discriminate Ha.
  - exact Hf.
Defined.

(** X22.  An interrupted download.  When the stream of the asset breaks,
    [performUpdate] fails with the network error; the temporary file holds
    what was received and is not removed, and every other path, the
    executable included, is as before. *)
Theorem interrupted_download_leaves_temp_file (h : Host) (r : GitHubRelease) (fs : FS)
    (a : GitHubAsset) (b : Body) :
  result (getAssetForPlatform h (assets r) fs) = Val a ->
  download h (browser_download_url a) = Http true (Some b) ->
  complete b = false ->
  denied h (SysOpen (tempPathOf h)) = false ->
  (forall n, fs !! tempPathOf h <> Some (Directory n)) ->
  let o := performUpdate h r fs in
  result o = Throw (NetworkError (browser_download_url a))
  /\ final o !! tempPathOf h
     = Some (RegularFile (overwrite (received b) (leftover h fs)))
  /\ (forall p, p <> tempPathOf h -> final o !! p = fs !! p)
  /\ Forall (fun e => forall s d, e <> Rename s d) (trace o).
Proof.
  intros Hasset Hdl Hc Hopen Hdir o. subst o.
  assert (Ha : getAssetForPlatform h (assets r) fs = (Val a, fs, [])).
  { rewrite (run_eta (getAssetForPlatform h (assets r) fs)), Hasset.
    by destruct (getAssetForPlatform_pure h (assets r) fs) as [-> ->]. }
  unfold performUpdate. rewrite (bind_val _ _ _ _ _ _ Ha).
  unfold log, emit. rewrite !(bind_val _ _ fs fs tt _ eq_refl).
  rewrite Hdl. cbn [negb].
  unfold hostOpenWrite, openWrite, writeFile, bind, ret, throw, leftover.
  rewrite Hopen, Hc.
  destruct (fs !! tempPathOf h) as [[c|n]|] eqn:Et; [| by destruct (Hdir n) |].
  - rewrite Et. cbn. rewrite lookup_insert_eq. split; [done|]. split; [done|].
    split; [intros p Hp; by rewrite lookup_insert_ne|]. by repeat constructor.
  - rewrite lookup_insert_eq. cbn. rewrite lookup_insert_eq. split; [done|]. split; [done|].
    split; [intros p Hp; by rewrite !lookup_insert_ne|]. by repeat constructor.
Qed.

Lemma interrupted_download_leaves_temp_file_witness :
  let h := {| execPath := "/opt/mod-manager"; os := "linux"; arch := "x86_64";
              args := []; latestRelease := FeedRelease (releaseOf "v1.1.0");
              download := fun _ => Http true (Some {| received := [x7f; x45]; complete := false |});
              denied := fun _ => false; childStatus := 0 |} in
  let o := performUpdate h (releaseOf "v1.1.0") installed in
  final o !! "/opt/mod-manager.new" = Some (RegularFile [x7f; x45])
  /\ final o !! "/opt/mod-manager" = Some (RegularFile [x01; x02]).
Proof.
  intros h o.
  destruct (interrupted_download_leaves_temp_file h (releaseOf "v1.1.0") installed
              {| asset_name := "mod-manager-linux-x64";
                 browser_download_url := "https://github.example/linux";
                 asset_size := 4 |}
              {| received := [x7f; x45]; complete := false |})
    as (_ & Ht & Hframe & _); try reflexivity.
  - intros n. vm_compute. discriminate.
  - split; [exact Ht|]. rewrite Hframe; [reflexivity | discriminate].
Defined.

(** ** Start-up *)

Lemma externalUrl_run (src : ExternalSrc) (d : Disk) :
  externalUrl src d =
    (if wellFormedSource src then BootVal (addressOf src)
     else if String.eqb (src_type src) "github" then BootThrow GithubRequiresRepo
     else if String.eqb (src_type src) "direct" then BootThrow DirectRequiresUrl
     else BootThrow (UnsupportedExternalType (src_type src)),
     d, []).
Proof.
  unfold externalUrl, wellFormedSource, addressOf, bootThrow, bootRet.
  destruct (String.eqb (src_type src) "github") eqn:Hg.
  - destruct (Js.truthy (src_repo src)); cbn; [done|].
    apply String.eqb_eq in Hg. rewrite Hg. done.
  - destruct (String.eqb (src_type src) "direct"); [|done].
    by destruct (Js.truthy (src_url src)).
Qed.

(** [processExternalSource] on a well-formed source: one request, then the
    merged configuration or the one of the manifest. *)
Lemma processExternalSource_run (net : string -> ConfigResponse) (c : LocalConfig)
    (src : ExternalSrc) (d : Disk) :
  wellFormedSource src = true ->
  exists t,
    processExternalSource net c src d =
      (BootVal (match net (addressOf src) with
                | ConfigHttp true (Some x) =>
                    match ext_mods x with Some _ => mergeExternal c x | None => c end
                | _ => c
                end), d,
       [BootLog (ExternalDetected (src_type src)); BootLog (DownloadingConfig (addressOf src));
        ConfigRequest (addressOf src)] ++ t)
    /\ Forall (fun e => isBootLog e = true) t
    /\ (unusableAnswer (net (addressOf src)) = true -> In (BootLog UsingLocal) t).
Proof.
  intros Hwf. unfold processExternalSource, bootBind, bootCatch, bootLog, bootEmit.
  rewrite externalUrl_run, Hwf.
  destruct (net (addressOf src)) as [|[|] [x|]]; cbn.
  - eexists. split; [reflexivity|]. split; [by repeat constructor | intros _; cbn; auto].
  - destruct (ext_mods x); cbn.
    + eexists. split; [reflexivity|]. split; [by repeat constructor | done].
    + eexists. split; [reflexivity|]. split; [by repeat constructor | intros _; cbn; auto].
  - eexists. split; [reflexivity|]. split; [by repeat constructor | intros _; cbn; auto].
  - eexists. split; [reflexivity|]. split; [by repeat constructor | intros _; cbn; auto].
  - eexists. split; [reflexivity|]. split; [by repeat constructor | intros _; cbn; auto].
Qed.

Lemma processExternalSource_malformed (net : string -> ConfigResponse) (c : LocalConfig)
    (src : ExternalSrc) (d : Disk) :
  wellFormedSource src = false ->
  exists e,
    processExternalSource net c src d
    = (BootThrow e, d, [BootLog (ExternalDetected (src_type src))])
    /\ e <> ConfigNotFound.
Proof.
  intros Hwf. unfold processExternalSource, bootBind, bootLog, bootEmit.
  rewrite externalUrl_run, Hwf.
  destruct (String.eqb (src_type src) "github"); [by eexists|].
  destruct (String.eqb (src_type src) "direct"); by eexists.
Qed.

Lemma loadConfig_missing (net : string -> ConfigResponse) (d : Disk) :
  configFile d = NoConfigFile ->
  loadConfig net d =
    (BootExit 0, {| configFile := ConfigText (Some exampleConfig); modsDir := modsDir d |},
     [BootLog CreatingExample; WriteConfig exampleConfig; BootLog EditAndRerun]).
Proof.
  intros H. unfold loadConfig, bootCatch, bootBind, readConfig. rewrite H. reflexivity.
Qed.

Ltac forall_go :=
  repeat first
    [ apply Forall_nil_2
    | apply Forall_cons_2; [reflexivity|]
    | apply Forall_app_2
    | assumption ].

(** With a manifest in place [loadConfig] leaves the working directory as
    it is, does not end the process, and does nothing but print and ask for
    the external manifest. *)
Lemma loadConfig_present (net : string -> ConfigResponse) (d : Disk) (p : option LocalConfig) :
  configFile d = ConfigText p ->
  bootFinal (loadConfig net d) = d
  /\ (forall code, bootResult (loadConfig net d) <> BootExit code)
  /\ Forall (fun e => isLoadEvent e = true) (bootTrace (loadConfig net d)).
Proof.
  intros H. unfold loadConfig, bootCatch, bootBind, readConfig. rewrite H.
  destruct p as [c|]; [|cbn; repeat split; try done; by constructor].
  destruct (local_externalSrc c) as [src|].
  - destruct (wellFormedSource src) eqn:Hwf.
    + destruct (processExternalSource_run net c src d Hwf) as (t & -> & Ht & _).
      set (c' := match net (addressOf src) with | ConfigHttp true (Some x) => _ | _ => c end).
      assert (Hl : Forall (fun e => isLoadEvent e = true) t).
      { eapply Forall_impl; [exact Ht|]. by intros []. }
      unfold bootLog, bootEmit, bootThrow, bootRet.
      destruct (local_mods c') as [ms|]; cbn; (split; [done|]; split; [done|]); forall_go.
    + destruct (processExternalSource_malformed net c src d Hwf) as (e & -> & Hne).
      destruct e; cbn; try done; (split; [done|]; split; [done|]); forall_go.
  - unfold bootLog, bootEmit, bootThrow, bootRet. cbn.
    destruct (local_mods c) as [ms|]; cbn; (split; [done|]; split; [done|]); forall_go.
Qed.

Lemma syncMods_noExit (reg : Registry) (cfg : ModpackConfig) : sat noExit (syncMods reg cfg).
Proof.
  unfold syncMods, getCurrentMods.
  sat_go ltac:(first [apply pruneUnlisted_noExit | apply processAll_noExit | prim_solve]).
Qed.

(** [init] after [loadConfig]. *)
Lemma init_run (reg : Registry) (net : string -> ConfigResponse) (d : Disk) :
  init reg net d =
    match loadConfig net d with
    | (BootVal c, d1, t1) =>
        let e := ensureModsDirectory d1 in
        let s := inModsDir (syncMods reg (modpackOf c)) (bootFinal e) in
        (match bootResult s with
         | BootVal _ => BootVal tt
         | BootThrow _ => BootExit 1
         | BootExit code => BootExit code
         end,
         bootFinal s,
         [BootLog Starting] ++ t1 ++ bootTrace e ++ bootTrace s
           ++ match bootResult s with
              | BootVal _ => [BootLog SyncCompleted]
              | BootThrow err => [BootLog (Fatal err)]
              | BootExit _ => []
              end)
    | (BootThrow err, d1, t1) =>
        (BootExit 1, d1, [BootLog Starting] ++ t1 ++ [BootLog (Fatal err)])
    | (BootExit code, d1, t1) => (BootExit code, d1, [BootLog Starting] ++ t1)
    end.
Proof.
  unfold init, bootBind, bootCatch, bootLog, bootEmit, bootExit.
  destruct (loadConfig net d) as [[[c|err|code] d1] t1]; cbn [app]; try reflexivity.
  assert (He : exists d2 t2, ensureModsDirectory d1 = (BootVal tt, d2, t2)).
  { unfold ensureModsDirectory. destruct (modsDir d1); eauto. }
  destruct He as (d2 & t2 & He). rewrite He. cbn [bootFinal bootTrace fst snd].
  destruct (inModsDir (syncMods reg (modpackOf c)) d2) as [[[[]|err|code] d3] t3];
    cbn [bootResult bootFinal bootTrace fst snd];
    by rewrite ?app_nil_r, <- ?app_assoc.
Qed.

(** The pass in the working directory, once the mods directory exists. *)
Lemma inModsDir_syncMods (reg : Registry) (cfg : ModpackConfig) (d : Disk) (fs : FS) :
  modsDir d = Some fs ->
  inModsDir (syncMods reg cfg) d =
    (match result (syncMods reg cfg fs) with
     | Val _ => BootVal tt
     | Throw e => BootThrow (SyncError e)
     | Exit c => BootExit c
     end,
     {| configFile := configFile d; modsDir := Some (final (syncMods reg cfg fs)) |},
     map Sync (trace (syncMods reg cfg fs))).
Proof.
  intros H. unfold inModsDir. rewrite H.
  by destruct (syncMods reg cfg fs) as [[[[]|e|c] fs'] t].
Qed.

Lemma ensureModsDirectory_run (d : Disk) :
  ensureModsDirectory d =
    (BootVal tt, {| configFile := configFile d; modsDir := Some (default ∅ (modsDir d)) |},
     match modsDir d with None => [Mkdir; BootLog ModsDirCreated] | Some _ => [] end).
Proof. unfold ensureModsDirectory. destruct d as [cf [fs|]]; reflexivity. Qed.

(** X23.  The first run.  Without a manifest [init] writes the example
    manifest and ends the process with code 0: the mods directory is not
    created or read, no request is made and no pass is run.  On the example
    manifest [loadConfig] then returns a configuration for fabric 1.20.1 with
    four entries. *)
Theorem missing_manifest_creates_example (reg : Registry) (net : string -> ConfigResponse)
    (d : Disk) :
  configFile d = NoConfigFile ->
  let o := init reg net d in
  bootResult o = BootExit 0
  /\ configFile (bootFinal o) = ConfigText (Some exampleConfig)
  /\ modsDir (bootFinal o) = modsDir d
  /\ Forall (fun e => isBootAction e = false) (bootTrace o)
  /\ bootResult (loadConfig net (bootFinal o)) = BootVal exampleConfig
  /\ modLoader (modpackOf exampleConfig) = "fabric"
  /\ gameVersion (modpackOf exampleConfig) = "1.20.1"
  /\ length (mods (modpackOf exampleConfig)) = 4%nat.
Proof.
  intros H o. subst o. rewrite init_run, (loadConfig_missing net d H).
  cbn [bootResult bootFinal bootTrace fst snd configFile modsDir].
  split; [done|]. split; [done|]. split; [done|]. split; [by repeat constructor|].
  split; [|done]. reflexivity.
Qed.

Lemma missing_manifest_creates_example_witness :
  let d := {| configFile := NoConfigFile; modsDir := None |} in
  let o := init (constantHost jarBytes) (fun _ => ConfigUnreachable) d in
  bootResult o = BootExit 0 /\ modsDir (bootFinal o) = None.
Proof.
  intros d o.
  destruct (missing_manifest_creates_example (constantHost jarBytes)
              (fun _ => ConfigUnreachable) d eq_refl) as (Hr & _ & Hm & _).
  split; [exact Hr | exact Hm].
Defined.

Lemma init_never_throws (reg : Registry) (net : string -> ConfigResponse) (d : Disk)
    (e : BootError) :
  bootResult (init reg net d) <> BootThrow e.
Proof.
  rewrite init_run.
  destruct (loadConfig net d) as [[[c|err|code] d1] t1]; cbn; try done.
  by destruct (bootResult (inModsDir _ _)).
Qed.

(** X24.  How [init] ends.  It never throws.  It ends the process with
    code 0 exactly when the manifest is missing, and otherwise returns after
    the completion message or ends the process with code 1 after the error
    message; with a manifest in place the manifest is never rewritten, and
    the mods directory exists when [init] returns. *)
Theorem init_endings (reg : Registry) (net : string -> ConfigResponse) (d : Disk) :
  let o := init reg net d in
  (forall e, bootResult o <> BootThrow e)
  /\ (bootResult o = BootExit 0 <-> configFile d = NoConfigFile)
  /\ (forall code, bootResult o = BootExit code -> code = 0%Z \/ code = 1%Z)
  /\ (bootResult o = BootVal tt ->
        last (bootTrace o) = Some (BootLog SyncCompleted) /\ is_Some (modsDir (bootFinal o)))
  /\ (bootResult o = BootExit 1 -> exists e, last (bootTrace o) = Some (BootLog (Fatal e)))
  /\ (configFile d <> NoConfigFile -> configFile (bootFinal o) = configFile d).
Proof.
  intros o. subst o. rewrite init_run.
  destruct (configFile d) as [|p] eqn:Hcf.
  { rewrite (loadConfig_missing net d Hcf). cbn.
    split; [done|]. split; [done|]. split; [intros code [= <-]; auto|].
    split; [done|]. split; [done|]. by intros []. }
  destruct (loadConfig_present net d p Hcf) as (Hfin & Hnx & _).
  destruct (loadConfig net d) as [[[c|err|code] d1] t1];
    cbn [bootResult bootFinal bootTrace fst snd] in *; subst d1.
  - rewrite ensureModsDirectory_run. cbn [bootFinal bootTrace fst snd].
    rewrite (inModsDir_syncMods reg (modpackOf c)
               {| configFile := configFile d; modsDir := Some (default ∅ (modsDir d)) |}
               (default ∅ (modsDir d)) eq_refl).
    cbn [bootResult bootFinal bootTrace fst snd configFile modsDir].
    pose proof (syncMods_noExit reg (modpackOf c) (default ∅ (modsDir d))) as Hne.
    unfold noExit in Hne.
    destruct (result (syncMods reg (modpackOf c) (default ∅ (modsDir d)))) as [[]|e|code];
      cbn in Hne; [| |done].
    + split; [done|]. split; [done|]. split; [done|]. split; [|split; [done | done]].
      intros _. split; [|eauto]. rewrite !app_assoc. apply last_snoc.
    + split; [done|]. split; [done|]. split; [intros code [= <-]; auto|].
      split; [done|]. split; [|done]. intros _. eexists. rewrite !app_assoc. apply last_snoc.
  - split; [done|]. split; [done|]. split; [intros code [= <-]; auto|].
    split; [done|]. split; [|done]. intros _. eexists. rewrite !app_assoc. apply last_snoc.
  - by destruct (Hnx code).
Qed.

(** [init] with a manifest that [loadConfig] accepts. *)
Lemma init_loaded (reg : Registry) (net : string -> ConfigResponse) (d : Disk)
    (c : LocalConfig) (t : list BootEvent) :
  loadConfig net d = (BootVal c, d, t) ->
  let fs := default ∅ (modsDir d) in
  let s := syncMods reg (modpackOf c) fs in
  modsDir (bootFinal (init reg net d)) = Some (final s)
  /\ exists pre post,
       bootTrace (init reg net d) = pre ++ map Sync (trace s) ++ post
       /\ Forall (fun e => forall m, e <> Sync m) pre
       /\ Forall (fun e => forall m, e <> Sync m) post.
Proof.
  intros Hl fs s. rewrite init_run, Hl, ensureModsDirectory_run.
  cbn [bootFinal bootTrace fst snd].
  rewrite (inModsDir_syncMods reg (modpackOf c)
             {| configFile := configFile d; modsDir := Some (default ∅ (modsDir d)) |}
             (default ∅ (modsDir d)) eq_refl).
  fold fs. fold s. cbn [bootResult bootFinal bootTrace fst snd configFile modsDir].
  split; [done|].
  assert (Ht : Forall (fun e => forall m, e <> Sync m) t).
  { assert (Hcf : exists p, configFile d = ConfigText p).
    { destruct (configFile d) as [|p] eqn:Hcf; [|eauto].
      rewrite (loadConfig_missing net d Hcf) in Hl. done. }
    destruct Hcf as [p Hcf].
    destruct (loadConfig_present net d p Hcf) as (_ & _ & Hev). rewrite Hl in Hev.
    eapply Forall_impl; [exact Hev|]. by intros [] ?. }
  exists ([BootLog Starting] ++ t
            ++ match modsDir d with None => [Mkdir; BootLog ModsDirCreated] | Some _ => [] end).
  eexists. split; [by rewrite <- !app_assoc|]. split.
  - apply Forall_app_2; [by repeat constructor|]. apply Forall_app_2; [done|].
    destruct (modsDir d); by repeat constructor.
  - destruct (result s); by repeat constructor.
Qed.

(** X25.  An external source that is not well formed (github without
    [repo], direct without [url], or another type) is fatal: [init] ends the
    process with code 1 after the error message, although the manifest may
    list mods of its own; no request is made, the mods directory is not
    created, and no pass is run. *)
Theorem malformed_source_is_fatal (reg : Registry) (net : string -> ConfigResponse)
    (d : Disk) (c : LocalConfig) (src : ExternalSrc) :
  configFile d = ConfigText (Some c) ->
  local_externalSrc c = Some src ->
  wellFormedSource src = false ->
  let o := init reg net d in
  bootResult o = BootExit 1
  /\ bootFinal o = d
  /\ Forall (fun e => isBootAction e = false) (bootTrace o)
  /\ exists e,
       last (bootTrace o) = Some (BootLog (Fatal e))
       /\ (e = GithubRequiresRepo \/ e = DirectRequiresUrl
           \/ e = UnsupportedExternalType (src_type src)).
Proof.
  intros Hcf Hsrc Hwf o. subst o.
  assert (Hl : exists e,
            loadConfig net d = (BootThrow e, d, [BootLog (ExternalDetected (src_type src))])
            /\ (e = GithubRequiresRepo \/ e = DirectRequiresUrl
                \/ e = UnsupportedExternalType (src_type src))).
  { unfold loadConfig, bootCatch, bootBind, readConfig. rewrite Hcf, Hsrc.
    unfold processExternalSource, bootBind, bootLog, bootEmit.
    rewrite externalUrl_run, Hwf.
    destruct (String.eqb (src_type src) "github"); [eexists; split; [reflexivity | auto]|].
    destruct (String.eqb (src_type src) "direct"); eexists; (split; [reflexivity | auto]). }
  destruct Hl as (e & Hl & He). rewrite init_run, Hl.
  cbn [bootResult bootFinal bootTrace fst snd].
  split; [done|]. split; [done|]. split; [by repeat constructor|].
  exists e. split; [reflexivity | exact He].
Qed.

Lemma malformed_source_is_fatal_witness :
  let src := {| src_type := "github"; src_url := Some "https://example.com/pack.json";
                src_repo := None; src_branch := None; src_file := None |} in
  let d := withManifest (localManifest (Some src) (Some [sodium])) in
  bootResult (init sodiumRegistry (fun _ => ConfigUnreachable) d) = BootExit 1
  /\ bootFinal (init sodiumRegistry (fun _ => ConfigUnreachable) d) = d.
Proof.
  intros src d.
  destruct (malformed_source_is_fatal sodiumRegistry (fun _ => ConfigUnreachable) d
              (localManifest (Some src) (Some [sodium])) src eq_refl eq_refl eq_refl)
    as (Hr & Hf & _).
  split; [exact Hr | exact Hf].
Defined.

Lemma loadConfig_external (net : string -> ConfigResponse) (d : Disk) (c : LocalConfig)
    (src : ExternalSrc) :
  configFile d = ConfigText (Some c) ->
  local_externalSrc c = Some src ->
  wellFormedSource src = true ->
  let c' := match net (addressOf src) with
            | ConfigHttp true (Some x) =>
                match ext_mods x with Some _ => mergeExternal c x | None => c end
            | _ => c
            end in
  exists t,
    loadConfig net d =
      (match local_mods c' with Some _ => BootVal c' | None => BootThrow ConfigTypeError end,
       d, t)
    /\ In (ConfigRequest (addressOf src)) t
    /\ (unusableAnswer (net (addressOf src)) = true -> In (BootLog UsingLocal) t).
Proof.
  intros Hcf Hsrc Hwf c'.
  unfold loadConfig, bootCatch, bootBind, readConfig. rewrite Hcf, Hsrc.
  destruct (processExternalSource_run net c src d Hwf) as (t & -> & _ & Hu). fold c'.
  unfold bootLog, bootEmit, bootThrow, bootRet.
  destruct (local_mods c') as [ms|]; cbn; eexists; (split; [reflexivity|]); split;
    try (intros H; apply Hu in H); rewrite ?in_app_iff; cbn; rewrite ?in_app_iff; auto 10.
Qed.

(** X26.  An external manifest that cannot be used (no answer, a status
    that is not ok, a body that is not JSON, an object without [mods]) is not
    fatal: after the request and the warning, [loadConfig] returns the
    configuration of the manifest itself, and the pass of [init] is the pass
    of that configuration on the mods directory. *)
Theorem unusable_external_falls_back (reg : Registry) (net : string -> ConfigResponse)
    (d : Disk) (c : LocalConfig) (src : ExternalSrc) (ms : list ModConfig) :
  configFile d = ConfigText (Some c) ->
  local_externalSrc c = Some src ->
  wellFormedSource src = true ->
  unusableAnswer (net (addressOf src)) = true ->
  local_mods c = Some ms ->
  bootResult (loadConfig net d) = BootVal c
  /\ In (ConfigRequest (addressOf src)) (bootTrace (loadConfig net d))
  /\ In (BootLog UsingLocal) (bootTrace (loadConfig net d))
  /\ modsDir (bootFinal (init reg net d))
     = Some (final (syncMods reg (modpackOf c) (default ∅ (modsDir d))))
  /\ mods (modpackOf c) = ms.
Proof.
  intros Hcf Hsrc Hwf Hbad Hms.
  destruct (loadConfig_external net d c src Hcf Hsrc Hwf) as (t & Hl & Hreq & Hwarn).
  assert (Hc : match net (addressOf src) with
               | ConfigHttp true (Some x) =>
                   match ext_mods x with Some _ => mergeExternal c x | None => c end
               | _ => c
               end = c).
  { destruct (net (addressOf src)) as [|[|] [x|]]; try done.
    cbn in Hbad. by destruct (ext_mods x). }
  rewrite Hc, Hms in Hl.
  destruct (init_loaded reg net d c t Hl) as [Hdir _].
  rewrite Hl. cbn [bootResult bootTrace fst snd].
  split; [done|]. split; [done|]. split; [by apply Hwarn|]. split; [exact Hdir|].
  unfold modpackOf. by rewrite Hms.
Qed.

Lemma unusable_external_falls_back_witness :
  let c := localManifest (Some (githubSource "someone/pack")) (Some [sodium]) in
  let net := fun _ : string => ConfigHttp false None in
  bootResult (loadConfig net (withManifest c)) = BootVal c
  /\ In (BootLog UsingLocal) (bootTrace (loadConfig net (withManifest c))).
Proof.
  intros c net.
  destruct (unusable_external_falls_back sodiumRegistry net (withManifest c) c
              (githubSource "someone/pack") [sodium] eq_refl eq_refl eq_refl eq_refl eq_refl)
    as (Hr & _ & Hw & _).
  split; [exact Hr | exact Hw].
Defined.

(** X27.  An external manifest that lists mods replaces the manifest's
    own: the mods of the pass are the external ones, also when the manifest
    lists none; loader, game version and pruning switch are the external ones
    where given and the manifest's otherwise; the external source stays the
    one of the manifest. *)
Theorem external_manifest_is_merged (reg : Registry) (net : string -> ConfigResponse)
    (d : Disk) (c : LocalConfig) (src : ExternalSrc) (x : ExternalConfig)
    (ms : list ModConfig) :
  configFile d = ConfigText (Some c) ->
  local_externalSrc c = Some src ->
  wellFormedSource src = true ->
  net (addressOf src) = ConfigHttp true (Some x) ->
  ext_mods x = Some ms ->
  exists c',
    bootResult (loadConfig net d) = BootVal c'
    /\ mods (modpackOf c') = ms
    /\ modLoader (modpackOf c') = default (local_modLoader c) (ext_modLoader x)
    /\ gameVersion (modpackOf c') = default (local_gameVersion c) (ext_gameVersion x)
    /\ prune (modpackOf c') = default (local_prune c) (ext_prune x)
    /\ local_externalSrc c' = Some src
    /\ In (BootLog ExternalApplied) (bootTrace (loadConfig net d))
    /\ modsDir (bootFinal (init reg net d))
       = Some (final (syncMods reg (modpackOf c') (default ∅ (modsDir d)))).
Proof.
  intros Hcf Hsrc Hwf Hnet Hms.
  exists (mergeExternal c x).
  assert (Hl : exists t, loadConfig net d = (BootVal (mergeExternal c x), d, t)
                         /\ In (BootLog ExternalApplied) t).
  { unfold loadConfig, bootCatch, bootBind, readConfig. rewrite Hcf, Hsrc.
    unfold processExternalSource, bootBind, bootCatch, bootLog, bootEmit, bootRet.
    rewrite externalUrl_run, Hwf, Hnet. cbn [negb]. rewrite Hms. cbn.
    rewrite Hms. cbn. eexists. split; [reflexivity|]. cbn. auto 10. }
  destruct Hl as (t & Hl & Happlied).
  destruct (init_loaded reg net d _ t Hl) as [Hdir _].
  rewrite Hl. cbn [bootResult bootTrace fst snd].
  split; [done|]. split; [unfold modpackOf, mergeExternal; cbn; by rewrite Hms|].
  split; [done|]. split; [done|]. split; [done|]. split; [done|].
  split; [exact Happlied | exact Hdir].
Qed.

Lemma external_manifest_is_merged_witness :
  let c := localManifest (Some (githubSource "someone/pack")) None in
  let net := fun _ : string => ConfigHttp true (Some (externalManifest [sodium])) in
  exists c',
    bootResult (loadConfig net (withManifest c)) = BootVal c'
    /\ mods (modpackOf c') = [sodium]
    /\ gameVersion (modpackOf c') = "1.21"
    /\ prune (modpackOf c') = Some false.
Proof.
  intros c net.
  destruct (external_manifest_is_merged sodiumRegistry net (withManifest c) c
              (githubSource "someone/pack") (externalManifest [sodium]) [sodium]
              eq_refl eq_refl eq_refl eq_refl eq_refl)
    as (c' & Hr & Hm & _ & Hg & Hp & _).
  exists c'. split; [exact Hr|]. split; [exact Hm|]. split; [exact Hg | exact Hp].
Defined.

(** X28.  The address of the external manifest.  For a github source the
    one request goes to the raw file of the repository, on the branch [main]
    and for the file [tn.mods.json] unless the source names others, whatever
    [url] holds; for a direct source it goes to [url]. *)
Theorem external_request_address (net : string -> ConfigResponse) (c : LocalConfig)
    (src : ExternalSrc) (d : Disk) :
  (forall repo,
     src_type src = "github" -> src_repo src = Some repo -> repo <> "" ->
     forall u,
       In (ConfigRequest u) (bootTrace (processExternalSource net c src d))
       <-> u = "https://raw.githubusercontent.com/" +:+ repo
                 +:+ "/" +:+ default "main" (src_branch src)
                 +:+ "/" +:+ default "tn.mods.json" (src_file src))
  /\ (forall address,
        src_type src = "direct" -> src_url src = Some address -> address <> "" ->
        forall u,
          In (ConfigRequest u) (bootTrace (processExternalSource net c src d))
          <-> u = address).
Proof.
  assert (Hreq : wellFormedSource src = true ->
            forall u, In (ConfigRequest u) (bootTrace (processExternalSource net c src d))
                      <-> u = addressOf src).
  { intros Hwf u.
    destruct (processExternalSource_run net c src d Hwf) as (t & -> & Ht & _).
    cbn [bootTrace snd]. rewrite in_app_iff. cbn [In]. split.
    - intros [[?|[?|[?|[]]]]|Hin]; try done; [by simplify_eq|].
      rewrite List.Forall_forall in Ht. by specialize (Ht _ Hin).
    - intros ->. left. right. right. by left. }
  split.
  - intros repo Hty Hrepo Hne. apply String.eqb_neq in Hne.
    assert (Hwf : wellFormedSource src = true).
    { unfold wellFormedSource, Js.truthy. by rewrite Hty, Hrepo, Hne. }
    intros u. rewrite (Hreq Hwf u). unfold addressOf, Js.orElse. by rewrite Hty, Hrepo, Hne.
  - intros address Hty Hurl Hne. apply String.eqb_neq in Hne.
    assert (Hwf : wellFormedSource src = true).
    { unfold wellFormedSource, Js.truthy. rewrite Hty, Hurl, Hne. done. }
    intros u. rewrite (Hreq Hwf u). unfold addressOf, Js.orElse. by rewrite Hty, Hurl, Hne.
Qed.

Lemma external_request_address_witness :
  let c := localManifest (Some (githubSource "someone/pack")) None in
  In (ConfigRequest "https://raw.githubusercontent.com/someone/pack/main/tn.mods.json")
     (bootTrace (processExternalSource (fun _ => ConfigUnreachable) c
                   (githubSource "someone/pack") (withManifest c))).
Proof.
  intros c.
  destruct (external_request_address (fun _ => ConfigUnreachable) c
              (githubSource "someone/pack") (withManifest c)) as [Hgithub _].
  apply (Hgithub "someone/pack"); [reflexivity | reflexivity | discriminate | reflexivity].
Defined.


(** X29.  [ensureModsDirectory] returns, leaves the manifest alone, and
    leaves the mods directory in existence with what it held: a missing
    directory is created empty, a present one is untouched and nothing is
    printed; running it again changes nothing. *)
Theorem ensureModsDirectory_keeps_content (d : Disk) :
  let o := ensureModsDirectory d in
  bootResult o = BootVal tt
  /\ configFile (bootFinal o) = configFile d
  /\ modsDir (bootFinal o) = Some (default ∅ (modsDir d))
  /\ (is_Some (modsDir d) -> bootFinal o = d /\ bootTrace o = [])
  /\ (modsDir d = None -> bootTrace o = [Mkdir; BootLog ModsDirCreated])
  /\ ensureModsDirectory (bootFinal o) = (BootVal tt, bootFinal o, []).
Proof.
  intros o. subst o. unfold ensureModsDirectory.
  destruct d as [cf [fs|]]; cbn; repeat split; try done; by intros [? [=]].
Qed.

(** X30.  How [main] ends.  Its promise is never rejected.  When the
    update check restarts the program, the process ends with the code of the
    restarted child before [init] runs: the working directory is as before
    and only events of the updater are seen.  Otherwise [init] runs on the
    working directory, and the prompt for the key press is shown exactly when
    [init] returns. *)
Theorem main_endings (sv : SemverLib) (h : Host) (reg : Registry)
    (net : string -> ConfigResponse) (w : World) :
  let o := main sv h reg net w in
  mainEnding o <> Rejected
  /\ installation (mainWorld o) = final (check sv h (installation w))
  /\ (forall code,
        result (check sv h (installation w)) = Exit code ->
        mainEnding o = Terminated code
        /\ workdir (mainWorld o) = workdir w
        /\ Forall (fun e => isUpdaterEvent e = true) (mainEvents o))
  /\ ((forall code, result (check sv h (installation w)) <> Exit code) ->
        workdir (mainWorld o) = bootFinal (init reg net (workdir w))
        /\ (mainEnding o = Completed <-> bootResult (init reg net (workdir w)) = BootVal tt)
        /\ (forall code, mainEnding o = Terminated code
                         <-> bootResult (init reg net (workdir w)) = BootExit code))
  /\ (In PressEnter (mainEvents o) <-> mainEnding o = Completed).
Proof.
  intros o. subst o. unfold main.
  pose proof (check_never_throws sv h (installation w)) as Hnt.
  destruct (check sv h (installation w)) as [[[[]|e|code] fs'] t];
    cbn [result final fst snd] in *; [| by destruct (Hnt e) |].
  - pose proof (init_never_throws reg net (workdir w)) as Hinit.
    destruct (init reg net (workdir w)) as [[[[]|e|code] d'] t'];
      cbn [bootResult bootFinal fst snd mainEnding mainWorld mainEvents installation workdir] in *.
    + split; [done|]. split; [done|]. split; [done|]. split.
      * intros _. split; [done|]. split; [done|]. intros code. split; done.
      * split; [done|]. intros _. rewrite !in_app_iff. right. right. by left.
    + by destruct (Hinit e).
    + split; [done|]. split; [done|]. split; [done|]. split.
      * intros _. split; [done|]. split; [done|]. intros c. split; by intros [= <-].
      * split; [|done]. rewrite in_app_iff, !in_map_iff.
        intros [(x & [=] & _)|(x & [=] & _)].
  - cbn [mainEnding mainWorld mainEvents installation workdir fst snd].
    split; [done|]. split; [done|]. split.
    + intros c [= <-]. split; [done|]. split; [done|].
      apply List.Forall_forall. intros x Hx. apply in_map_iff in Hx as (y & <- & _). done.
    + split; [intros Hn; by destruct (Hn code)|].
      split; [|done]. rewrite in_map_iff. intros (x & [=] & _).
Qed.
